(** * GLprimer: mesh generation (TriangleSoup) and TGA decoding (Texture)

    A shallow embedding of [TriangleSoup.cpp] and [Texture.cpp].

    Conventions of the embedding
    - [int] is the 32-bit signed type.  Arithmetic on [int] that leaves the
      range is undefined in C++; the embedding makes every such operation
      explicit and lets it end in [Undefined SignedOverflow].
    - [GLuint] is the 32-bit unsigned type; its arithmetic wraps modulo 2^32
      and the wrap-around is written out with [Z.modulo].
    - [operator[]] of a [std::vector] outside the vector is undefined; every
      access is checked and ends in [Undefined (OutOfBounds _ _)].
    - Floating point values are kept as the expression the source evaluates
      ([GLfloat]); their IEEE-754 value is never interpreted.
    - The OpenGL object names ([vao_], [vertexbuffer_], [indexbuffer_]) live
      in the GL context; the embedding keeps the data members that hold the
      mesh: [nverts_], [ntris_], [vertexarray_], [indexarray_]. *)

From Stdlib Require Import ZArith Lia List Ascii String.
From Stdlib.Strings Require Import Byte.
From stdpp Require Import base tactics option list list_numbers gmap strings.

Local Open Scope Z_scope.

(* ===================================================================== *)
(** ** Outcomes of a call *)
(* ===================================================================== *)

(** The vectors and constant arrays that the code indexes. *)
Inductive array_id : Type :=
  | A_vertexarray | A_indexarray
  | A_vertex_array_data | A_index_array_data
  | A_verts | A_normals | A_texcoords
  | A_image_data.

Inductive access : Type := Load | Store.

Inductive fault : Type :=
  | SignedOverflow                              (* int arithmetic left the int range *)
  | OutOfBounds (a : array_id) (k : access)     (* operator[] outside the container *)
  | IndeterminateValue                          (* read of an uninitialised object *)
  | ConversionOverflow.                         (* %d of a number that int cannot hold *)

Inductive exception : Type :=
  | length_error.                               (* std::vector::resize beyond max_size *)

Inductive outcome (A : Type) : Type :=
  | Ok (a : A)
  | Undefined (f : fault)
  | Throws (e : exception).
Arguments Ok {A} a.
Arguments Undefined {A} f.
Arguments Throws {A} e.

Definition outcome_bind {A B : Type} (f : A -> outcome B) (m : outcome A) : outcome B :=
  match m with
  | Ok a => f a
  | Undefined u => Undefined u
  | Throws e => Throws e
  end.

#[global] Instance outcome_ret : MRet outcome := fun A a => Ok a.
#[global] Instance outcome_mbind : MBind outcome := fun A B f m => outcome_bind f m.

(* ===================================================================== *)
(** ** The integer types *)
(* ===================================================================== *)

Definition INT_MIN : Z := - 2 ^ 31.
Definition INT_MAX : Z := 2 ^ 31 - 1.

Definition in_int (z : Z) : bool := (INT_MIN <=? z) && (z <=? INT_MAX).

(** The result of an [int] operation whose mathematical value is [z]. *)
Definition checked (z : Z) : outcome Z :=
  if in_int z then Ok z else Undefined SignedOverflow.

(** An [int] value used as an operand. *)
Definition int_ (z : Z) : outcome Z := Ok z.
Coercion int_ : Z >-> outcome.

Definition iadd (a b : outcome Z) : outcome Z := x ← a; y ← b; checked (x + y).
Definition isub (a b : outcome Z) : outcome Z := x ← a; y ← b; checked (x - y).
Definition imul (a b : outcome Z) : outcome Z := x ← a; y ← b; checked (x * y).

Declare Scope int_scope.
Delimit Scope int_scope with int.
Infix "+!" := iadd (at level 50, left associativity) : int_scope.
Infix "-!" := isub (at level 50, left associativity) : int_scope.
Infix "*!" := imul (at level 40, left associativity) : int_scope.
Notation "x '←int' e ; k" := (mbind (M := outcome) (fun x : Z => k) e)
  (at level 20, e at level 100, k at level 200, only parsing) : stdpp_scope.
Local Open Scope int_scope.

(** Conversion of an [int] to [GLuint] (and of any value to 32 unsigned bits). *)
Definition to_GLuint (z : Z) : Z := z mod 2 ^ 32.

(* ===================================================================== *)
(** ** std::vector *)
(* ===================================================================== *)

Definition len {A : Type} (v : list A) : Z := Z.of_nat (length v).

(** [v.resize(n)] with [n] an [int] expression: a negative [int] converts to
    a [size_type] above [max_size()], and [resize] throws.  Otherwise the
    first [n] elements are kept and new elements are value-initialised. *)
Definition vec_resize {A : Type} (v : list A) (n : outcome Z) (d : A) : outcome (list A) :=
  k ← n;
  if decide (k < 0) then Throws length_error
  else Ok (take (Z.to_nat k) v ++ replicate (Z.to_nat k - length v)%nat d).

(** [v[i]] read. *)
Definition vec_load {A : Type} (id : array_id) (v : list A) (i : outcome Z) : outcome A :=
  k ← i;
  match decide (0 <= k), v !! Z.to_nat k with
  | left _, Some x => Ok x
  | _, _ => Undefined (OutOfBounds id Load)
  end.

(** [v[i] = x]. *)
Definition vec_store {A : Type} (id : array_id) (v : list A) (i : outcome Z) (x : A)
  : outcome (list A) :=
  k ← i;
  if decide (0 <= k < len v) then Ok (<[Z.to_nat k := x]> v)
  else Undefined (OutOfBounds id Store).

(** [for (int i = lo; i < hi; i++) body], the bound being loop invariant. *)
Fixpoint for_loop {S : Type} (n : nat) (i : Z) (body : Z -> S -> outcome S) (s : S)
  : outcome S :=
  match n with
  | O => Ok s
  | S n' => s' ← body i s; for_loop n' (i + 1) body s'
  end.

Definition for_range {S : Type} (lo hi : Z) (body : Z -> S -> outcome S) (s : S)
  : outcome S :=
  for_loop (Z.to_nat (hi - lo)) lo body s.

(* ===================================================================== *)
(** ** Floating point values *)
(* ===================================================================== *)

(** The value of a [float] or [double] expression, kept as the expression. *)
Inductive GLfloat : Type :=
  | FLit (text : string)          (* a literal, by its source text *)
  | FScan (text : string)         (* the text converted by a %f directive *)
  | FInt (z : Z)                  (* an int operand, before its conversion *)
  | FPi                           (* M_PI *)
  | FNeg (a : GLfloat)
  | FSub (a b : GLfloat)
  | FMul (a b : GLfloat)
  | FDiv (a b : GLfloat)
  | FCos (a : GLfloat)
  | FSin (a : GLfloat)
  | FToFloat (a : GLfloat)        (* conversion to float *)
  | FToDouble (a : GLfloat).      (* conversion to double *)

Definition f0 : GLfloat := FLit "0.0f".
Definition f1 : GLfloat := FLit "1.0f".
Definition fhalf : GLfloat := FLit "0.5f".

(* ===================================================================== *)
(** ** TriangleSoup *)
(* ===================================================================== *)

Record TriangleSoup : Type := mkSoup {
  nverts_ : Z;                      (* int *)
  ntris_ : Z;                       (* int *)
  vertexarray_ : list GLfloat;      (* x y z nx ny nz s t per vertex *)
  indexarray_ : list Z              (* GLuint *)
}.

(** [TriangleSoup::TriangleSoup()] *)
Definition TriangleSoup_new : TriangleSoup :=
  {| nverts_ := 0; ntris_ := 0; vertexarray_ := []; indexarray_ := [] |}.

(** [TriangleSoup::clean()] *)
Definition clean (s : TriangleSoup) : TriangleSoup :=
  {| nverts_ := 0; ntris_ := 0; vertexarray_ := []; indexarray_ := [] |}.

(** The two copy loops shared by [createTriangle] and [createBox]. *)
Definition copy_vertex_data (data : list GLfloat) (n : Z) (va : list GLfloat)
  : outcome (list GLfloat) :=
  for_range 0 n
    (fun i va => x ← vec_load A_vertex_array_data data i;
                 vec_store A_vertexarray va i x) va.

Definition copy_index_data (data : list Z) (n : Z) (ia : list Z) : outcome (list Z) :=
  for_range 0 n
    (fun i ia => x ← vec_load A_index_array_data data i;
                 vec_store A_indexarray ia i x) ia.

(** [TriangleSoup::createTriangle()] *)
Definition triangle_vertex_array_data : list GLfloat :=
  [ FNeg f1; FNeg f1; f0;  f0; f0; f1;  f0; f0;
    f1; FNeg f1; f0;       f0; f0; f1;  f1; f0;
    f0; f1; f0;            f0; f0; f1;  fhalf; f1 ].

Definition triangle_index_array_data : list Z := [0; 1; 2].

Definition createTriangle (s : TriangleSoup) : outcome TriangleSoup :=
  let nverts := 3 in
  let ntris := 1 in
  va ← vec_resize (vertexarray_ s) (8 *! nverts) f0;
  ia ← vec_resize (indexarray_ s) (3 *! ntris) 0;
  n8 ←int 8 *! nverts;
  va ← copy_vertex_data triangle_vertex_array_data n8 va;
  n3 ←int 3 *! ntris;
  ia ← copy_index_data triangle_index_array_data n3 ia;
  Ok {| nverts_ := nverts; ntris_ := ntris; vertexarray_ := va; indexarray_ := ia |}.

(** [TriangleSoup::createBox(xsize, ysize, zsize)] *)
Definition box_vertex_array_data (xsize ysize zsize : GLfloat) : list GLfloat :=
  [ FNeg xsize; FNeg ysize; FNeg zsize;  f0; f0; f1;  f0; f0;
    xsize;      FNeg ysize; FNeg zsize;  f0; f0; f1;  f0; f0;
    FNeg xsize; ysize;      FNeg zsize;  f0; f0; f1;  f0; f0;
    xsize;      ysize;      FNeg zsize;  f0; f0; f1;  f0; f0;
    FNeg xsize; FNeg ysize; zsize;       f0; f0; f1;  f0; f0;
    xsize;      FNeg ysize; zsize;       f0; f0; f1;  f0; f0;
    FNeg xsize; ysize;      zsize;       f0; f0; f1;  f0; f0;
    xsize;      ysize;      zsize;       f0; f0; f1;  f0; f0 ].

Definition box_index_array_data : list Z :=
  [ 0; 3; 1;  0; 2; 3;  1; 4; 0;  1; 5; 4;  4; 2; 0;  4; 6; 2;
    1; 3; 7;  1; 7; 5;  7; 2; 6;  7; 3; 2;  4; 5; 7;  4; 7; 6 ].

Definition createBox (xsize ysize zsize : GLfloat) (s : TriangleSoup)
  : outcome TriangleSoup :=
  let nverts := 8 in
  let ntris := 12 in
  va ← vec_resize (vertexarray_ s) (8 *! nverts) f0;
  ia ← vec_resize (indexarray_ s) (3 *! ntris) 0;
  n8 ←int 8 *! nverts;
  va ← copy_vertex_data (box_vertex_array_data xsize ysize zsize) n8 va;
  n3 ←int 3 *! ntris;
  ia ← copy_index_data box_index_array_data n3 ia;
  Ok {| nverts_ := nverts; ntris_ := ntris; vertexarray_ := va; indexarray_ := ia |}.

(** [indexarray_[idx] = val], the [int] value converted to [GLuint]. *)
Definition store_index (ia : list Z) (idx val : outcome Z) : outcome (list Z) :=
  v ← val; vec_store A_indexarray ia idx (to_GLuint v).

(** [TriangleSoup::createSphere(radius, segments)] *)
Definition createSphere (radius : GLfloat) (segments : Z) (s0 : TriangleSoup)
  : outcome TriangleSoup :=
  let s := clean s0 in
  let vsegs := Z.max segments 2 in
  hsegs ←int vsegs *! 2;
  nverts ←int 1 +! (vsegs -! 1) *! (hsegs +! 1) +! 1;
  ntris ←int hsegs +! (vsegs -! 2) *! hsegs *! 2 +! hsegs;
  va ← vec_resize (vertexarray_ s) (nverts *! 8) f0;
  ia ← vec_resize (indexarray_ s) (ntris *! 3) 0;
  let stride := 8 in
  (* top pole *)
  va ← vec_store A_vertexarray va 0 f0;
  va ← vec_store A_vertexarray va 1 f0;
  va ← vec_store A_vertexarray va 2 radius;
  va ← vec_store A_vertexarray va 3 f0;
  va ← vec_store A_vertexarray va 4 f0;
  va ← vec_store A_vertexarray va 5 f1;
  va ← vec_store A_vertexarray va 6 fhalf;
  va ← vec_store A_vertexarray va 7 f1;
  (* bottom pole *)
  base ←int (nverts -! 1) *! stride;
  va ← vec_store A_vertexarray va base f0;
  va ← vec_store A_vertexarray va (base +! 1) f0;
  va ← vec_store A_vertexarray va (base +! 2) (FNeg radius);
  va ← vec_store A_vertexarray va (base +! 3) f0;
  va ← vec_store A_vertexarray va (base +! 4) f0;
  va ← vec_store A_vertexarray va (base +! 5) (FNeg f1);
  va ← vec_store A_vertexarray va (base +! 6) fhalf;
  va ← vec_store A_vertexarray va (base +! 7) f0;
  (* vsegs-1 latitude rings of hsegs+1 vertices each *)
  rings ←int vsegs -! 1;
  va ← for_range 0 rings (fun j va =>
    j1 ←int j +! 1;
    let theta := FMul (FDiv (FToDouble (FInt j1)) (FToDouble (FInt vsegs))) FPi in
    let z := FToFloat (FCos theta) in
    let R := FToFloat (FSin theta) in
    ring ←int hsegs +! 1;                      (* i <= hsegs, and the last i++ *)
    for_range 0 ring (fun i va =>
      let phi :=
        FMul (FMul (FDiv (FToDouble (FInt i)) (FToDouble (FInt hsegs))) (FLit "2.0")) FPi in
      let x := FMul R (FToFloat (FCos phi)) in
      let y := FMul R (FToFloat (FSin phi)) in
      base ←int (1 +! j *! (hsegs +! 1) +! i) *! stride;
      va ← vec_store A_vertexarray va base (FMul radius x);
      va ← vec_store A_vertexarray va (base +! 1) (FMul radius y);
      va ← vec_store A_vertexarray va (base +! 2) (FMul radius z);
      va ← vec_store A_vertexarray va (base +! 3) x;
      va ← vec_store A_vertexarray va (base +! 4) y;
      va ← vec_store A_vertexarray va (base +! 5) z;
      va ← vec_store A_vertexarray va (base +! 6)
             (FDiv (FToFloat (FInt i)) (FToFloat (FInt hsegs)));
      j1 ←int j +! 1;
      vec_store A_vertexarray va (base +! 7)
             (FSub f1 (FDiv (FToFloat (FInt j1)) (FToFloat (FInt vsegs))))) va) va;
  (* top cap *)
  ia ← for_range 0 hsegs (fun i ia =>
    ia ← store_index ia (3 *! i) 0;
    ia ← store_index ia (3 *! i +! 1) (1 +! i);
    store_index ia (3 *! i +! 2) (2 +! i)) ia;
  (* middle part (possibly empty if vsegs=2) *)
  bands ←int vsegs -! 2;
  ia ← for_range 0 bands (fun j ia =>
    for_range 0 hsegs (fun i ia =>
      base ←int 3 *! (hsegs +! 2 *! (j *! hsegs +! i));
      i0 ←int 1 +! j *! (hsegs +! 1) +! i;
      ia ← store_index ia base i0;
      ia ← store_index ia (base +! 1) (i0 +! hsegs +! 1);
      ia ← store_index ia (base +! 2) (i0 +! 1);
      ia ← store_index ia (base +! 3) (i0 +! 1);
      ia ← store_index ia (base +! 4) (i0 +! hsegs +! 1);
      store_index ia (base +! 5) (i0 +! hsegs +! 2)) ia) ia;
  (* bottom cap *)
  base ←int 3 *! (hsegs +! 2 *! (vsegs -! 2) *! hsegs);
  ia ← for_range 0 hsegs (fun i ia =>
    ia ← store_index ia (base +! 3 *! i) (nverts -! 1);
    ia ← store_index ia (base +! 3 *! i +! 1) (nverts -! 2 -! i);
    store_index ia (base +! 3 *! i +! 2) (nverts -! 3 -! i)) ia;
  Ok {| nverts_ := nverts; ntris_ := ntris; vertexarray_ := va; indexarray_ := ia |}.

(* ===================================================================== *)
(** ** Text files, fgets and sscanf *)
(* ===================================================================== *)

(** [fgets(line, n + 1, f)] on the unread text [s]: the buffer and what is
    left.  At most [n] characters are taken and reading stops after a
    newline.  (The caller tests for end of file first.) *)
Fixpoint fgets (n : nat) (s : string) : string * string :=
  match n, s with
  | O, _ => (EmptyString, s)
  | _, EmptyString => (EmptyString, EmptyString)
  | S n', String c s' =>
      if Ascii.eqb c "010" then (String c EmptyString, s')
      else let (l, r) := fgets n' s' in (String c l, r)
  end.

(** [while (fgets(line, 256, objfile))]: the successive buffers.  Each call
    takes at least one character, so [fuel] bounds the number of calls. *)
Fixpoint fgets_loop (fuel : nat) (s : string) : list string :=
  match fuel, s with
  | O, _ => []
  | _, EmptyString => []
  | S fuel', _ => let (l, r) := fgets 255 s in l :: fgets_loop fuel' r
  end.

Definition file_lines (s : string) : list string := fgets_loop (String.length s) s.

(** The C string held in a buffer: the characters before the first NUL. *)
Fixpoint c_str (s : string) : string :=
  match s with
  | EmptyString => EmptyString
  | String c s' => if Ascii.eqb c "000" then EmptyString else String c (c_str s')
  end.

Definition isspace (c : ascii) : bool :=
  let n := N_of_ascii c in ((9 <=? n) && (n <=? 13))%N || (n =? 32)%N.

Definition isdigit (c : ascii) : bool :=
  let n := N_of_ascii c in ((48 <=? n) && (n <=? 57))%N.

Fixpoint skip_space (s : string) : string :=
  match s with
  | String c s' => if isspace c then skip_space s' else s
  | EmptyString => s
  end.

(** The longest prefix of decimal digits, and the rest. *)
Fixpoint span_digits (s : string) : string * string :=
  match s with
  | String c s' =>
      if isdigit c then let (d, r) := span_digits s' in (String c d, r)
      else (EmptyString, s)
  | EmptyString => (EmptyString, s)
  end.

Definition span_sign (s : string) : string * string :=
  match s with
  | String c s' =>
      if Ascii.eqb c "+" || Ascii.eqb c "-" then (String c EmptyString, s') else (EmptyString, s)
  | EmptyString => (EmptyString, s)
  end.

Fixpoint digits_value (acc : Z) (d : string) : Z :=
  match d with
  | String c d' => digits_value (10 * acc + (Z.of_N (N_of_ascii c) - 48)) d'
  | EmptyString => acc
  end.

(** [%d]: white space is skipped, then an optional sign and at least one
    decimal digit.  The value is the mathematical one; its conversion to
    [int] is checked where it is stored. *)
Definition scan_d (s : string) : option (Z * string) :=
  let (sg, s1) := span_sign (skip_space s) in
  let (d, r) := span_digits s1 in
  match d with
  | EmptyString => None
  | _ => Some (if String.eqb sg "-" then - digits_value 0 d else digits_value 0 d, r)
  end.

Definition isxdigit (c : ascii) : bool :=
  let n := N_of_ascii c in
  ((48 <=? n) && (n <=? 57) || (65 <=? n) && (n <=? 70) || (97 <=? n) && (n <=? 102))%N.

(** A digit, a letter or an underscore: what may stand between the
    parentheses of [nan(...)]. *)
Definition isnchar (c : ascii) : bool :=
  let n := N_of_ascii c in
  ((48 <=? n) && (n <=? 57) || (65 <=? n) && (n <=? 90) || (97 <=? n) && (n <=? 122)
   || (n =? 95))%N.

Definition tolower (c : ascii) : ascii :=
  let n := N_of_ascii c in
  if ((65 <=? n) && (n <=? 90))%N then ascii_of_N (n + 32) else c.

(** The longest prefix of hexadecimal digits, and the rest. *)
Fixpoint span_xdigits (s : string) : string * string :=
  match s with
  | String c s' =>
      if isxdigit c then let (d, r) := span_xdigits s' in (String c d, r)
      else (EmptyString, s)
  | EmptyString => (EmptyString, s)
  end.

Fixpoint span_nchars (s : string) : string * string :=
  match s with
  | String c s' =>
      if isnchar c then let (d, r) := span_nchars s' in (String c d, r)
      else (EmptyString, s)
  | EmptyString => (EmptyString, s)
  end.

(** The longest prefix of [s] that is, the case of the letters apart, a
    prefix of the lower-case word [w], and the rest. *)
Fixpoint span_keyword (w s : string) : string * string :=
  match w, s with
  | String a w', String c s' =>
      if Ascii.eqb a (tolower c) then let (m, r) := span_keyword w' s' in (String c m, r)
      else (EmptyString, s)
  | _, _ => (EmptyString, s)
  end.

(** Digits with at most one point among them, at least one digit; [span]
    takes the digits. *)
Definition scan_mantissa (span : string -> string * string) (s : string)
  : option (string * string) :=
  let (ip, s2) := span s in
  let '(pt, fp, s3) :=
    match s2 with
    | String c s2' =>
        if Ascii.eqb c "." then let (d, r) := span s2' in (".", d, r)
        else (EmptyString, EmptyString, s2)
    | EmptyString => (EmptyString, EmptyString, s2)
    end%string in
  match (ip ++ fp)%string with
  | EmptyString => None
  | _ => Some ((ip ++ pt ++ fp)%string, s3)
  end.

(** The optional exponent part: the letter ([e], or [p] of the hexadecimal
    form, in either case), an optional sign and decimal digits.  When the
    letter is there and no digit follows, the input item is a prefix of a
    number only: a matching failure. *)
Definition scan_exponent (letter : ascii) (s : string) : option (string * string) :=
  match s with
  | String c s' =>
      if Ascii.eqb (tolower c) letter then
        let (esg, s1) := span_sign s' in
        let (ed, r) := span_digits s1 in
        match ed with
        | EmptyString => None
        | _ => Some ((String c esg ++ ed)%string, r)
        end
      else Some (EmptyString, s)
  | EmptyString => Some (EmptyString, s)
  end.

(** [%f]: white space is skipped; the input item is the longest sequence
    of characters that is, or is a prefix of, a subject sequence of
    [strtod]: an optional sign and then decimal digits with an optional
    point and exponent, [0x] and hexadecimal digits with an optional point
    and binary exponent, [inf] or [infinity], or [nan] with an optional
    parenthesised sequence, letters in either case.  An item that is only a
    prefix of such a sequence ([1e], [0x], [infi], [nan(1]) is a matching
    failure.  The value is kept as the matched text. *)
Definition scan_f (s : string) : option (GLfloat * string) :=
  let (sg, s1) := span_sign (skip_space s) in
  match s1 with
  | EmptyString => None
  | String c s1' =>
      if Ascii.eqb (tolower c) "i" then
        let (w, r) := span_keyword "infinity" s1 in
        if (String.length w =? 3)%nat || (String.length w =? 8)%nat
        then Some (FScan (sg ++ w), r) else None
      else if Ascii.eqb (tolower c) "n" then
        let (w, r) := span_keyword "nan" s1 in
        if (String.length w =? 3)%nat then
          match r with
          | String p r1 =>
              if Ascii.eqb p "(" then
                let (q, r2) := span_nchars r1 in
                match r2 with
                | String p' r3 =>
                    if Ascii.eqb p' ")"
                    then Some (FScan (sg ++ w ++ String p q ++ String p' EmptyString), r3)
                    else None
                | EmptyString => None
                end
              else Some (FScan (sg ++ w), r)
          | EmptyString => Some (FScan (sg ++ w), r)
          end
        else None
      else
        match s1' with
        | String x s2 =>
            if Ascii.eqb c "0" && Ascii.eqb (tolower x) "x" then
              match scan_mantissa span_xdigits s2 with
              | Some (m, s3) =>
                  match scan_exponent "p" s3 with
                  | Some (e, r) => Some (FScan (sg ++ String c (String x m) ++ e), r)
                  | None => None
                  end
              | None => None
              end
            else
              match scan_mantissa span_digits s1 with
              | Some (m, s3) =>
                  match scan_exponent "e" s3 with
                  | Some (e, r) => Some (FScan (sg ++ m ++ e), r)
                  | None => None
                  end
              | None => None
              end
        | EmptyString =>
            match scan_mantissa span_digits s1 with
            | Some (m, s3) => Some (FScan (sg ++ m), s3)
            | None => None
            end
        end
  end%string.

(** [%ws]: white space is skipped, then at most [w] characters that are not
    white space, at least one. *)
Fixpoint span_word (w : nat) (s : string) : string * string :=
  match w, s with
  | S w', String c s' =>
      if isspace c then (EmptyString, s)
      else let (t, r) := span_word w' s' in (String c t, r)
  | _, _ => (EmptyString, s)
  end.

Definition scan_s (w : nat) (s : string) : option (string * string) :=
  let (t, r) := span_word w (skip_space s) in
  match t with
  | EmptyString => None
  | _ => Some (t, r)
  end.

Inductive directive : Type :=
  | D_space                 (* white space in the format *)
  | D_char (c : ascii)      (* an ordinary character *)
  | D_d                     (* %d *)
  | D_f                     (* %f *)
  | D_s (w : nat).          (* %ws, w a single digit *)

Inductive scanned : Type :=
  | S_int (z : Z)
  | S_float (x : GLfloat)
  | S_str (t : string).

(** The directives of a format string (the conversions the source uses). *)
Fixpoint parse_format (fmt : string) : list directive :=
  match fmt with
  | EmptyString => []
  | String c r =>
      if Ascii.eqb c "%" then
        match r with
        | String k r' =>
            if Ascii.eqb k "d" then D_d :: parse_format r'
            else if Ascii.eqb k "f" then D_f :: parse_format r'
            else if isdigit k then
              match r' with
              | String _ r'' => D_s (N.to_nat (N_of_ascii k) - 48) :: parse_format r''
              | EmptyString => []
              end
            else []
        | EmptyString => []
        end
      else if isspace c then D_space :: parse_format r
      else D_char c :: parse_format r
  end.

(** The conversions that [sscanf] performs, in order; it stops at the first
    directive that fails.  The return value of [sscanf] is the length of
    this list, or [EOF] when the input ends before the first conversion: the
    source compares it with the full count only, so that both behave alike. *)
Fixpoint run_directives (ds : list directive) (input : string) : list scanned :=
  match ds with
  | [] => []
  | D_space :: ds' => run_directives ds' (skip_space input)
  | D_char c :: ds' =>
      match input with
      | String c' r => if Ascii.eqb c c' then run_directives ds' r else []
      | EmptyString => []
      end
  | D_d :: ds' =>
      match scan_d input with
      | Some (z, r) => S_int z :: run_directives ds' r
      | None => []
      end
  | D_f :: ds' =>
      match scan_f input with
      | Some (x, r) => S_float x :: run_directives ds' r
      | None => []
      end
  | D_s w :: ds' =>
      match scan_s w input with
      | Some (t, r) => S_str t :: run_directives ds' r
      | None => []
      end
  end.

Definition sscanf (line : string) (fmt : string) : list scanned :=
  run_directives (parse_format fmt) (c_str line).

Definition numargs_of (l : list scanned) : Z := len l.

(* ===================================================================== *)
(** ** TriangleSoup::readOBJ *)
(* ===================================================================== *)

(** What is written to [std::cerr], by message. *)
Inductive diagnostic : Type :=
  | File_not_found (filename : string)
  | Malformed_vertex (n : Z)
  | Malformed_normal (n : Z)
  | Malformed_texcoord (n : Z)
  | Malformed_face (n : Z)
  | Mesh_read_error.

(** [sscanf(line, "%2s ", tag)]: [tag] keeps its content when nothing is
    converted. *)
Definition scan_tag (line : string) (tag : option string) : option string :=
  match sscanf line "%2s " with
  | S_str t :: _ => Some t
  | _ => tag
  end.

(** The first loop: [tag] is not initialised before the first line
    ([None]), and keeps the tag of an earlier line when a line has none. *)
Record counts : Type := mkCounts {
  c_tag : option string;
  numverts : Z;
  numnormals : Z;
  numtexcoords : Z;
  numfaces : Z
}.

Definition count_line (line : string) (c : counts) : outcome counts :=
  match scan_tag line (c_tag c) with
  | None => Undefined IndeterminateValue       (* strcmp on the uninitialised tag *)
  | Some t =>
      let tag := Some t in
      if String.eqb t "v" then
        n ←int numverts c +! 1;
        Ok (mkCounts tag n (numnormals c) (numtexcoords c) (numfaces c))
      else if String.eqb t "vn" then
        n ←int numnormals c +! 1;
        Ok (mkCounts tag (numverts c) n (numtexcoords c) (numfaces c))
      else if String.eqb t "vt" then
        n ←int numtexcoords c +! 1;
        Ok (mkCounts tag (numverts c) (numnormals c) n (numfaces c))
      else if String.eqb t "f" then
        n ←int numfaces c +! 1;
        Ok (mkCounts tag (numverts c) (numnormals c) (numtexcoords c) n)
      else Ok (mkCounts tag (numverts c) (numnormals c) (numtexcoords c) (numfaces c))
  end.

Fixpoint first_pass (lines : list string) (c : counts) : outcome counts :=
  match lines with
  | [] => Ok c
  | l :: ls => c' ← count_line l c; first_pass ls c'
  end.

(** The locals and members that the second loop updates. *)
Record reader : Type := mkReader {
  verts : list GLfloat;
  normals : list GLfloat;
  texcoords : list GLfloat;
  r_vertexarray : list GLfloat;
  r_indexarray : list Z;
  i_v : Z;
  i_n : Z;
  i_t : Z;
  i_f : Z;
  readerror : Z;
  cerr : list diagnostic
}.

(** [&v[i]] as an argument of [sscanf]: the element must exist. *)
Definition vec_addr {A : Type} (id : array_id) (v : list A) (i : outcome Z) : outcome Z :=
  k ← i;
  if decide (0 <= k < len v) then Ok k else Undefined (OutOfBounds id Store).

(** [sscanf] stores each converted value through the matching pointer. *)
Fixpoint assign_floats (v : list GLfloat) (ptrs : list Z) (args : list scanned)
  : list GLfloat :=
  match ptrs, args with
  | p :: ptrs', S_float x :: args' => assign_floats (<[Z.to_nat p := x]> v) ptrs' args'
  | _, _ => v
  end.

(** A matched number stored into an [int]. *)
Definition int_of_scanned (x : scanned) : outcome Z :=
  match x with
  | S_int z => if in_int z then Ok z else Undefined ConversionOverflow
  | _ => Ok 0
  end.

Fixpoint ints_of_scanned (args : list scanned) : outcome (list Z) :=
  match args with
  | [] => Ok []
  | x :: args' => z ← int_of_scanned x; zs ← ints_of_scanned args'; Ok (z :: zs)
  end.

(** [vertexarray_[di] = src[si]] *)
Definition copy_elem (id : array_id) (src : list GLfloat) (si : outcome Z)
    (va : list GLfloat) (di : outcome Z) : outcome (list GLfloat) :=
  x ← vec_load id src si; vec_store A_vertexarray va di x.

Definition parse_v (line : string) (r : reader) : outcome reader :=
  p0 ←int vec_addr A_verts (verts r) (3 *! i_v r);
  p1 ←int vec_addr A_verts (verts r) (3 *! i_v r +! 1);
  p2 ←int vec_addr A_verts (verts r) (3 *! i_v r +! 2);
  let args := sscanf line "v %f %f %f" in
  let verts' := assign_floats (verts r) [p0; p1; p2] args in
  if decide (numargs_of args ≠ 3) then
    n ←int i_v r +! 1;
    Ok (mkReader verts' (normals r) (texcoords r) (r_vertexarray r) (r_indexarray r)
          (i_v r) (i_n r) (i_t r) (i_f r) 1 (cerr r ++ [Malformed_vertex n]))
  else
    n ←int i_v r +! 1;
    Ok (mkReader verts' (normals r) (texcoords r) (r_vertexarray r) (r_indexarray r)
          n (i_n r) (i_t r) (i_f r) (readerror r) (cerr r)).

Definition parse_vn (line : string) (r : reader) : outcome reader :=
  p0 ←int vec_addr A_normals (normals r) (3 *! i_n r);
  p1 ←int vec_addr A_normals (normals r) (3 *! i_n r +! 1);
  p2 ←int vec_addr A_normals (normals r) (3 *! i_n r +! 2);
  let args := sscanf line "vn %f %f %f" in
  let normals' := assign_floats (normals r) [p0; p1; p2] args in
  if decide (numargs_of args ≠ 3) then
    n ←int i_n r +! 1;
    Ok (mkReader (verts r) normals' (texcoords r) (r_vertexarray r) (r_indexarray r)
          (i_v r) (i_n r) (i_t r) (i_f r) 1 (cerr r ++ [Malformed_normal n]))
  else
    n ←int i_n r +! 1;
    Ok (mkReader (verts r) normals' (texcoords r) (r_vertexarray r) (r_indexarray r)
          (i_v r) n (i_t r) (i_f r) (readerror r) (cerr r)).

Definition parse_vt (line : string) (r : reader) : outcome reader :=
  p0 ←int vec_addr A_texcoords (texcoords r) (2 *! i_t r);
  p1 ←int vec_addr A_texcoords (texcoords r) (2 *! i_t r +! 1);
  let args := sscanf line "vt %f %f" in
  let texcoords' := assign_floats (texcoords r) [p0; p1] args in
  if decide (numargs_of args ≠ 2) then
    n ←int i_t r +! 1;
    Ok (mkReader (verts r) (normals r) texcoords' (r_vertexarray r) (r_indexarray r)
          (i_v r) (i_n r) (i_t r) (i_f r) 1 (cerr r ++ [Malformed_texcoord n]))
  else
    n ←int i_t r +! 1;
    Ok (mkReader (verts r) (normals r) texcoords' (r_vertexarray r) (r_indexarray r)
          (i_v r) (i_n r) n (i_f r) (readerror r) (cerr r)).

(** The body of the face branch once nine numbers were converted. *)
Definition gather_face (r : reader) (v1 t1 n1 v2 t2 n2 v3 t3 n3 : Z) : outcome reader :=
  v1 ←int v1 -! 1;
  v2 ←int v2 -! 1;
  v3 ←int v3 -! 1;
  n1 ←int n1 -! 1;
  n2 ←int n2 -! 1;
  n3 ←int n3 -! 1;
  t1 ←int t1 -! 1;
  t2 ←int t2 -! 1;
  t3 ←int t3 -! 1;
  currentv ←int 8 *! 3 *! i_f r;
  let vs := verts r in
  let ns := normals r in
  let ts := texcoords r in
  va ← copy_elem A_verts vs (3 *! v1) (r_vertexarray r) currentv;
  va ← copy_elem A_verts vs (3 *! v1 +! 1) va (currentv +! 1);
  va ← copy_elem A_verts vs (3 *! v1 +! 2) va (currentv +! 2);
  va ← copy_elem A_normals ns (3 *! n1) va (currentv +! 3);
  va ← copy_elem A_normals ns (3 *! n1 +! 1) va (currentv +! 4);
  va ← copy_elem A_normals ns (3 *! n1 +! 2) va (currentv +! 5);
  va ← copy_elem A_texcoords ts (2 *! t1) va (currentv +! 6);
  va ← copy_elem A_texcoords ts (2 *! t1 +! 1) va (currentv +! 7);
  va ← copy_elem A_verts vs (3 *! v2) va (currentv +! 8);
  va ← copy_elem A_verts vs (3 *! v2 +! 1) va (currentv +! 9);
  va ← copy_elem A_verts vs (3 *! v2 +! 2) va (currentv +! 10);
  va ← copy_elem A_normals ns (3 *! n2) va (currentv +! 11);
  va ← copy_elem A_normals ns (3 *! n2 +! 1) va (currentv +! 12);
  va ← copy_elem A_normals ns (3 *! n2 +! 2) va (currentv +! 13);
  va ← copy_elem A_texcoords ts (2 *! t2) va (currentv +! 14);
  va ← copy_elem A_texcoords ts (2 *! t2 +! 1) va (currentv +! 15);
  va ← copy_elem A_verts vs (3 *! v3) va (currentv +! 16);
  va ← copy_elem A_verts vs (3 *! v3 +! 1) va (currentv +! 17);
  va ← copy_elem A_verts vs (3 *! v3 +! 2) va (currentv +! 18);
  va ← copy_elem A_normals ns (3 *! n3) va (currentv +! 19);
  va ← copy_elem A_normals ns (3 *! n3 +! 1) va (currentv +! 20);
  va ← copy_elem A_normals ns (3 *! n3 +! 2) va (currentv +! 21);
  va ← copy_elem A_texcoords ts (2 *! t3) va (currentv +! 22);
  va ← copy_elem A_texcoords ts (2 *! t3 +! 1) va (currentv +! 23);
  ia ← store_index (r_indexarray r) (3 *! i_f r) (3 *! i_f r);
  ia ← store_index ia (3 *! i_f r +! 1) (3 *! i_f r +! 1);
  ia ← store_index ia (3 *! i_f r +! 2) (3 *! i_f r +! 2);
  n ←int i_f r +! 1;
  Ok (mkReader vs ns ts va ia (i_v r) (i_n r) (i_t r) n (readerror r) (cerr r)).

Definition parse_f (line : string) (r : reader) : outcome reader :=
  let args := sscanf line "f %d/%d/%d %d/%d/%d %d/%d/%d" in
  ints ← ints_of_scanned args;
  match ints with
  | [v1; t1; n1; v2; t2; n2; v3; t3; n3] => gather_face r v1 t1 n1 v2 t2 n2 v3 t3 n3
  | _ =>                                      (* numargs != 9 *)
      n ←int i_f r +! 1;
      Ok (mkReader (verts r) (normals r) (texcoords r) (r_vertexarray r) (r_indexarray r)
            (i_v r) (i_n r) (i_t r) (i_f r) 1 (cerr r ++ [Malformed_face n]))
  end.

(** One iteration of the second loop; [tag[0] = '\0'] comes first. *)
Definition parse_line (line : string) (r : reader) : outcome reader :=
  match scan_tag line (Some EmptyString) with
  | None => Ok r
  | Some tag =>
      if String.eqb tag "v" then parse_v line r
      else if String.eqb tag "vn" then parse_vn line r
      else if String.eqb tag "vt" then parse_vt line r
      else if String.eqb tag "f" then parse_f line r
      else Ok r
  end.

(** The second loop; a read error leaves it ([break]). *)
Fixpoint second_pass (lines : list string) (r : reader) : outcome reader :=
  match lines with
  | [] => Ok r
  | l :: ls =>
      r' ← parse_line l r;
      if decide (readerror r' ≠ 0) then Ok r' else second_pass ls r'
  end.

(** What is written to [std::cout]: the line "loadObj("filename"): found
    ... vertices, ... normals, ... texcoords, ... faces." that follows the
    first loop. *)
Inductive report : Type :=
  | Found (filename : string) (numverts numnormals numtexcoords numfaces : Z).

(** [TriangleSoup::readOBJ(filename)]; [fs] gives the text of the files
    that [fopen] can open.  The result is the object, what was written to
    [std::cerr] and what was written to [std::cout]. *)
Definition readOBJ (fs : gmap string string) (filename : string) (s : TriangleSoup)
  : outcome (TriangleSoup * list diagnostic * list report) :=
  match fs !! filename with
  | None => Ok (s, [File_not_found filename], [])
  | Some text =>
      let lines := file_lines text in
      c ← first_pass lines (mkCounts None 0 0 0 0);
      let cout :=
        [Found filename (numverts c) (numnormals c) (numtexcoords c) (numfaces c)] in
      vs ← vec_resize [] (3 *! numverts c) f0;
      ns ← vec_resize [] (3 *! numnormals c) f0;
      ts ← vec_resize [] (2 *! numtexcoords c) f0;
      va ← vec_resize (vertexarray_ s) (8 *! 3 *! numfaces c) f0;
      ia ← vec_resize (indexarray_ s) (3 *! numfaces c) 0;
      nverts ←int 3 *! numfaces c;
      let ntris := numfaces c in
      r ← second_pass lines (mkReader vs ns ts va ia 0 0 0 0 0 []);
      if decide (readerror r ≠ 0) then
        Ok (clean (mkSoup nverts ntris (r_vertexarray r) (r_indexarray r)),
            cerr r ++ [Mesh_read_error], cout)
      else
        Ok (mkSoup nverts ntris (r_vertexarray r) (r_indexarray r), cerr r, cout)
  end.

(* ===================================================================== *)
(** ** Texture::loadUncompressedTGA *)
(* ===================================================================== *)

Module Texture.

#[global] Instance byte_eq_decision : EqDecision byte := Byte.byte_eq_dec.
#[global] Instance byte_inhabited : Inhabited byte := populate x00.

(** The value of a [GLubyte]. *)
Definition u8 (b : byte) : Z := Z.of_N (Byte.to_N b).

(** [GLuint] multiplication. *)
Definition umul (a b : Z) : Z := (a * b) mod 2 ^ 32.

Definition GL_RGB : Z := 6407.     (* 0x1907 *)
Definition GL_RGBA : Z := 6408.    (* 0x1908 *)

Record ImageData : Type := mkImage {
  width : Z;             (* GLuint *)
  height : Z;            (* GLuint *)
  type : Z;              (* GLuint: GL_RGB (3 bytes per pixel) or GL_RGBA (4 bytes) *)
  data : list byte       (* std::vector<GLubyte> *)
}.

(** [return {};] *)
Definition empty_image : ImageData := mkImage 0 0 0 [].

(** Bytes per pixel that go with [type], as the header of the class says. *)
Definition channels (img : ImageData) : Z :=
  if decide (type img = GL_RGB) then 3
  else if decide (type img = GL_RGBA) then 4
  else 0.

(** What is written to [std::cerr], by message. *)
Inductive diagnostic : Type :=
  | Could_not_open (filename : string)
  | Could_not_read_file_header (filename : string)
  | RLE_not_supported (filename : string)
  | Unsupported_format (filename : string)
  | Could_not_read_TGA_header (filename : string)
  | Invalid_dimensions (filename : string)
  | Unsupported_bpp (bpp : Z) (filename : string)
  | Could_not_read_image_data (filename : string).

(** What is written to [std::cout]: the one line "Texture type is GL_RGB
    ('filename')", which both cases of the [switch] write, the case of 32
    bits per pixel with the same text as the case of 24. *)
Inductive status : Type :=
  | Texture_type_is_GL_RGB (filename : string).

Definition uncompressedTGA : list byte :=
  [x00; x00; x02; x00; x00; x00; x00; x00; x00; x00; x00; x00].
Definition compressedTGA : list byte :=
  [x00; x00; x0a; x00; x00; x00; x00; x00; x00; x00; x00; x00].

(** [in.read(buf, n)] on the unread bytes: what was extracted ([gcount()]
    is its length; the stream fails when it is shorter than [n]) and what
    is left. *)
Definition read (n : Z) (s : list byte) : list byte * list byte :=
  (take (Z.to_nat n) s, drop (Z.to_nat n) s).

(** [std::swap(d[i], d[j])] *)
Definition swap (d : list byte) (i j : Z) : outcome (list byte) :=
  a ← vec_load A_image_data d i;
  b ← vec_load A_image_data d j;
  d ← vec_store A_image_data d i b;
  vec_store A_image_data d j a.

(** [for (size_t c = lo; c < hi; c += step) body], for [step > 0]: the body
    runs for [c = lo, lo + step, ...] below [hi]. *)
Fixpoint stride_loop {S : Type} (n : nat) (c step : Z) (body : Z -> S -> outcome S) (s : S)
  : outcome S :=
  match n with
  | O => Ok s
  | S n' => s' ← body c s; stride_loop n' (c + step) step body s'
  end.

Definition for_stride {S : Type} (lo hi step : Z) (body : Z -> S -> outcome S) (s : S)
  : outcome S :=
  stride_loop (Z.to_nat ((hi - lo + step - 1) / step)) lo step body s.

(** [Texture::loadUncompressedTGA(filename)]; [fs] gives the bytes of the
    files that can be opened.  The result is the image, what was written
    to [std::cerr] and what was written to [std::cout]. *)
Definition loadUncompressedTGA (fs : gmap string (list byte)) (filename : string)
  : outcome (ImageData * list diagnostic * list status) :=
  match fs !! filename with
  | None => Ok (empty_image, [Could_not_open filename], [])
  | Some bytes =>
      let (tgaheader, rest) := read 12 bytes in
      if decide (len tgaheader ≠ 12) then
        Ok (empty_image, [Could_not_read_file_header filename], [])
      else if decide (tgaheader = compressedTGA) then
        Ok (empty_image, [RLE_not_supported filename], [])
      else if decide (tgaheader ≠ uncompressedTGA) then
        Ok (empty_image, [Unsupported_format filename], [])
      else
        let (header, rest) := read 6 rest in
        if decide (len header ≠ 6) then
          Ok (empty_image, [Could_not_read_TGA_header filename], [])
        else
          let width := to_GLuint (u8 (header !!! 1%nat) * 256 + u8 (header !!! 0%nat)) in
          let height := to_GLuint (u8 (header !!! 3%nat) * 256 + u8 (header !!! 2%nat)) in
          if decide (width <= 0 ∨ height <= 0) then
            Ok (empty_image, [Invalid_dimensions filename], [])
          else
            let bpp := u8 (header !!! 4%nat) in
            let bytesPerPixel := bpp / 8 in
            let imageSize := umul (umul bytesPerPixel width) height in
            if decide (bpp = 24 ∨ bpp = 32) then
              let type := if decide (bpp = 24) then GL_RGB else GL_RGBA in
              let cout := [Texture_type_is_GL_RGB filename] in    (* both cases *)
              let data := replicate (Z.to_nat imageSize) x00 in    (* resize *)
              let (got, rest) := read imageSize rest in
              let data := got ++ drop (length got) data in
              if decide (len got ≠ imageSize) then
                Ok (empty_image, [Could_not_read_image_data filename], cout)
              else
                data ← for_stride 0 imageSize bytesPerPixel
                         (fun cswap d => swap d cswap (cswap + 2)) data;
                Ok (mkImage width height type data, [], cout)
            else
              Ok (empty_image, [Unsupported_bpp bpp filename], [])
  end.

End Texture.

(* ===================================================================== *)
(** ** Lines of a model file, as the claims speak of them *)
(* ===================================================================== *)

(** The tag that the second loop sees on a line. *)
Definition tag_of (line : string) : string :=
  match scan_tag line (Some EmptyString) with
  | Some t => t
  | None => EmptyString
  end.

Definition recognized (t : string) : Prop :=
  t = "v"%string ∨ t = "vn"%string ∨ t = "vt"%string ∨ t = "f"%string.

(** For a line with a recognized tag: what [sscanf] converts with the
    format of the tag, and the number of fields the code requires. *)
Definition conversions (line : string) : option (list scanned * Z) :=
  let t := tag_of line in
  if String.eqb t "v" then Some (sscanf line "v %f %f %f", 3)
  else if String.eqb t "vn" then Some (sscanf line "vn %f %f %f", 3)
  else if String.eqb t "vt" then Some (sscanf line "vt %f %f", 2)
  else if String.eqb t "f" then Some (sscanf line "f %d/%d/%d %d/%d/%d %d/%d/%d", 9)
  else None.

(** Every number matched by [%d] is an [int]. *)
Definition ints_fit (args : list scanned) : Prop :=
  Forall (fun x => match x with S_int z => INT_MIN <= z <= INT_MAX | _ => True end) args.

(** A recognized line on which the number of converted fields is not the
    required one. *)
Definition malformed (line : string) : Prop :=
  ∃ args need,
    conversions line = Some (args, need) ∧ numargs_of args ≠ need ∧ ints_fit args.

(** Nine converted indices, each within the counts of the first loop. *)
Definition face_in_range (c : counts) (args : list scanned) : Prop :=
  match args with
  | [S_int v1; S_int t1; S_int n1; S_int v2; S_int t2; S_int n2;
     S_int v3; S_int t3; S_int n3] =>
      (1 <= v1 <= numverts c ∧ 1 <= v2 <= numverts c ∧ 1 <= v3 <= numverts c) ∧
      (1 <= t1 <= numtexcoords c ∧ 1 <= t2 <= numtexcoords c ∧ 1 <= t3 <= numtexcoords c) ∧
      (1 <= n1 <= numnormals c ∧ 1 <= n2 <= numnormals c ∧ 1 <= n3 <= numnormals c)
  | _ => False
  end.

(** A face line on which nine indices are converted has them within the
    counts. *)
Definition face_indices_in_range (c : counts) (line : string) : Prop :=
  tag_of line = "f"%string ->
  numargs_of (sscanf line "f %d/%d/%d %d/%d/%d %d/%d/%d") = 9 ->
  face_in_range c (sscanf line "f %d/%d/%d %d/%d/%d %d/%d/%d").

(** A line that the second loop reads without a diagnostic: its tag is not
    recognized, or all its fields are converted and, for a face, the nine
    indices are within the counts. *)
Definition well_formed (c : counts) (line : string) : Prop :=
  match conversions line with
  | None => True
  | Some (args, need) =>
      numargs_of args = need ∧
      (tag_of line = "f"%string -> face_in_range c args)
  end.

(* ===================================================================== *)
(** ** The mesh invariant *)
(* ===================================================================== *)

(** Three indices per triangle and eight floats per vertex. *)
Definition mesh_wf (s : TriangleSoup) : Prop :=
  len (indexarray_ s) = 3 * ntris_ s ∧ len (vertexarray_ s) = 8 * nverts_ s.

Definition mesh_empty (s : TriangleSoup) : Prop :=
  nverts_ s = 0 ∧ ntris_ s = 0 ∧ vertexarray_ s = [] ∧ indexarray_ s = [].

(** The objects that the public interface of the class can produce. *)
Inductive reachable : TriangleSoup -> Prop :=
  | reach_new : reachable TriangleSoup_new
  | reach_clean s : reachable s -> reachable (clean s)
  | reach_createTriangle s s' :
      reachable s -> createTriangle s = Ok s' -> reachable s'
  | reach_createBox x y z s s' :
      reachable s -> createBox x y z s = Ok s' -> reachable s'
  | reach_createSphere radius segments s s' :
      reachable s -> createSphere radius segments s = Ok s' -> reachable s'
  | reach_readOBJ fs filename s s' log out :
      reachable s -> readOBJ fs filename s = Ok (s', log, out) -> reachable s'.

(* ===================================================================== *)
(** ** Predicates of the proofs *)
(* ===================================================================== *)

(** The two facts that the index loops maintain. *)
Definition indices_below (bound size : Z) (ia : list Z) : Prop :=
  len ia = size ∧ Forall (fun x => 0 <= x < bound) ia.

(** The closed form of the vertex count. *)
Definition sphere_nverts (segments : Z) : Z :=
  let vsegs := Z.max segments 2 in
  let hsegs := 2 * vsegs in
  1 + (vsegs - 1) * (hsegs + 1) + 1.

(** The closed form of the triangle count. *)
Definition sphere_ntris (segments : Z) : Z :=
  let vsegs := Z.max segments 2 in
  let hsegs := 2 * vsegs in
  hsegs + (vsegs - 2) * hsegs * 2 + hsegs.

(** The five arrays have the sizes they had. *)
Definition same_sizes (r r' : reader) : Prop :=
  len (verts r') = len (verts r) ∧
  len (normals r') = len (normals r) ∧
  len (texcoords r') = len (texcoords r) ∧
  len (r_vertexarray r') = len (r_vertexarray r) ∧
  len (r_indexarray r') = len (r_indexarray r).

(** 1 when the line carries the tag [t], else 0. *)
Definition bump (t line : string) : Z := if String.eqb (tag_of line) t then 1 else 0.

(** The number of lines that carry the tag [t]. *)
Fixpoint count_tag (t : string) (lines : list string) : Z :=
  match lines with
  | [] => 0
  | l :: ls => bump t l + count_tag t ls
  end.

(** The state of the second loop fits the arrays sized by the first. *)
Record reader_inv (c : counts) (r : reader) : Prop := mkReaderInv {
  inv_verts : len (verts r) = 3 * numverts c;
  inv_normals : len (normals r) = 3 * numnormals c;
  inv_texcoords : len (texcoords r) = 2 * numtexcoords c;
  inv_vertexarray : len (r_vertexarray r) = 24 * numfaces c;
  inv_indexarray : len (r_indexarray r) = 3 * numfaces c;
  inv_i_v : 0 <= i_v r;
  inv_i_n : 0 <= i_n r;
  inv_i_t : 0 <= i_t r;
  inv_i_f : 0 <= i_f r
}.

(** The sizes that [readOBJ] asks for are [int] values. *)
Definition counts_fit (c : counts) : Prop :=
  3 * numverts c <= INT_MAX ∧ 3 * numnormals c <= INT_MAX ∧
  2 * numtexcoords c <= INT_MAX ∧ 24 * numfaces c <= INT_MAX.

(** The element that the line will fill exists. *)
Definition room (c : counts) (r : reader) (line : string) : Prop :=
  i_v r + bump "v" line <= numverts c ∧
  i_n r + bump "vn" line <= numnormals c ∧
  i_t r + bump "vt" line <= numtexcoords c ∧
  i_f r + bump "f" line <= numfaces c.

(** What a line without error changes besides the arrays. *)
Definition advanced (line : string) (r r' : reader) : Prop :=
  i_v r' = i_v r + bump "v" line ∧
  i_n r' = i_n r + bump "vn" line ∧
  i_t r' = i_t r + bump "vt" line ∧
  i_f r' = i_f r + bump "f" line ∧
  readerror r' = readerror r ∧
  cerr r' = cerr r.

(** The lines still to read fit the arrays. *)
Definition slack (c : counts) (r : reader) (lines : list string) : Prop :=
  i_v r + count_tag "v" lines <= numverts c ∧
  i_n r + count_tag "vn" lines <= numnormals c ∧
  i_t r + count_tag "vt" lines <= numtexcoords c ∧
  i_f r + count_tag "f" lines <= numfaces c.

(** The counters before the first loop. *)
Definition counts0 : counts := mkCounts None 0 0 0 0.

(** The sizes of the temporary arrays are those of the first loop. *)
Definition temps_sized (c : counts) (r : reader) : Prop :=
  len (verts r) = 3 * numverts c ∧
  len (normals r) = 3 * numnormals c ∧
  len (texcoords r) = 2 * numtexcoords c.

(** The call ends in a read outside an array. *)
Definition load_fault {A : Type} (o : outcome A) : Prop :=
  ∃ a, o = Undefined (OutOfBounds a Load).

(** The model file of one vertex whose face names a second one. *)
Definition obj_face_out_of_range : string :=
  "v 0 0 0
vn 0 0 1
vt 0 0
f 1/1/1 2/1/1 1/1/1
".

(** The size that the decoder computes for a 32-bit image. *)
Definition rgba_image_size (w h : Z) : Z := (4 * w * h) mod 2 ^ 32.

(** The white-space separated words of a line. *)
Fixpoint words_from (cur : string) (s : string) : list string :=
  match s with
  | EmptyString => match cur with EmptyString => [] | _ => [cur] end
  | String c s' =>
      if isspace c then
        match cur with
        | EmptyString => words_from EmptyString s'
        | _ => cur :: words_from EmptyString s'
        end
      else words_from (cur ++ String c EmptyString) s'
  end.

Definition words (line : string) : list string := words_from EmptyString (c_str line).

(** The number of fields that follow the tag of a line. *)
Definition field_count (line : string) : Z := len (words line) - 1.

(** The number of conversions that a list of directives asks for. *)
Fixpoint conversion_count (ds : list directive) : nat :=
  match ds with
  | [] => 0
  | (D_d | D_f | D_s _) :: ds' => Datatypes.S (conversion_count ds')
  | _ :: ds' => conversion_count ds'
  end.

(** A square given as one face of four corners. *)
Definition obj_quad : string :=
  "v 0 0 0
v 1 0 0
v 1 1 0
v 0 1 0
vn 0 0 1
vn 0 0 1
vn 0 0 1
vn 0 0 1
vt 0 0
vt 1 0
vt 1 1
vt 0 1
f 1/1/1 2/2/2 3/3/3 4/4/4
".

(** The same file with the first three corners of the face only. *)
Definition obj_quad_as_triangle : string :=
  "v 0 0 0
v 1 0 0
v 1 1 0
v 0 1 0
vn 0 0 1
vn 0 0 1
vn 0 0 1
vn 0 0 1
vt 0 0
vt 1 0
vt 1 1
vt 0 1
f 1/1/1 2/2/2 3/3/3
".

(** A triangle whose first vertex line has a fourth coordinate. *)
Definition obj_extra_coordinate : string :=
  "v 0 0 0 1
v 1 0 0
v 0 1 0
vn 0 0 1
vt 0 0
f 1/1/1 2/1/1 3/1/1
".

(** A triangle whose third vertex line lacks a coordinate, with a comment
    line before it. *)
Definition obj_missing_coordinate : string :=
  "# a triangle
v 0 0 0
v 1 0 0
v 0 1
vn 0 0 1
vt 0 0
f 1/1/1 2/1/1 3/1/1
".

(** A triangle. *)
Definition obj_triangle : string :=
  "v 0 0 0
v 1 0 0
v 0 1 0
vn 0 0 1
vt 0 0
f 1/1/1 2/1/1 3/1/1
".

(* ===================================================================== *)
(** ** Further code: pixel order, printing, texture and shader objects *)
(* ===================================================================== *)

(** What the comment of the swap loop asks for: the BGR byte order of each
    3-byte pixel turned into RGB. *)
Fixpoint bgr_to_rgb (d : list byte) : list byte :=
  match d with
  | b :: g :: r :: rest => r :: g :: b :: bgr_to_rgb rest
  | _ => d
  end.

(** The same for 4-byte pixels: BGRA turned into RGBA. *)
Fixpoint bgra_to_rgba (d : list byte) : list byte :=
  match d with
  | b :: g :: r :: a :: rest => r :: g :: b :: a :: bgra_to_rgba rest
  | _ => d
  end.

(** A line of white space only: [sscanf] finds no token on it. *)
Fixpoint blank (line : string) : bool :=
  match line with
  | EmptyString => true
  | String c line' => isspace c && blank line'
  end.

(** The text of a list of buffers, one after the other. *)
Fixpoint joined (lines : list string) : string :=
  match lines with
  | [] => EmptyString
  | l :: ls => (l ++ joined ls)%string
  end.

(** What [printf] is handed, call by call. *)
Inductive printed : Type :=
  | P_text (text : string)                      (* a format without conversions *)
  | P_vertex (i : Z) (x y z : GLfloat)          (* "%d: %8.2f %8.2f %8.2f\n" *)
  | P_face (i : Z) (a b c : Z)                  (* "%d: %d %d %d\n" *)
  | P_count (label : string) (n : Z)            (* "vertices : %d\n" and the like *)
  | P_extent (label : string) (x : GLfloat).    (* "xmin: %8.2f\n" and the like *)

(** [TriangleSoup::print()] *)
Definition print (s : TriangleSoup) : outcome (list printed) :=
  out ← for_range 0 (nverts_ s) (fun i out =>
    x ← vec_load A_vertexarray (vertexarray_ s) (8 *! i);
    y ← vec_load A_vertexarray (vertexarray_ s) (8 *! i +! 1);
    z ← vec_load A_vertexarray (vertexarray_ s) (8 *! i +! 2);
    Ok (out ++ [P_vertex i x y z])) [P_text "TriangleSoup vertex data:"];
  for_range 0 (ntris_ s) (fun i out =>
    a ← vec_load A_indexarray (indexarray_ s) (3 *! i);
    b ← vec_load A_indexarray (indexarray_ s) (3 *! i +! 1);
    c ← vec_load A_indexarray (indexarray_ s) (3 *! i +! 2);
    Ok (out ++ [P_face i a b c])) (out ++ [P_text "TriangleSoup face index data:"]).

(** The six extents that [printInfo] keeps. *)
Record extents : Type := mkExtents {
  xmin : GLfloat; xmax : GLfloat;
  ymin : GLfloat; ymax : GLfloat;
  zmin : GLfloat; zmax : GLfloat
}.

Section printInfo.

(** [std::min] and [std::max] on [float]. *)
Variables fmin fmax : GLfloat -> GLfloat -> GLfloat.

(** [TriangleSoup::printInfo()] *)
Definition printInfo (s : TriangleSoup) : outcome (list printed) :=
  x0 ← vec_load A_vertexarray (vertexarray_ s) 0;
  y0 ← vec_load A_vertexarray (vertexarray_ s) 1;
  z0 ← vec_load A_vertexarray (vertexarray_ s) 2;
  e ← for_range 1 (nverts_ s) (fun i e =>
    x ← vec_load A_vertexarray (vertexarray_ s) (8 *! i);
    y ← vec_load A_vertexarray (vertexarray_ s) (8 *! i +! 1);
    z ← vec_load A_vertexarray (vertexarray_ s) (8 *! i +! 2);
    Ok (mkExtents (fmin (xmin e) x) (fmax (xmax e) x)
                  (fmin (ymin e) y) (fmax (ymax e) y)
                  (fmin (zmin e) z) (fmax (zmax e) z)))
    (mkExtents x0 x0 y0 y0 z0 z0);
  Ok [ P_text "TriangleSoup information:";
       P_count "vertices" (nverts_ s); P_count "triangles" (ntris_ s);
       P_extent "xmin" (xmin e); P_extent "xmax" (xmax e);
       P_extent "ymin" (ymin e); P_extent "ymax" (ymax e);
       P_extent "zmin" (zmin e); P_extent "zmax" (zmax e) ].

End printInfo.

(** The row that [print] writes for vertex [i]: the coordinates, the first
    three of the eight floats of the vertex. *)
Definition vertex_row (s : TriangleSoup) (i : Z) : printed :=
  P_vertex i (nth (Z.to_nat (8 * i)) (vertexarray_ s) f0)
             (nth (Z.to_nat (8 * i + 1)) (vertexarray_ s) f0)
             (nth (Z.to_nat (8 * i + 2)) (vertexarray_ s) f0).

(** The row that [print] writes for triangle [i]: its three indices. *)
Definition face_row (s : TriangleSoup) (i : Z) : printed :=
  P_face i (nth (Z.to_nat (3 * i)) (indexarray_ s) 0)
           (nth (Z.to_nat (3 * i + 1)) (indexarray_ s) 0)
           (nth (Z.to_nat (3 * i + 2)) (indexarray_ s) 0).

(** The sizes of the two arrays are [int] values. *)
Definition mesh_fits (s : TriangleSoup) : Prop :=
  0 <= nverts_ s ∧ 8 * nverts_ s <= INT_MAX ∧ 0 <= ntris_ s ∧ 3 * ntris_ s <= INT_MAX.

(** The two vectors hold the same first [n] elements. *)
Definition same_upto {A : Type} (n : Z) (l1 l2 : list A) : Prop :=
  take (Z.to_nat n) l1 = take (Z.to_nat n) l2.

(** Two states of the second loop that differ at most in what the two
    arrays of the object hold behind the faces read so far. *)
Record agree (r1 r2 : reader) : Prop := mkAgree {
  ag_verts : verts r1 = verts r2;
  ag_normals : normals r1 = normals r2;
  ag_texcoords : texcoords r1 = texcoords r2;
  ag_i_v : i_v r1 = i_v r2;
  ag_i_n : i_n r1 = i_n r2;
  ag_i_t : i_t r1 = i_t r2;
  ag_i_f : i_f r1 = i_f r2;
  ag_readerror : readerror r1 = readerror r2;
  ag_cerr : cerr r1 = cerr r2;
  ag_vertexarray : same_upto (24 * i_f r1) (r_vertexarray r1) (r_vertexarray r2)
}.

(** The indices of the faces read so far count up from 0. *)
Definition indexed (r : reader) : Prop :=
  0 <= i_f r ∧ take (Z.to_nat (3 * i_f r)) (r_indexarray r) = seqZ 0 (3 * i_f r).

(* ===================================================================== *)
(** ** Texture::createTexture *)
(* ===================================================================== *)

Module TextureObject.

Inductive gl_pname : Type :=
  | GL_TEXTURE_MIN_FILTER | GL_TEXTURE_MAG_FILTER | GL_TEXTURE_WRAP_S | GL_TEXTURE_WRAP_T.

Inductive gl_param : Type :=
  | GL_LINEAR_MIPMAP_LINEAR | GL_LINEAR | GL_REPEAT.

(** The calls to OpenGL, all with the target [GL_TEXTURE_2D]. *)
Inductive gl_call : Type :=
  | glGenTextures (name : Z)                  (* the name written to [textureID_] *)
  | glBindTexture (texture : Z)
  | glTexParameteri (pname : gl_pname) (param : gl_param)
  | glTexImage2D (internalformat width height format : Z) (pixels : list byte)
  | glEnable
  | glGenerateMipmap.

(** The members of a [Texture]. *)
Record Texture : Type := mkTexture {
  textureID_ : Z;                             (* GLuint *)
  image_ : Texture.ImageData
}.

(** [Texture::id()], [width()], [height()] and [type()] *)
Definition id (t : Texture) : Z := textureID_ t.
Definition width (t : Texture) : Z := Texture.width (image_ t).
Definition height (t : Texture) : Z := Texture.height (image_ t).
Definition type (t : Texture) : Z := Texture.type (image_ t).

(** [Texture::createTexture(filename)]; [name] is the texture name that
    [glGenTextures] hands out when it is called.  The result is the object,
    the calls made and what was written to [std::cerr] and to [std::cout]. *)
Definition createTexture (fs : gmap string (list byte)) (name : Z) (filename : string)
    (t : Texture)
  : outcome (Texture * list gl_call * list Texture.diagnostic * list Texture.status) :=
  r ← Texture.loadUncompressedTGA fs filename;
  let image := fst (fst r) in
  let cerr := snd (fst r) in
  let cout := snd r in
  if decide (Texture.data image = []) then
    Ok (mkTexture (textureID_ t) image, [], cerr, cout)
  else
    let gen := if decide (textureID_ t = 0) then [glGenTextures name] else [] in
    let textureID := if decide (textureID_ t = 0) then name else textureID_ t in
    Ok (mkTexture textureID
          (Texture.mkImage (Texture.width image) (Texture.height image)
             (Texture.type image) []),
        gen ++ [ glBindTexture textureID;
                 glTexParameteri GL_TEXTURE_MIN_FILTER GL_LINEAR_MIPMAP_LINEAR;
                 glTexParameteri GL_TEXTURE_MAG_FILTER GL_LINEAR;
                 glTexParameteri GL_TEXTURE_WRAP_S GL_REPEAT;
                 glTexParameteri GL_TEXTURE_WRAP_T GL_REPEAT;
                 glTexImage2D Texture.GL_RGBA (Texture.width image) (Texture.height image)
                   (Texture.type image) (Texture.data image);
                 glEnable;
                 glGenerateMipmap ],
        cerr, cout).

(** The calls that upload an image to the texture [texture]. *)
Definition upload (texture width height format : Z) (pixels : list byte) : list gl_call :=
  [ glBindTexture texture;
    glTexParameteri GL_TEXTURE_MIN_FILTER GL_LINEAR_MIPMAP_LINEAR;
    glTexParameteri GL_TEXTURE_MAG_FILTER GL_LINEAR;
    glTexParameteri GL_TEXTURE_WRAP_S GL_REPEAT;
    glTexParameteri GL_TEXTURE_WRAP_T GL_REPEAT;
    glTexImage2D Texture.GL_RGBA width height format pixels;
    glEnable;
    glGenerateMipmap ].

End TextureObject.

(** The two poles of the sphere: position, normal and texture coordinates. *)
Definition sphere_top (radius : GLfloat) : list GLfloat :=
  [f0; f0; radius; f0; f0; f1; fhalf; f1].

Definition sphere_bottom (radius : GLfloat) : list GLfloat :=
  [f0; f0; FNeg radius; f0; f0; FNeg f1; fhalf; f0].

(** The vertex array starts with the top pole and ends with the bottom
    pole. *)
Definition has_poles (radius : GLfloat) (nverts : Z) (va : list GLfloat) : Prop :=
  take 8 va = sphere_top radius ∧
  drop (Z.to_nat ((nverts - 1) * 8)) va = sphere_bottom radius ∧
  len va = nverts * 8.

(** The pixel bytes of an image whose size wraps: 32768 pixels of four
    bytes each. *)
Definition wrapped_pixels : list byte :=
  concat (replicate (Z.to_nat 32768) [x01; x02; x03; x04]).

(* ===================================================================== *)
(** * Properties *)
(* ===================================================================== *)

(** ** Outcomes and int arithmetic *)

Section outcome_facts.
Context {A B : Type}.

Lemma bind_Ok_inv (m : outcome A) (k : A -> outcome B) (r : B) :
  m ≫= k = Ok r -> ∃ a, m = Ok a ∧ k a = Ok r.
Proof. destruct m as [a| |]; cbn; [eauto | discriminate..]. Qed.

Lemma bind_Ok (a : A) (k : A -> outcome B) : Ok a ≫= k = k a.
Proof. reflexivity. Qed.
End outcome_facts.

Lemma in_int_spec z : in_int z = true <-> INT_MIN <= z <= INT_MAX.
Proof. unfold in_int. rewrite andb_true_iff, !Z.leb_le. tauto. Qed.

Lemma checked_in z : INT_MIN <= z <= INT_MAX -> checked z = Ok z.
Proof. intros H. unfold checked. apply in_int_spec in H. now rewrite H. Qed.

Lemma checked_Ok z r : checked z = Ok r -> r = z ∧ INT_MIN <= z <= INT_MAX.
Proof.
  unfold checked. destruct (in_int z) eqn:E; [|discriminate].
  intros [= <-]. split; [reflexivity | now apply in_int_spec].
Qed.

Lemma int_Ok z r : int_ z = Ok r -> r = z.
Proof. now intros [= <-]. Qed.

Lemma int_unfold z : int_ z = Ok z.
Proof. reflexivity. Qed.

Lemma iadd_int a b : INT_MIN <= a + b <= INT_MAX -> Ok a +! Ok b = Ok (a + b).
Proof. intros H. unfold iadd. cbn. now apply checked_in. Qed.

Lemma isub_int a b : INT_MIN <= a - b <= INT_MAX -> Ok a -! Ok b = Ok (a - b).
Proof. intros H. unfold isub. cbn. now apply checked_in. Qed.

Lemma imul_int a b : INT_MIN <= a * b <= INT_MAX -> Ok a *! Ok b = Ok (a * b).
Proof. intros H. unfold imul. cbn. now apply checked_in. Qed.

Lemma iadd_Ok a b r :
  a +! b = Ok r ->
  ∃ x y, a = Ok x ∧ b = Ok y ∧ r = x + y ∧ INT_MIN <= x + y <= INT_MAX.
Proof.
  unfold iadd. intros H.
  apply bind_Ok_inv in H as (x & -> & H). apply bind_Ok_inv in H as (y & -> & H).
  apply checked_Ok in H as [-> H]. eauto 6.
Qed.

Lemma isub_Ok a b r :
  a -! b = Ok r ->
  ∃ x y, a = Ok x ∧ b = Ok y ∧ r = x - y ∧ INT_MIN <= x - y <= INT_MAX.
Proof.
  unfold isub. intros H.
  apply bind_Ok_inv in H as (x & -> & H). apply bind_Ok_inv in H as (y & -> & H).
  apply checked_Ok in H as [-> H]. eauto 6.
Qed.

Lemma imul_Ok a b r :
  a *! b = Ok r ->
  ∃ x y, a = Ok x ∧ b = Ok y ∧ r = x * y ∧ INT_MIN <= x * y <= INT_MAX.
Proof.
  unfold imul. intros H.
  apply bind_Ok_inv in H as (x & -> & H). apply bind_Ok_inv in H as (y & -> & H).
  apply checked_Ok in H as [-> H]. eauto 6.
Qed.

(** Decompose a successful int expression into the values and the range
    facts of its operations. *)
Ltac int_inv :=
  repeat match goal with
  | H : int_ _ = Ok _ |- _ => apply int_Ok in H; subst
  | H : Ok _ = Ok _ |- _ => injection H as H; subst
  | H : iadd _ _ = Ok _ |- _ =>
      let x := fresh "x" in let y := fresh "y" in
      apply iadd_Ok in H as (x & y & ? & ? & ? & ?)
  | H : isub _ _ = Ok _ |- _ =>
      let x := fresh "x" in let y := fresh "y" in
      apply isub_Ok in H as (x & y & ? & ? & ? & ?)
  | H : imul _ _ = Ok _ |- _ =>
      let x := fresh "x" in let y := fresh "y" in
      apply imul_Ok in H as (x & y & ? & ? & ? & ?)
  end.

(** Split a successful sequence at its first step. *)
Tactic Notation "bind_inv" hyp(H) :=
  let a := fresh "a" in let Ha := fresh "H" a in
  apply bind_Ok_inv in H as (a & Ha & H).

Tactic Notation "bind_inv" hyp(H) "as" ident(a) ident(Ha) :=
  apply bind_Ok_inv in H as (a & Ha & H).

(** ** Vectors *)

Section vector_facts.
Context {A : Type}.
Implicit Types (v : list A) (k : Z).

Lemma len_nonneg v : 0 <= len v.
Proof. unfold len. lia. Qed.

Lemma len_insert v (n : nat) x : len (<[n := x]> v) = len v.
Proof. unfold len. now rewrite length_insert. Qed.

Lemma len_replicate (n : nat) (x : A) : len (replicate n x) = Z.of_nat n.
Proof. unfold len. now rewrite length_replicate. Qed.

Lemma vec_resize_int v k d :
  0 <= k ->
  vec_resize v (Ok k) d
  = Ok (take (Z.to_nat k) v ++ replicate (Z.to_nat k - length v)%nat d).
Proof. intros H. unfold vec_resize. cbn. case_decide; [lia | reflexivity]. Qed.

Lemma len_resized v k d :
  0 <= k ->
  len (take (Z.to_nat k) v ++ replicate (Z.to_nat k - length v)%nat d) = k.
Proof.
  intros H. unfold len. rewrite length_app, length_take, length_replicate. lia.
Qed.

Lemma vec_resize_Ok v n d v' :
  vec_resize v n d = Ok v' -> ∃ k, n = Ok k ∧ 0 <= k ∧ len v' = k.
Proof.
  unfold vec_resize. intros H. bind_inv H. subst n. case_decide; [discriminate|].
  injection H as <-. exists a. repeat split; [lia | apply len_resized; lia].
Qed.

Lemma vec_store_int id v k x :
  0 <= k < len v -> vec_store id v (Ok k) x = Ok (<[Z.to_nat k := x]> v).
Proof. intros H. unfold vec_store. cbn. now rewrite decide_True. Qed.

Lemma vec_store_Ok id v i x v' :
  vec_store id v i x = Ok v' ->
  ∃ k, i = Ok k ∧ 0 <= k < len v ∧ v' = <[Z.to_nat k := x]> v.
Proof.
  unfold vec_store. intros H. bind_inv H. subst i. case_decide; [|discriminate].
  injection H as <-. eauto.
Qed.

Lemma vec_store_len id v i x v' : vec_store id v i x = Ok v' -> len v' = len v.
Proof. intros (k & _ & _ & ->)%vec_store_Ok. apply len_insert. Qed.

Lemma vec_load_int id v k x :
  0 <= k -> v !! Z.to_nat k = Some x -> vec_load id v (Ok k) = Ok x.
Proof.
  intros H E. unfold vec_load. cbn. rewrite E. now destruct (decide (0 <= k)).
Qed.

Lemma vec_load_Ok id v i x :
  vec_load id v i = Ok x -> ∃ k, i = Ok k ∧ 0 <= k < len v ∧ v !! Z.to_nat k = Some x.
Proof.
  unfold vec_load. intros H. bind_inv H. subst i.
  destruct (decide (0 <= a)); [|discriminate].
  destruct (v !! Z.to_nat a) eqn:E; [|discriminate]. injection H as <-.
  exists a. repeat split; try assumption.
  apply lookup_lt_Some in E. unfold len. lia.
Qed.
End vector_facts.

(** ** Counted loops *)

Section loop_facts.
Context {S : Type}.
Implicit Types (body : Z -> S -> outcome S) (P : S -> Prop).

(** What a successful loop preserves. *)
Lemma for_loop_preserves P body n i s r :
  (∀ k t t', i <= k < i + Z.of_nat n -> P t -> body k t = Ok t' -> P t') ->
  P s -> for_loop n i body s = Ok r -> P r.
Proof.
  revert i s. induction n as [|n IH]; intros i s Hbody Hs H; cbn in H.
  - now injection H as <-.
  - bind_inv H. eapply (IH (i + 1) a); [| |exact H].
    + intros k t t' Hk. apply Hbody. lia.
    + eapply Hbody; [|exact Hs|exact Ha]. lia.
Qed.

Lemma for_range_preserves P body lo hi s r :
  (∀ k t t', lo <= k < hi -> P t -> body k t = Ok t' -> P t') ->
  P s -> for_range lo hi body s = Ok r -> P r.
Proof.
  intros Hbody. apply for_loop_preserves. intros k t t' Hk. apply Hbody. lia.
Qed.

(** A loop whose body succeeds under an invariant succeeds. *)
Lemma for_loop_runs P body n i s :
  (∀ k t, i <= k < i + Z.of_nat n -> P t -> ∃ t', body k t = Ok t' ∧ P t') ->
  P s -> ∃ r, for_loop n i body s = Ok r ∧ P r.
Proof.
  revert i s. induction n as [|n IH]; intros i s Hbody Hs; cbn.
  - eauto.
  - destruct (Hbody i s) as (t & -> & Ht); [lia | assumption |]. cbn.
    apply IH; [|assumption]. intros k u Hk. apply Hbody. lia.
Qed.

Lemma for_range_runs P body lo hi s :
  (∀ k t, lo <= k < hi -> P t -> ∃ t', body k t = Ok t' ∧ P t') ->
  P s -> ∃ r, for_range lo hi body s = Ok r ∧ P r.
Proof.
  intros Hbody. apply for_loop_runs. intros k t Hk. apply Hbody. lia.
Qed.
End loop_facts.

(** ** createTriangle and createBox *)

Section copy_loops.
Context {A : Type}.

(** Copying the whole of [data] over a vector of the same size gives
    [data], whatever the vector held before. *)
Lemma copy_loop_spec (idd ids : array_id) (data : list A) :
  ∀ (n k : nat) (v : list A),
    length v = length data ->
    (k + n)%nat = length data ->
    take k v = take k data ->
    for_loop n (Z.of_nat k)
      (fun i v => x ← vec_load idd data i; vec_store ids v i x) v = Ok data.
Proof.
  induction n as [|n IH]; intros k v Hlen Hk Htake; cbn [for_loop]; unfold int_.
  - rewrite Nat.add_0_r in Hk. subst k.
    rewrite <- Hlen, firstn_all in Htake at 1.
    rewrite firstn_all in Htake. now subst.
  - destruct (lookup_lt_is_Some_2 data k) as [x Hx]; [lia|].
    rewrite (vec_load_int idd data (Z.of_nat k) x); [|lia|now rewrite Nat2Z.id].
    rewrite bind_Ok, vec_store_int by (unfold len; lia). rewrite bind_Ok.
    rewrite Nat2Z.id. replace (Z.of_nat k + 1) with (Z.of_nat (Datatypes.S k)) by lia.
    apply IH.
    + now rewrite length_insert.
    + lia.
    + rewrite (take_S_r data k x Hx).
      rewrite (take_S_r (<[k:=x]> v) k x) by (apply list_lookup_insert_eq; lia).
      rewrite take_insert_ge by lia. now rewrite Htake.
Qed.
End copy_loops.

Lemma copy_vertex_data_spec data va :
  len va = len data -> copy_vertex_data data (len data) va = Ok data.
Proof.
  intros H. unfold copy_vertex_data, for_range. rewrite Z.sub_0_r.
  unfold len in *. rewrite Nat2Z.id.
  apply (copy_loop_spec A_vertex_array_data A_vertexarray data (length data) 0 va);
    [lia | lia | reflexivity].
Qed.

Lemma copy_index_data_spec data ia :
  len ia = len data -> copy_index_data data (len data) ia = Ok data.
Proof.
  intros H. unfold copy_index_data, for_range. rewrite Z.sub_0_r.
  unfold len in *. rewrite Nat2Z.id.
  apply (copy_loop_spec A_index_array_data A_indexarray data (length data) 0 ia);
    [lia | lia | reflexivity].
Qed.

Lemma createTriangle_spec s :
  createTriangle s
  = Ok (mkSoup 3 1 triangle_vertex_array_data triangle_index_array_data).
Proof.
  unfold createTriangle, int_.
  rewrite !imul_int by (cbv; split; discriminate).
  rewrite !vec_resize_int by lia. cbn [mbind outcome_mbind outcome_bind].
  change (8 * 3) with (len triangle_vertex_array_data).
  rewrite copy_vertex_data_spec by (apply len_resized; cbv; discriminate).
  cbn [mbind outcome_mbind outcome_bind].
  change (3 * 1) with (len triangle_index_array_data).
  rewrite copy_index_data_spec by (apply len_resized; cbv; discriminate).
  reflexivity.
Qed.

Lemma createBox_spec x y z s :
  createBox x y z s
  = Ok (mkSoup 8 12 (box_vertex_array_data x y z) box_index_array_data).
Proof.
  unfold createBox, int_.
  rewrite !imul_int by (cbv; split; discriminate).
  rewrite !vec_resize_int by lia. cbn [mbind outcome_mbind outcome_bind].
  change (8 * 8) with (len (box_vertex_array_data x y z)).
  rewrite copy_vertex_data_spec by (apply len_resized; cbv; discriminate).
  cbn [mbind outcome_mbind outcome_bind].
  change (3 * 12) with (len box_index_array_data).
  rewrite copy_index_data_spec by (apply len_resized; cbv; discriminate).
  reflexivity.
Qed.

(** ** createSphere *)

Lemma to_GLuint_id z : 0 <= z <= INT_MAX -> to_GLuint z = z.
Proof. unfold to_GLuint, INT_MAX. intros H. apply Z.mod_small. lia. Qed.

Lemma vec_resize_nil_Ok {A : Type} (n : outcome Z) (d : A) v :
  vec_resize [] n d = Ok v -> ∃ k, n = Ok k ∧ 0 <= k ∧ v = replicate (Z.to_nat k) d.
Proof.
  unfold vec_resize. intros H. bind_inv H. subst n. case_decide; [discriminate|].
  injection H as <-. exists a. rewrite take_nil, Nat.sub_0_r. auto with lia.
Qed.

Lemma store_index_Ok ia idx val ia' :
  store_index ia idx val = Ok ia' ->
  ∃ k v, idx = Ok k ∧ val = Ok v ∧ 0 <= k < len ia ∧ ia' = <[Z.to_nat k := to_GLuint v]> ia.
Proof.
  unfold store_index. intros H. bind_inv H. subst val.
  apply vec_store_Ok in H as (k & -> & Hk & ->). eauto 8.
Qed.

Lemma store_index_below bound size ia idx val ia' :
  store_index ia idx val = Ok ia' ->
  indices_below bound size ia ->
  (∀ v, val = Ok v -> 0 <= v < bound) ->
  bound <= INT_MAX ->
  indices_below bound size ia'.
Proof.
  intros (k & v & -> & -> & Hk & ->)%store_index_Ok [Hlen Hall] Hv Hb.
  split; [now rewrite len_insert|].
  apply Forall_insert; [assumption|].
  specialize (Hv v eq_refl). rewrite to_GLuint_id; lia.
Qed.

Lemma store_index_int bound size ia k v :
  indices_below bound size ia ->
  0 <= k < size -> 0 <= v < bound -> bound <= INT_MAX ->
  ∃ ia', store_index ia (Ok k) (Ok v) = Ok ia' ∧ indices_below bound size ia'.
Proof.
  intros [Hlen Hall] Hk Hv Hb. unfold store_index. rewrite bind_Ok.
  rewrite vec_store_int by lia. eexists; split; [reflexivity|].
  split; [now rewrite len_insert|].
  apply Forall_insert; [assumption|]. rewrite to_GLuint_id; lia.
Qed.

(** Where the indices of the three parts of the sphere lie. *)
Lemma sphere_cap_arith vsegs hsegs nverts i :
  2 <= vsegs -> hsegs = vsegs * 2 -> nverts = 1 + (vsegs - 1) * (hsegs + 1) + 1 ->
  0 <= i < hsegs ->
  2 + i < nverts ∧ 0 <= nverts - 3 - i.
Proof. intros Hv -> -> Hi. nia. Qed.

Lemma sphere_band_arith vsegs hsegs nverts j i :
  2 <= vsegs -> hsegs = vsegs * 2 -> nverts = 1 + (vsegs - 1) * (hsegs + 1) + 1 ->
  0 <= j < vsegs - 2 -> 0 <= i < hsegs ->
  0 <= 1 + j * (hsegs + 1) + i ∧ 1 + j * (hsegs + 1) + i + hsegs + 2 < nverts.
Proof.
  intros Hv -> -> Hj Hi.
  assert (j * (vsegs * 2 + 1) <= (vsegs - 3) * (vsegs * 2 + 1)) by nia.
  nia.
Qed.

(** One store of a straight-line sequence: the vector keeps its size. *)
Ltac step_store H Hlen :=
  let v := fresh "va" in let Hv := fresh "Hst" in
  bind_inv H as v Hv; apply vec_store_len in Hv; rewrite Hlen in Hv;
  clear Hlen; rename Hv into Hlen.

Ltac last_store H Hlen :=
  apply vec_store_len in H; rewrite Hlen in H; clear Hlen; rename H into Hlen.

(** One index store: the value is a vertex, by [tac]. *)
Ltac step_index H Hinv tac :=
  let v := fresh "ia" in let Hv := fresh "Hst" in
  bind_inv H as v Hv;
  eapply store_index_below in Hv;
    [ | exact Hinv | (let w := fresh "w" in let Hw := fresh "Hw" in
                      intros w Hw; unfold int_ in Hw; int_inv; tac) | tac ];
  clear Hinv; rename Hv into Hinv.

Ltac last_index H Hinv tac :=
  eapply store_index_below in H;
    [ | exact Hinv | (let w := fresh "w" in let Hw := fresh "Hw" in
                      intros w Hw; unfold int_ in Hw; int_inv; tac) | tac ];
  clear Hinv; rename H into Hinv.

(** Whenever [createSphere] returns, the counts are the closed forms, the
    arrays have the matching sizes and every index names a vertex. *)
Lemma createSphere_Ok radius segments s m :
  createSphere radius segments s = Ok m ->
  nverts_ m = sphere_nverts segments ∧
  ntris_ m = sphere_ntris segments ∧
  len (vertexarray_ m) = 8 * nverts_ m ∧
  indices_below (nverts_ m) (3 * ntris_ m) (indexarray_ m).
Proof.
  unfold createSphere, sphere_nverts, sphere_ntris, int_.
  set (vsegs := Z.max segments 2). assert (Hv : 2 <= vsegs) by (subst vsegs; lia).
  clearbody vsegs. cbn [clean vertexarray_ indexarray_]. intros H.
  bind_inv H as hsegs Hh. bind_inv H as nverts Hnv. bind_inv H as ntris Hnt.
  bind_inv H as va Hva. apply vec_resize_nil_Ok in Hva as (n8 & Hn8 & _ & ->).
  bind_inv H as ia Hia. apply vec_resize_nil_Ok in Hia as (n3 & Hn3 & Hn3pos & ->).
  apply imul_Ok in Hh as (? & ? & [= <-] & [= <-] & Hh & _).
  apply imul_Ok in Hn8 as (? & ? & [= <-] & [= <-] & -> & Hn8).
  apply imul_Ok in Hn3 as (? & ? & [= <-] & [= <-] & -> & _).
  assert (Hnv' : nverts = 1 + (vsegs - 1) * (hsegs + 1) + 1) by (int_inv; reflexivity).
  assert (Hnt' : ntris = hsegs + (vsegs - 2) * hsegs * 2 + hsegs) by (int_inv; reflexivity).
  clear Hnv Hnt.
  assert (Hmax : nverts <= INT_MAX) by (unfold INT_MIN, INT_MAX in *; lia).
  assert (Hnpos : 0 <= nverts) by nia.
  (* the vertex array keeps its size *)
  assert (Hlen : len (replicate (Z.to_nat (nverts * 8)) f0) = 8 * nverts)
    by (rewrite len_replicate; lia).
  do 8 step_store H Hlen.
  bind_inv H as base Hbase. clear Hbase.
  do 8 step_store H Hlen.
  bind_inv H as rings Hrings. clear Hrings.
  bind_inv H as va' Hloop.
  assert (Hlen' : len va' = 8 * nverts).
  { eapply (for_range_preserves (fun v => len v = 8 * nverts)); [|exact Hlen|exact Hloop].
    clear. intros j t t' _ Ht Hb.
    bind_inv Hb as j1 Hj1. bind_inv Hb as ring Hring.
    eapply (for_range_preserves (fun v => len v = 8 * nverts)); [|exact Ht|exact Hb].
    clear. intros i u u' _ Hu Hb.
    bind_inv Hb as base Hbase. clear Hbase.
    do 7 step_store Hb Hu. bind_inv Hb as j2 Hj2. last_store Hb Hu. exact Hu. }
  clear Hloop Hlen.
  (* every index names a vertex *)
  assert (Hinv : indices_below nverts (3 * ntris)
                   (replicate (Z.to_nat (ntris * 3)) 0)).
  { split; [rewrite len_replicate; lia|]. apply Forall_replicate.
    destruct (sphere_cap_arith vsegs hsegs nverts 0); try assumption; nia. }
  bind_inv H as ia1 Htop.
  assert (Hinv1 : indices_below nverts (3 * ntris) ia1).
  { eapply (for_range_preserves (indices_below nverts (3 * ntris)));
      [|exact Hinv|exact Htop].
    intros i t t' Hi Ht Hb.
    destruct (sphere_cap_arith vsegs hsegs nverts i) as [? ?]; try assumption.
    step_index Hb Ht lia. step_index Hb Ht lia. last_index Hb Ht lia. exact Ht. }
  clear Htop Hinv.
  bind_inv H as bands Hbands.
  apply isub_Ok in Hbands as (? & ? & [= <-] & [= <-] & -> & _).
  bind_inv H as ia2 Hmid.
  assert (Hinv2 : indices_below nverts (3 * ntris) ia2).
  { eapply (for_range_preserves (indices_below nverts (3 * ntris)));
      [|exact Hinv1|exact Hmid].
    intros j t t' Hj Ht Hb.
    eapply (for_range_preserves (indices_below nverts (3 * ntris)));
      [|exact Ht|exact Hb].
    clear Hb. intros i u u' Hi Hu Hb.
    destruct (sphere_band_arith vsegs hsegs nverts j i) as [? ?]; try assumption.
    bind_inv Hb as base' Hbase. clear Hbase.
    bind_inv Hb as i0 Hi0.
    assert (i0 = 1 + j * (hsegs + 1) + i) as -> by (int_inv; reflexivity).
    clear Hi0.
    do 5 step_index Hb Hu lia. last_index Hb Hu lia. exact Hu. }
  clear Hmid Hinv1.
  bind_inv H as base' Hbase. clear Hbase.
  bind_inv H as ia3 Hbot.
  assert (Hinv3 : indices_below nverts (3 * ntris) ia3).
  { eapply (for_range_preserves (indices_below nverts (3 * ntris)));
      [|exact Hinv2|exact Hbot].
    intros i t t' Hi Ht Hb.
    destruct (sphere_cap_arith vsegs hsegs nverts i) as [? ?]; try assumption.
    step_index Hb Ht lia. step_index Hb Ht lia. last_index Hb Ht lia. exact Ht. }
  injection H as <-. cbn [nverts_ ntris_ vertexarray_ indexarray_].
  subst hsegs. repeat split; try assumption; try apply Hinv3; lia.
Qed.

(** *** createSphere returns, for the segment counts that [int] can take *)

Lemma sphere_range vsegs hsegs nverts ntris :
  2 <= vsegs <= 11585 -> hsegs = vsegs * 2 ->
  nverts = 1 + (vsegs - 1) * (hsegs + 1) + 1 ->
  ntris = hsegs + (vsegs - 2) * hsegs * 2 + hsegs ->
  0 <= (vsegs - 1) * (hsegs + 1) ∧ 0 <= (vsegs - 2) * hsegs ∧
  nverts * 8 <= INT_MAX ∧ ntris * 3 <= INT_MAX ∧ ntris * 3 <= nverts * 8.
Proof.
  intros Hv -> -> ->. unfold INT_MAX.
  assert (vsegs * vsegs <= 11585 * 11585) by nia.
  nia.
Qed.

Lemma sphere_ring_arith vsegs hsegs j :
  2 <= vsegs -> 0 <= hsegs -> 0 <= j < vsegs - 1 ->
  0 <= j * (hsegs + 1) <= (vsegs - 2) * (hsegs + 1).
Proof. intros. nia. Qed.

Lemma sphere_strip_arith vsegs hsegs j :
  2 <= vsegs -> 0 <= hsegs -> 0 <= j < vsegs - 2 ->
  0 <= j * hsegs <= (vsegs - 3) * hsegs.
Proof. intros. nia. Qed.

Lemma vec_store_runs {A : Type} id (v : list A) k x :
  0 <= k < len v -> ∃ v', vec_store id v (Ok k) x = Ok v' ∧ len v' = len v.
Proof.
  intros H. rewrite vec_store_int by assumption.
  eexists; split; [reflexivity | apply len_insert].
Qed.

(** Evaluate the int expressions of the goal whose operations stay in range. *)
Ltac int_run tac :=
  repeat first [ rewrite iadd_int by tac | rewrite isub_int by tac
               | rewrite imul_int by tac ].

(** Run the store at the head of the goal. *)
Ltac run_store Hlen tac :=
  int_run tac;
  lazymatch goal with
  | |- context [vec_store ?id ?v (Ok ?k) ?x] =>
      let v' := fresh "va" in let E := fresh "E" in let L := fresh "L" in
      destruct (vec_store_runs id v k x) as (v' & E & L);
        [ rewrite Hlen; tac
        | rewrite E, ?bind_Ok; rewrite Hlen in L; clear E Hlen; rename L into Hlen ]
  end.

Lemma store_index_runs ia k v :
  0 <= k < len ia -> ∃ ia', store_index ia (Ok k) (Ok v) = Ok ia' ∧ len ia' = len ia.
Proof.
  intros H. unfold store_index. rewrite bind_Ok. now apply vec_store_runs.
Qed.

Ltac run_index Hlen tac :=
  int_run tac;
  lazymatch goal with
  | |- context [store_index ?ia (Ok ?k) (Ok ?v)] =>
      let ia' := fresh "ia" in let E := fresh "E" in let L := fresh "L" in
      destruct (store_index_runs ia k v) as (ia' & E & L);
        [ rewrite Hlen; tac
        | rewrite ?E, ?bind_Ok; rewrite Hlen in L; try clear E; clear Hlen;
          rename L into Hlen ]
  end.

(** The last store of a loop body re-establishes the size. *)
Ltac end_index Hlen tac :=
  int_run tac;
  lazymatch goal with
  | |- ∃ t', store_index ?ia (Ok ?k) (Ok ?v) = Ok t' ∧ _ =>
      let ia' := fresh "ia" in let E := fresh "E" in let L := fresh "L" in
      destruct (store_index_runs ia k v) as (ia' & E & L);
        [ rewrite Hlen; tac | exists ia'; split; [exact E | now rewrite L] ]
  end.

(** Run the loop at the head of the goal under the invariant [P]. *)
Ltac run_loop P Hinit r HP :=
  lazymatch goal with
  | |- ∃ m, mbind ?k (for_range ?lo ?hi ?body ?v) = Ok m =>
      let E := fresh "E" in
      destruct (for_range_runs P body lo hi v) as (r & E & HP);
        [ | exact Hinit | rewrite E, ?bind_Ok; clear E ]
  end.

Lemma createSphere_runs radius segments s :
  segments <= 11585 -> ∃ m, createSphere radius segments s = Ok m.
Proof.
  intros Hseg. unfold createSphere, int_.
  set (vsegs := Z.max segments 2). assert (Hv : 2 <= vsegs <= 11585) by (subst vsegs; lia).
  clearbody vsegs. cbn [clean vertexarray_ indexarray_].
  remember (vsegs * 2) as hsegs eqn:Hh.
  remember (1 + (vsegs - 1) * (hsegs + 1) + 1) as nverts eqn:Hnv.
  remember (hsegs + (vsegs - 2) * hsegs * 2 + hsegs) as ntris eqn:Hnt.
  destruct (sphere_range vsegs hsegs nverts ntris) as (R1 & R2 & R3 & R4 & R5);
    try assumption.
  assert (Hmin : INT_MIN = - 2147483648) by reflexivity.
  assert (Hmax : INT_MAX = 2147483647) by reflexivity.
  rewrite imul_int, bind_Ok by lia. rewrite <- Hh.
  int_run lia. rewrite <- Hnv, bind_Ok.
  int_run lia. rewrite <- Hnt, bind_Ok.
  int_run lia. rewrite !vec_resize_int by lia. rewrite !bind_Ok.
  rewrite !take_nil, !Nat.sub_0_r, !app_nil_l.
  assert (Hlen : len (replicate (Z.to_nat (nverts * 8)) f0) = 8 * nverts)
    by (rewrite len_replicate; lia).
  assert (Hilen : len (replicate (Z.to_nat (ntris * 3)) 0) = 3 * ntris)
    by (rewrite len_replicate; lia).
  do 8 run_store Hlen lia. rewrite ?bind_Ok.
  do 8 run_store Hlen lia. rewrite ?bind_Ok.
  (* the rings *)
  run_loop (fun w : list GLfloat => len w = 8 * nverts) Hlen va' Hlen'.
  { clear dependent va14. intros j t Hj Ht.
    pose proof (sphere_ring_arith vsegs hsegs j) as Hr.
    int_run lia. rewrite ?bind_Ok.
    lazymatch goal with
    | |- context [for_range 0 ?hi ?body t] =>
        apply (for_range_runs (fun w => len w = 8 * nverts) body 0 hi t); [|exact Ht]
    end.
    clear dependent t. intros i t Hi Ht.
    int_run lia. rewrite ?bind_Ok.
    do 7 run_store Ht lia. int_run lia. rewrite ?bind_Ok.
    int_run lia.
    lazymatch goal with
    | |- context [vec_store ?id ?v (Ok ?k) ?x] =>
        destruct (vec_store_runs id v k x) as (v' & E & L); [rewrite Ht; lia|]
    end.
    exists v'. split; [exact E | now rewrite L]. }
  clear dependent va14.
  (* top cap *)
  run_loop (fun w : list Z => len w = 3 * ntris) Hilen ia1 Hlen1.
  { intros i t Hi Ht. do 2 run_index Ht lia. end_index Ht lia. }
  (* middle part *)
  run_loop (fun w : list Z => len w = 3 * ntris) Hlen1 ia2 Hlen2.
  { intros j t Hj Ht.
    pose proof (sphere_strip_arith vsegs hsegs j) as Hr.
    lazymatch goal with
    | |- context [for_range 0 ?hi ?body t] =>
        apply (for_range_runs (fun w => len w = 3 * ntris) body 0 hi t); [|exact Ht]
    end.
    clear dependent t. intros i t Hi Ht.
    int_run lia. rewrite ?bind_Ok.
    do 5 run_index Ht lia. end_index Ht lia. }
  (* bottom cap *)
  run_loop (fun w : list Z => len w = 3 * ntris) Hlen2 ia3 Hlen3.
  { intros i t Hi Ht. do 2 run_index Ht lia. end_index Ht lia. }
  eexists. reflexivity.
Qed.

(** ** readOBJ: the sizes of the five arrays never change *)

Lemma same_sizes_refl r : same_sizes r r.
Proof. now repeat split. Qed.

Lemma same_sizes_trans r1 r2 r3 : same_sizes r1 r2 -> same_sizes r2 r3 -> same_sizes r1 r3.
Proof. unfold same_sizes. intuition congruence. Qed.

Lemma len_assign_floats v ptrs args : len (assign_floats v ptrs args) = len v.
Proof.
  revert v args. induction ptrs as [|p ptrs IH]; intros v args; [reflexivity|].
  destruct args as [|[z|x|t] args]; try reflexivity.
  cbn. rewrite IH. apply len_insert.
Qed.

Lemma copy_elem_len id src si va di va' :
  copy_elem id src si va di = Ok va' -> len va' = len va.
Proof. unfold copy_elem. intros H. bind_inv H. now apply vec_store_len in H. Qed.

Lemma store_index_len ia idx val ia' : store_index ia idx val = Ok ia' -> len ia' = len ia.
Proof. intros (k & v & _ & _ & _ & ->)%store_index_Ok. apply len_insert. Qed.

Ltac step_copy H Hlen :=
  let v := fresh "va" in let Hv := fresh "Hst" in
  bind_inv H as v Hv; apply copy_elem_len in Hv;
  apply (fun e => eq_trans e Hlen) in Hv; clear Hlen; rename Hv into Hlen.

Ltac step_index_len H Hlen :=
  let v := fresh "ia" in let Hv := fresh "Hst" in
  bind_inv H as v Hv; apply store_index_len in Hv;
  apply (fun e => eq_trans e Hlen) in Hv; clear Hlen; rename Hv into Hlen.

Lemma gather_face_sizes r v1 t1 n1 v2 t2 n2 v3 t3 n3 r' :
  gather_face r v1 t1 n1 v2 t2 n2 v3 t3 n3 = Ok r' ->
  same_sizes r r' ∧ readerror r' = readerror r ∧ cerr r' = cerr r.
Proof.
  unfold gather_face. intros H.
  do 10 (let x := fresh "x" in let Hx := fresh "Hx" in bind_inv H as x Hx; clear Hx).
  assert (Hva : len (r_vertexarray r) = len (r_vertexarray r)) by reflexivity.
  do 24 step_copy H Hva.
  assert (Hia : len (r_indexarray r) = len (r_indexarray r)) by reflexivity.
  do 3 step_index_len H Hia.
  bind_inv H as n Hn. injection H as <-. cbn. now repeat split.
Qed.

(* ===================================================================== *)
(** * The claims about createBox, createSphere and a missing file *)
(* ===================================================================== *)

(** C8.  [createBox] always returns, with 8 vertices (64 floats) and 12
    triangles, the index array being the fixed table and the vertex array
    the eight corners of the given extents; nothing of the object it is
    called on is left: a second call gives what it gives on any other
    object, a new one included. *)
Theorem createBox_replaces (x y z : GLfloat) (s : TriangleSoup) :
  ∃ m,
    createBox x y z s = Ok m ∧
    nverts_ m = 8 ∧ ntris_ m = 12 ∧
    len (vertexarray_ m) = 64 ∧
    indexarray_ m = box_index_array_data ∧
    vertexarray_ m = box_vertex_array_data x y z ∧
    ∀ (x' y' z' : GLfloat) (s' : TriangleSoup),
      createBox x' y' z' m = createBox x' y' z' s' ∧
      createBox x' y' z' m
      = Ok (mkSoup 8 12 (box_vertex_array_data x' y' z') box_index_array_data).
Proof.
  eexists. split; [apply createBox_spec|].
  cbn [nverts_ ntris_ vertexarray_ indexarray_].
  repeat split; try reflexivity.
  now rewrite !createBox_spec.
Qed.

(** The unit box. *)
Example createBox_unit :
  createBox f1 f1 f1 TriangleSoup_new
  = Ok (mkSoup 8 12 (box_vertex_array_data f1 f1 f1) box_index_array_data).
Proof. reflexivity. Qed.

(** C1, for the segment counts whose arrays [int] can index.  For
    [segments <= 11585] (so that [8 * nverts_] is an [int]) [createSphere]
    returns a mesh whose counts are the closed forms in [vsegs] and
    [hsegs], and every entry of whose index array is below the vertex
    count. *)
Theorem createSphere_counts (radius : GLfloat) (segments : Z) (s : TriangleSoup) :
  segments <= 11585 ->
  let vsegs := Z.max segments 2 in
  let hsegs := 2 * vsegs in
  ∃ m,
    createSphere radius segments s = Ok m ∧
    nverts_ m = 1 + (vsegs - 1) * (hsegs + 1) + 1 ∧
    ntris_ m = hsegs + (vsegs - 2) * hsegs * 2 + hsegs ∧
    Forall (fun i => 0 <= i < nverts_ m) (indexarray_ m).
Proof.
  intros Hseg vsegs hsegs.
  destruct (createSphere_runs radius segments s Hseg) as [m Hm].
  destruct (createSphere_Ok _ _ _ _ Hm) as (Hnv & Hnt & _ & _ & Hidx).
  exists m. repeat split; assumption.
Qed.

Lemma createSphere_counts_witness :
  ∃ m,
    createSphere (FLit "1.0f") 3 TriangleSoup_new = Ok m ∧
    nverts_ m = 16 ∧ ntris_ m = 24 ∧
    Forall (fun i => 0 <= i < nverts_ m) (indexarray_ m).
Proof.
  apply (createSphere_counts (FLit "1.0f") 3 TriangleSoup_new). lia.
Defined.

(** C1 as stated fails at [segments = 11586]: the vertex count 268459207
    is an [int], eight times it is not, and the call has no defined result
    before any array is allocated. *)
Lemma createSphere_11586_undefined :
  createSphere (FLit "1.0f") 11586 TriangleSoup_new = Undefined SignedOverflow ∧
  ¬ ∃ m,
      createSphere (FLit "1.0f") 11586 TriangleSoup_new = Ok m ∧
      nverts_ m = 1 + (11586 - 1) * (2 * 11586 + 1) + 1 ∧
      ntris_ m = 2 * 11586 + (11586 - 2) * (2 * 11586) * 2 + 2 * 11586 ∧
      Forall (fun i => i < nverts_ m) (indexarray_ m).
Proof.
  assert (E : createSphere (FLit "1.0f") 11586 TriangleSoup_new
              = Undefined SignedOverflow) by (vm_compute; reflexivity).
  split; [exact E|]. intros (m & Hm & _). rewrite E in Hm. discriminate.
Qed.

(** At [segments = 40000] the vertex count itself is beyond [int]. *)
Example createSphere_40000_undefined :
  createSphere (FLit "1.0f") 40000 TriangleSoup_new = Undefined SignedOverflow ∧
  INT_MAX < 1 + (40000 - 1) * (2 * 40000 + 1) + 1.
Proof. split; [vm_compute; reflexivity | reflexivity]. Qed.

(** C4, as the code has it.  When the file cannot be opened, the failure
    is written to [std::cerr], nothing is written to [std::cout], and the
    mesh is what it was before the call. *)
Theorem readOBJ_file_not_found
    (fs : gmap string string) (filename : string) (s : TriangleSoup) :
  fs !! filename = None ->
  readOBJ fs filename s = Ok (s, [File_not_found filename], []).
Proof. intros H. unfold readOBJ. now rewrite H. Qed.

Lemma readOBJ_file_not_found_witness :
  readOBJ ∅ "missing.obj" TriangleSoup_new
  = Ok (TriangleSoup_new, [File_not_found "missing.obj"], []).
Proof. apply readOBJ_file_not_found. reflexivity. Defined.

(** C4 as stated fails: after [createTriangle], a call with a file that
    cannot be opened leaves the three vertices and the triangle. *)
Lemma readOBJ_file_not_found_keeps_mesh :
  ∃ s m log,
    createTriangle TriangleSoup_new = Ok s ∧
    readOBJ ∅ "missing.obj" s = Ok (m, log, []) ∧
    log = [File_not_found "missing.obj"] ∧
    nverts_ m = 3 ∧ ntris_ m = 1 ∧
    vertexarray_ m ≠ [] ∧ indexarray_ m ≠ [] ∧
    ¬ mesh_empty m.
Proof.
  eexists _, _, _. split; [reflexivity|]. split; [reflexivity|].
  repeat split; try discriminate.
  intros (H & _). discriminate H.
Qed.

(** ** readOBJ: tags and counts *)

Lemma scan_tag_tag_of line : scan_tag line (Some EmptyString) = Some (tag_of line).
Proof.
  unfold tag_of, scan_tag. now destruct (sscanf line "%2s ") as [|[z|x|t] rest].
Qed.

(** A line that has a tag shows the same tag in both loops. *)
Lemma scan_tag_fresh line old :
  tag_of line ≠ EmptyString -> scan_tag line old = Some (tag_of line).
Proof.
  unfold tag_of, scan_tag.
  destruct (sscanf line "%2s ") as [|[z|x|t] rest]; congruence.
Qed.

(** A line without a tag leaves [tag] as it was. *)
Lemma scan_tag_stale line old :
  tag_of line = EmptyString -> scan_tag line old = old ∨ scan_tag line old = Some EmptyString.
Proof.
  unfold tag_of, scan_tag.
  destruct (sscanf line "%2s ") as [|[z|x|t] rest]; auto.
  intros ->. now right.
Qed.

Lemma bump_range t line : 0 <= bump t line <= 1.
Proof. unfold bump. destruct String.eqb; lia. Qed.

Lemma count_tag_nonneg t lines : 0 <= count_tag t lines.
Proof.
  induction lines as [|l ls IH]; cbn; [lia|]. pose proof (bump_range t l). lia.
Qed.

Lemma count_tag_app t l1 l2 : count_tag t (l1 ++ l2) = count_tag t l1 + count_tag t l2.
Proof. induction l1 as [|l ls IH]; cbn; [reflexivity | lia]. Qed.

(** One line of the first loop: a counter never decreases, and the line
    that carries a tag increases the counter of that tag. *)
Lemma count_line_counts line c c' :
  count_line line c = Ok c' ->
  numverts c + bump "v" line <= numverts c' ∧
  numnormals c + bump "vn" line <= numnormals c' ∧
  numtexcoords c + bump "vt" line <= numtexcoords c' ∧
  numfaces c + bump "f" line <= numfaces c'.
Proof.
  unfold count_line, bump. intros H.
  assert (Ht : tag_of line = EmptyString ∨ scan_tag line (c_tag c) = Some (tag_of line)).
  { destruct (String.eqb_spec (tag_of line) EmptyString) as [E|E]; [now left|].
    right. now apply scan_tag_fresh. }
  destruct Ht as [Ht | Ht].
  - rewrite Ht. cbn [String.eqb Ascii.eqb].
    destruct (scan_tag line (c_tag c)) as [t|]; [|discriminate].
    repeat (destruct (String.eqb t _); [bind_inv H; unfold int_ in *; int_inv; cbn; lia|]).
    injection H as <-. cbn. lia.
  - rewrite Ht in H. cbn beta iota zeta in H.
    destruct (String.eqb_spec (tag_of line) "v") as [E|_].
    { rewrite ?E. bind_inv H. unfold int_ in *. int_inv. cbn. lia. }
    destruct (String.eqb_spec (tag_of line) "vn") as [E|_].
    { rewrite ?E. bind_inv H. unfold int_ in *. int_inv. cbn. lia. }
    destruct (String.eqb_spec (tag_of line) "vt") as [E|_].
    { rewrite ?E. bind_inv H. unfold int_ in *. int_inv. cbn. lia. }
    destruct (String.eqb_spec (tag_of line) "f") as [E|_].
    { rewrite ?E. bind_inv H. unfold int_ in *. int_inv. cbn. lia. }
    injection H as <-. cbn. lia.
Qed.

(** The first loop counts at least the lines that carry each tag. *)
Lemma first_pass_counts lines c c' :
  first_pass lines c = Ok c' ->
  numverts c + count_tag "v" lines <= numverts c' ∧
  numnormals c + count_tag "vn" lines <= numnormals c' ∧
  numtexcoords c + count_tag "vt" lines <= numtexcoords c' ∧
  numfaces c + count_tag "f" lines <= numfaces c'.
Proof.
  revert c. induction lines as [|l ls IH]; intros c H; cbn in H.
  - injection H as <-. cbn. lia.
  - bind_inv H as c1 H1. apply count_line_counts in H1. apply IH in H. cbn. lia.
Qed.

(** ** readOBJ: one line of the second loop *)

Lemma vec_addr_int {A : Type} id (v : list A) k :
  0 <= k < len v -> vec_addr id v (Ok k) = Ok k.
Proof. intros H. unfold vec_addr. cbn. now rewrite decide_True. Qed.

Lemma copy_elem_runs id src k va d :
  0 <= k < len src -> 0 <= d < len va ->
  ∃ va', copy_elem id src (Ok k) va (Ok d) = Ok va' ∧ len va' = len va.
Proof.
  intros Hk Hd. unfold copy_elem.
  destruct (lookup_lt_is_Some_2 src (Z.to_nat k)) as [x Hx]; [unfold len in *; lia|].
  rewrite (vec_load_int id src k x), bind_Ok by (assumption || lia).
  now apply vec_store_runs.
Qed.

Ltac run_copy Hlen tac :=
  int_run tac;
  lazymatch goal with
  | |- context [copy_elem ?id ?src (Ok ?k) ?va (Ok ?d)] =>
      let va' := fresh "va" in let E := fresh "E" in let L := fresh "L" in
      destruct (copy_elem_runs id src k va d) as (va' & E & L);
        [ tac | rewrite Hlen; tac
        | rewrite E, ?bind_Ok; rewrite Hlen in L; clear E Hlen; rename L into Hlen ]
  end.

Ltac int_bounds :=
  assert (INT_MIN = - 2147483648) by reflexivity;
  assert (INT_MAX = 2147483647) by reflexivity.

(** A face whose indices are within the counts is gathered. *)
Lemma gather_face_runs c r v1 t1 n1 v2 t2 n2 v3 t3 n3 :
  reader_inv c r -> counts_fit c -> i_f r + 1 <= numfaces c ->
  1 <= v1 <= numverts c -> 1 <= v2 <= numverts c -> 1 <= v3 <= numverts c ->
  1 <= t1 <= numtexcoords c -> 1 <= t2 <= numtexcoords c -> 1 <= t3 <= numtexcoords c ->
  1 <= n1 <= numnormals c -> 1 <= n2 <= numnormals c -> 1 <= n3 <= numnormals c ->
  ∃ r',
    gather_face r v1 t1 n1 v2 t2 n2 v3 t3 n3 = Ok r' ∧
    reader_inv c r' ∧
    i_v r' = i_v r ∧ i_n r' = i_n r ∧ i_t r' = i_t r ∧ i_f r' = i_f r + 1 ∧
    readerror r' = readerror r ∧ cerr r' = cerr r.
Proof.
  intros [Hvs Hns Hts Hva Hia Hiv Hin Hit Hif] (F1 & F2 & F3 & F4) Hroom.
  intros. int_bounds. unfold gather_face, int_.
  int_run lia. rewrite ?bind_Ok.
  do 24 run_copy Hva lia.
  do 3 run_index Hia lia.
  int_run lia. rewrite ?bind_Ok.
  eexists. split; [reflexivity|]. cbn.
  repeat split; cbn; first [assumption | reflexivity | lia].
Qed.

Ltac reader_simpl :=
  cbn [verts normals texcoords r_vertexarray r_indexarray
       i_v i_n i_t i_f readerror cerr].

(** The three branches that read floats, while the element to fill exists. *)
Lemma parse_v_runs c r line :
  reader_inv c r -> counts_fit c -> i_v r + 1 <= numverts c ->
  ∃ r',
    parse_v line r = Ok r' ∧ reader_inv c r' ∧
    i_n r' = i_n r ∧ i_t r' = i_t r ∧ i_f r' = i_f r ∧
    if decide (numargs_of (sscanf line "v %f %f %f") ≠ 3)
    then readerror r' = 1 ∧ cerr r' = cerr r ++ [Malformed_vertex (i_v r + 1)]
    else i_v r' = i_v r + 1 ∧ readerror r' = readerror r ∧ cerr r' = cerr r.
Proof.
  intros [Hvs Hns Hts Hva Hia Hiv Hin Hit Hif] (F1 & F2 & F3 & F4) Hroom.
  int_bounds. unfold parse_v, int_. int_run lia.
  rewrite !vec_addr_int, ?bind_Ok by lia.
  case_decide; rewrite ?bind_Ok.
  all: eexists; split; [reflexivity|].
  all: repeat split; reader_simpl; rewrite ?len_assign_floats;
    first [assumption | reflexivity | lia].
Qed.

Lemma parse_vn_runs c r line :
  reader_inv c r -> counts_fit c -> i_n r + 1 <= numnormals c ->
  ∃ r',
    parse_vn line r = Ok r' ∧ reader_inv c r' ∧
    i_v r' = i_v r ∧ i_t r' = i_t r ∧ i_f r' = i_f r ∧
    if decide (numargs_of (sscanf line "vn %f %f %f") ≠ 3)
    then readerror r' = 1 ∧ cerr r' = cerr r ++ [Malformed_normal (i_n r + 1)]
    else i_n r' = i_n r + 1 ∧ readerror r' = readerror r ∧ cerr r' = cerr r.
Proof.
  intros [Hvs Hns Hts Hva Hia Hiv Hin Hit Hif] (F1 & F2 & F3 & F4) Hroom.
  int_bounds. unfold parse_vn, int_. int_run lia.
  rewrite !vec_addr_int, ?bind_Ok by lia.
  case_decide; rewrite ?bind_Ok.
  all: eexists; split; [reflexivity|].
  all: repeat split; reader_simpl; rewrite ?len_assign_floats;
    first [assumption | reflexivity | lia].
Qed.

Lemma parse_vt_runs c r line :
  reader_inv c r -> counts_fit c -> i_t r + 1 <= numtexcoords c ->
  ∃ r',
    parse_vt line r = Ok r' ∧ reader_inv c r' ∧
    i_v r' = i_v r ∧ i_n r' = i_n r ∧ i_f r' = i_f r ∧
    if decide (numargs_of (sscanf line "vt %f %f") ≠ 2)
    then readerror r' = 1 ∧ cerr r' = cerr r ++ [Malformed_texcoord (i_t r + 1)]
    else i_t r' = i_t r + 1 ∧ readerror r' = readerror r ∧ cerr r' = cerr r.
Proof.
  intros [Hvs Hns Hts Hva Hia Hiv Hin Hit Hif] (F1 & F2 & F3 & F4) Hroom.
  int_bounds. unfold parse_vt, int_. int_run lia.
  rewrite !vec_addr_int, ?bind_Ok by lia.
  case_decide; rewrite ?bind_Ok.
  all: eexists; split; [reflexivity|].
  all: repeat split; reader_simpl; rewrite ?len_assign_floats;
    first [assumption | reflexivity | lia].
Qed.

(** The numbers of a face line, when each is an [int]. *)
Lemma ints_of_scanned_fit args :
  ints_fit args ->
  ∃ ints, ints_of_scanned args = Ok ints ∧ length ints = length args.
Proof.
  induction 1 as [|x args Hx _ (ints & E & L)]; cbn [ints_of_scanned].
  - now exists [].
  - destruct x as [z| |]; cbn [int_of_scanned].
    + apply in_int_spec in Hx. rewrite Hx, bind_Ok, E, bind_Ok.
      eexists; split; [reflexivity|]. cbn. now rewrite L.
    + rewrite bind_Ok, E, bind_Ok. eexists; split; [reflexivity|]. cbn. now rewrite L.
    + rewrite bind_Ok, E, bind_Ok. eexists; split; [reflexivity|]. cbn. now rewrite L.
Qed.

Lemma not_nine {B : Type} (ints : list Z) (f : Z -> Z -> Z -> Z -> Z -> Z -> Z -> Z -> Z -> B)
    (d : B) :
  length ints ≠ 9%nat ->
  match ints with
  | [v1; t1; n1; v2; t2; n2; v3; t3; n3] => f v1 t1 n1 v2 t2 n2 v3 t3 n3
  | _ => d
  end = d.
Proof.
  intros H. do 9 (destruct ints as [|? ints]; [reflexivity|]).
  destruct ints; [now contradict H | reflexivity].
Qed.

(** A face line with too few indices. *)
Lemma parse_f_short c r line :
  reader_inv c r -> counts_fit c ->
  ints_fit (sscanf line "f %d/%d/%d %d/%d/%d %d/%d/%d") ->
  numargs_of (sscanf line "f %d/%d/%d %d/%d/%d %d/%d/%d") ≠ 9 ->
  i_f r + 1 <= numfaces c ->
  ∃ r',
    parse_f line r = Ok r' ∧ reader_inv c r' ∧
    readerror r' = 1 ∧ cerr r' = cerr r ++ [Malformed_face (i_f r + 1)].
Proof.
  unfold parse_f. generalize (sscanf line "f %d/%d/%d %d/%d/%d %d/%d/%d"). intros args.
  intros [Hvs Hns Hts Hva Hia Hiv Hin Hit Hif] (F1 & F2 & F3 & F4) Hfit Hn Hroom.
  int_bounds. unfold int_. cbn zeta.
  destruct (ints_of_scanned_fit _ Hfit) as (ints & -> & L). rewrite bind_Ok.
  rewrite not_nine by (unfold numargs_of, len in Hn; lia).
  int_run lia. rewrite ?bind_Ok. eexists; split; [reflexivity|].
  repeat split; reader_simpl; first [assumption | reflexivity | lia].
Qed.

(** A face line whose nine indices are within the counts. *)
Lemma parse_f_runs c r line :
  reader_inv c r -> counts_fit c ->
  face_in_range c (sscanf line "f %d/%d/%d %d/%d/%d %d/%d/%d") ->
  i_f r + 1 <= numfaces c ->
  ∃ r',
    parse_f line r = Ok r' ∧ reader_inv c r' ∧
    i_v r' = i_v r ∧ i_n r' = i_n r ∧ i_t r' = i_t r ∧ i_f r' = i_f r + 1 ∧
    readerror r' = readerror r ∧ cerr r' = cerr r.
Proof.
  intros Hinv Hfit Hrange Hroom. unfold parse_f.
  destruct (sscanf line "f %d/%d/%d %d/%d/%d %d/%d/%d") as [|a args];
    [contradiction|].
  do 8 (destruct a as [?| |]; try contradiction;
        destruct args as [|a args]; try contradiction).
  destruct a as [?| |]; try contradiction.
  destruct args; [|contradiction].
  destruct Hrange as ((? & ? & ?) & (? & ? & ?) & (? & ? & ?)).
  destruct Hfit as (F1 & F2 & F3 & F4). int_bounds.
  cbn [ints_of_scanned int_of_scanned].
  repeat (rewrite (proj2 (in_int_spec _)), bind_Ok by lia).
  rewrite ?bind_Ok.
  apply gather_face_runs; try assumption. now repeat split.
Qed.

(** The four tags are distinct: a line bumps one counter at most. *)
Ltac by_tag line :=
  unfold room, advanced, bump, well_formed, malformed, conversions in *;
  destruct (String.eqb_spec (tag_of line) "v") as [Ev|Ev];
    [ rewrite Ev in *
    | destruct (String.eqb_spec (tag_of line) "vn") as [En|En];
      [ rewrite En in *
      | destruct (String.eqb_spec (tag_of line) "vt") as [Et|Et];
        [ rewrite Et in *
        | destruct (String.eqb_spec (tag_of line) "f") as [Ef|Ef];
          [ rewrite Ef in * | ] ] ] ];
  cbn [String.eqb Ascii.eqb Bool.eqb] in *.

(** A line whose tag is not recognized changes nothing in the second loop. *)
Lemma parse_line_unrecognized line r :
  ¬ recognized (tag_of line) -> parse_line line r = Ok r.
Proof.
  intros Hn. unfold parse_line. rewrite scan_tag_tag_of.
  unfold recognized in Hn. by_tag line; tauto.
Qed.

(** A well-formed line is read without fault and without diagnostic. *)
Lemma parse_line_well_formed c r line :
  reader_inv c r -> counts_fit c -> room c r line -> well_formed c line ->
  ∃ r', parse_line line r = Ok r' ∧ reader_inv c r' ∧ advanced line r r'.
Proof.
  intros Hinv Hfit Hroom Hwf. unfold parse_line. rewrite scan_tag_tag_of.
  by_tag line.
  - destruct Hroom as (Hr & _). destruct Hwf as [Hn _].
    destruct (parse_v_runs c r line) as (r' & E & I & ? & ? & ? & D);
      [assumption .. |].
    rewrite decide_False in D by (now intros X; apply X).
    exists r'. intuition lia.
  - destruct Hroom as (_ & Hr & _). destruct Hwf as [Hn _].
    destruct (parse_vn_runs c r line) as (r' & E & I & ? & ? & ? & D);
      [assumption .. |].
    rewrite decide_False in D by (now intros X; apply X).
    exists r'. intuition lia.
  - destruct Hroom as (_ & _ & Hr & _). destruct Hwf as [Hn _].
    destruct (parse_vt_runs c r line) as (r' & E & I & ? & ? & ? & D);
      [assumption .. |].
    rewrite decide_False in D by (now intros X; apply X).
    exists r'. intuition lia.
  - destruct Hroom as (_ & _ & _ & Hr). destruct Hwf as [_ Hrange].
    destruct (parse_f_runs c r line) as (r' & E & I & ? & ? & ? & ? & ? & ?);
      [assumption | assumption | now apply Hrange | assumption |].
    exists r'. intuition lia.
  - exists r. intuition lia.
Qed.

(** A malformed line sets [readerror] and logs one diagnostic. *)
Lemma parse_line_malformed c r line :
  reader_inv c r -> counts_fit c -> room c r line -> malformed line ->
  ∃ r' d,
    parse_line line r = Ok r' ∧ reader_inv c r' ∧
    readerror r' = 1 ∧ cerr r' = cerr r ++ [d].
Proof.
  intros Hinv Hfit Hroom (args & need & Hconv & Hn & Hints).
  unfold parse_line. rewrite scan_tag_tag_of.
  by_tag line; try discriminate; injection Hconv as <- <-.
  - destruct Hroom as (Hr & _).
    destruct (parse_v_runs c r line) as (r' & E & I & ? & ? & ? & D);
      [assumption .. |].
    rewrite decide_True in D by assumption. exists r'. eexists. intuition eauto.
  - destruct Hroom as (_ & Hr & _).
    destruct (parse_vn_runs c r line) as (r' & E & I & ? & ? & ? & D);
      [assumption .. |].
    rewrite decide_True in D by assumption. exists r'. eexists. intuition eauto.
  - destruct Hroom as (_ & _ & Hr & _).
    destruct (parse_vt_runs c r line) as (r' & E & I & ? & ? & ? & D);
      [assumption .. |].
    rewrite decide_True in D by assumption. exists r'. eexists. intuition eauto.
  - destruct Hroom as (_ & _ & _ & Hr).
    destruct (parse_f_short c r line) as (r' & E & I & ? & ?); [assumption .. |].
    exists r'. eexists. intuition eauto.
Qed.

(** ** readOBJ: the second loop *)

Lemma slack_room c r l ls : slack c r (l :: ls) -> room c r l.
Proof.
  unfold slack, room. cbn [count_tag]. intros (? & ? & ? & ?).
  pose proof (count_tag_nonneg "v" ls). pose proof (count_tag_nonneg "vn" ls).
  pose proof (count_tag_nonneg "vt" ls). pose proof (count_tag_nonneg "f" ls).
  repeat split; lia.
Qed.

Lemma slack_step c r r' l ls : slack c r (l :: ls) -> advanced l r r' -> slack c r' ls.
Proof.
  unfold slack, advanced. cbn [count_tag]. intros (? & ? & ? & ?) (? & ? & ? & ? & _).
  repeat split; lia.
Qed.

(** Well-formed lines are all read, without fault and without diagnostic. *)
Lemma second_pass_well_formed c lines :
  counts_fit c -> Forall (well_formed c) lines ->
  ∀ r, reader_inv c r -> slack c r lines -> readerror r = 0 ->
       ∃ r', second_pass lines r = Ok r' ∧ reader_inv c r' ∧
             readerror r' = 0 ∧ cerr r' = cerr r ∧
             i_f r' = i_f r + count_tag "f" lines.
Proof.
  intros Hfit. induction 1 as [|l ls Hl _ IH]; intros r Hinv Hslack Herr.
  - exists r. cbn [second_pass count_tag]. split; [reflexivity|]. split; [assumption|].
    repeat split; first [assumption | reflexivity | lia].
  - destruct (parse_line_well_formed c r l) as (r1 & E & I & A);
      [assumption | assumption | eapply slack_room; eassumption | assumption |].
    cbn [second_pass]. rewrite E, bind_Ok.
    pose proof A as (_ & _ & _ & Af & Ae & Ac).
    rewrite decide_False by lia.
    destruct (IH r1) as (r' & E' & I' & ? & ? & ?);
      [assumption | eapply slack_step; eassumption | lia |].
    exists r'. cbn [count_tag]. split; [assumption|]. split; [assumption|].
    split; [assumption|]. split; [congruence|]. lia.
Qed.

(** The first malformed line ends the loop with [readerror] set; the lines
    after it are not read. *)
Lemma second_pass_aborts c pre bad post :
  counts_fit c -> Forall (well_formed c) pre -> malformed bad ->
  ∀ r, reader_inv c r -> slack c r (pre ++ bad :: post) -> readerror r = 0 ->
       ∃ r' d, second_pass (pre ++ bad :: post) r = Ok r' ∧
               readerror r' = 1 ∧ cerr r' = cerr r ++ [d].
Proof.
  intros Hfit Hpre Hbad. induction Hpre as [|l ls Hl _ IH]; intros r Hinv Hslack Herr.
  - cbn [app] in *.
    destruct (parse_line_malformed c r bad) as (r' & d & E & I & He & Hc);
      [assumption | assumption | eapply slack_room; eassumption | assumption |].
    cbn [second_pass]. rewrite E, bind_Ok. rewrite decide_True by lia. eauto.
  - cbn [app] in *.
    destruct (parse_line_well_formed c r l) as (r1 & E & I & A);
      [assumption | assumption | eapply slack_room; eassumption | assumption |].
    cbn [second_pass]. rewrite E, bind_Ok.
    pose proof A as (_ & _ & _ & _ & Ae & Ac).
    rewrite decide_False by lia.
    destruct (IH r1) as (r' & d & E' & ? & ?);
      [assumption | eapply slack_step; eassumption | lia |].
    exists r', d. split; [assumption|]. split; [assumption|]. congruence.
Qed.

(** ** readOBJ: the whole call *)

(** After the first loop, the arrays are allocated and fit the lines. *)
Lemma readOBJ_allocates c lines (s : TriangleSoup) :
  first_pass lines counts0 = Ok c -> counts_fit c ->
  ∃ vs ns ts va ia,
    vec_resize [] (3 *! numverts c) f0 = Ok vs ∧
    vec_resize [] (3 *! numnormals c) f0 = Ok ns ∧
    vec_resize [] (2 *! numtexcoords c) f0 = Ok ts ∧
    vec_resize (vertexarray_ s) (8 *! 3 *! numfaces c) f0 = Ok va ∧
    vec_resize (indexarray_ s) (3 *! numfaces c) 0 = Ok ia ∧
    (3 *! numfaces c : outcome Z) = Ok (3 * numfaces c) ∧
    reader_inv c (mkReader vs ns ts va ia 0 0 0 0 0 []) ∧
    slack c (mkReader vs ns ts va ia 0 0 0 0 0 []) lines.
Proof.
  intros Hfirst (F1 & F2 & F3 & F4).
  apply first_pass_counts in Hfirst as (C1 & C2 & C3 & C4). cbn in C1, C2, C3, C4.
  pose proof (count_tag_nonneg "v" lines). pose proof (count_tag_nonneg "vn" lines).
  pose proof (count_tag_nonneg "vt" lines). pose proof (count_tag_nonneg "f" lines).
  int_bounds. unfold int_. int_run lia.
  rewrite !vec_resize_int by lia.
  do 5 eexists. repeat split; reader_simpl; rewrite ?len_resized by lia; lia.
Qed.

(** X15.  A file of well-formed lines is read: one triangle and three vertices
    for each face that the first loop counted, nothing on [std::cerr] and
    the counts of the first loop on [std::cout]. *)
Theorem readOBJ_well_formed
    (fs : gmap string string) (filename text : string) (s : TriangleSoup) (c : counts) :
  fs !! filename = Some text ->
  first_pass (file_lines text) counts0 = Ok c ->
  counts_fit c ->
  Forall (well_formed c) (file_lines text) ->
  ∃ m,
    readOBJ fs filename s
    = Ok (m, [],
          [Found filename (numverts c) (numnormals c) (numtexcoords c) (numfaces c)]) ∧
    ntris_ m = numfaces c ∧ nverts_ m = 3 * numfaces c ∧ mesh_wf m.
Proof.
  intros Hfile Hfirst Hfit Hwf. unfold readOBJ. rewrite Hfile.
  fold counts0. rewrite Hfirst, bind_Ok.
  destruct (readOBJ_allocates c (file_lines text) s Hfirst Hfit)
    as (vs & ns & ts & va & ia & -> & -> & -> & -> & -> & -> & Hinv & Hslack).
  rewrite !bind_Ok.
  destruct (second_pass_well_formed c _ Hfit Hwf _ Hinv Hslack eq_refl)
    as (r' & -> & Hinv' & He & Hc & _).
  rewrite bind_Ok. rewrite decide_False by lia.
  eexists. split; [now rewrite Hc|].
  destruct Hinv'. unfold mesh_wf. cbn. repeat split; lia.
Qed.

(** The first malformed line aborts the import. *)
Lemma readOBJ_aborts
    (fs : gmap string string) (filename text : string) (s : TriangleSoup) (c : counts)
    (pre post : list string) (bad : string) :
  fs !! filename = Some text ->
  file_lines text = pre ++ bad :: post ->
  first_pass (file_lines text) counts0 = Ok c ->
  counts_fit c ->
  Forall (well_formed c) pre ->
  malformed bad ->
  ∃ d, readOBJ fs filename s
       = Ok (TriangleSoup_new, [d; Mesh_read_error],
             [Found filename (numverts c) (numnormals c) (numtexcoords c) (numfaces c)]).
Proof.
  intros Hfile Hlines Hfirst Hfit Hpre Hbad. unfold readOBJ. rewrite Hfile.
  fold counts0. rewrite Hfirst, bind_Ok.
  destruct (readOBJ_allocates c (file_lines text) s Hfirst Hfit)
    as (vs & ns & ts & va & ia & -> & -> & -> & -> & -> & -> & Hinv & Hslack).
  rewrite !bind_Ok. rewrite Hlines in *.
  destruct (second_pass_aborts c pre bad post Hfit Hpre Hbad _ Hinv Hslack eq_refl)
    as (r' & d & -> & He & Hc).
  rewrite bind_Ok. rewrite decide_True by lia.
  exists d. now rewrite Hc.
Qed.

(** ** readOBJ: sizes, whenever it returns *)

Lemma vec_addr_Ok {A : Type} id (v : list A) i k :
  vec_addr id v i = Ok k -> i = Ok k ∧ 0 <= k < len v.
Proof.
  unfold vec_addr. intros H. bind_inv H. subst i. case_decide; [|discriminate].
  injection H as <-. auto.
Qed.

Lemma Ok_inj {A : Type} (x y : A) : Ok x = Ok y -> x = y.
Proof. now intros [= ->]. Qed.

Lemma parse_v_sizes line r r' : parse_v line r = Ok r' -> same_sizes r r'.
Proof.
  unfold parse_v. intros H. do 3 bind_inv H.
  case_decide; bind_inv H; apply Ok_inj in H; subst r'.
  all: repeat split; reader_simpl; rewrite ?len_assign_floats; reflexivity.
Qed.

Lemma parse_vn_sizes line r r' : parse_vn line r = Ok r' -> same_sizes r r'.
Proof.
  unfold parse_vn. intros H. do 3 bind_inv H.
  case_decide; bind_inv H; apply Ok_inj in H; subst r'.
  all: repeat split; reader_simpl; rewrite ?len_assign_floats; reflexivity.
Qed.

Lemma parse_vt_sizes line r r' : parse_vt line r = Ok r' -> same_sizes r r'.
Proof.
  unfold parse_vt. intros H. do 2 bind_inv H.
  case_decide; bind_inv H; apply Ok_inj in H; subst r'.
  all: repeat split; reader_simpl; rewrite ?len_assign_floats; reflexivity.
Qed.

Lemma parse_f_sizes line r r' : parse_f line r = Ok r' -> same_sizes r r'.
Proof.
  unfold parse_f. intros H. bind_inv H as ints Hints.
  destruct (decide (length ints = 9%nat)) as [E|E].
  - do 9 (destruct ints as [|? ints]; [discriminate E|]).
    destruct ints; [|discriminate E].
    now apply gather_face_sizes in H.
  - rewrite not_nine in H by assumption. bind_inv H. injection H as <-.
    repeat split.
Qed.

Lemma parse_line_sizes line r r' : parse_line line r = Ok r' -> same_sizes r r'.
Proof.
  unfold parse_line. rewrite scan_tag_tag_of. intros H.
  repeat (destruct (String.eqb (tag_of line) _);
          [eauto using parse_v_sizes, parse_vn_sizes, parse_vt_sizes, parse_f_sizes|]).
  injection H as <-. apply same_sizes_refl.
Qed.

Lemma second_pass_sizes lines : ∀ r r', second_pass lines r = Ok r' -> same_sizes r r'.
Proof.
  induction lines as [|l ls IH]; intros r r' H; cbn [second_pass] in H.
  - injection H as <-. apply same_sizes_refl.
  - bind_inv H as r1 H1. apply parse_line_sizes in H1.
    case_decide.
    + injection H as <-. assumption.
    + eapply same_sizes_trans; eauto.
Qed.

(** Whenever [readOBJ] returns, the mesh invariant holds as it held before
    the call; when the file was opened it holds in any case. *)
Lemma readOBJ_mesh_wf fs filename s m log out :
  readOBJ fs filename s = Ok (m, log, out) ->
  mesh_wf s ∨ is_Some (fs !! filename) -> mesh_wf m.
Proof.
  unfold readOBJ. intros H Hpre.
  destruct (fs !! filename) as [text|] eqn:Hfile.
  - clear Hpre. bind_inv H as c Hc.
    bind_inv H as vs Hvs. bind_inv H as ns Hns. bind_inv H as ts Hts.
    bind_inv H as va Hva. bind_inv H as ia Hia. bind_inv H as nverts Hnv.
    bind_inv H as r Hr.
    apply vec_resize_Ok in Hva as (n8 & Hn8 & _ & Lva).
    apply vec_resize_Ok in Hia as (n3 & Hn3 & _ & Lia).
    unfold int_ in *. int_inv.
    apply second_pass_sizes in Hr as (_ & _ & _ & Sva & Sia).
    cbn [r_vertexarray r_indexarray] in Sva, Sia.
    case_decide; injection H as <- <- <-; unfold mesh_wf; cbn; [split; reflexivity|].
    split; lia.
  - injection H as <- <- <-. destruct Hpre as [Hs | [? Hx]]; [assumption | discriminate].
Qed.

(** C5.  Every object that the constructor and the operations of the class
    produce has three indices per triangle and eight floats per vertex:
    after [createTriangle], [createBox], [createSphere] and [readOBJ] (and
    [clean]) the index array has [3 * ntris_] entries and the vertex array
    [8 * nverts_]. *)
Theorem generated_mesh_sizes (s : TriangleSoup) :
  reachable s ->
  len (indexarray_ s) = 3 * ntris_ s ∧ len (vertexarray_ s) = 8 * nverts_ s.
Proof.
  induction 1 as [ | s _ _ | s s' _ _ H | x y z s s' _ _ H
                 | radius segments s s' _ _ H | fs filename s s' log out _ IH H ].
  - split; reflexivity.
  - split; reflexivity.
  - rewrite createTriangle_spec in H. injection H as <-. split; reflexivity.
  - rewrite createBox_spec in H. injection H as <-. split; reflexivity.
  - apply createSphere_Ok in H as (_ & _ & Hva & Hia & _). split; assumption.
  - eapply readOBJ_mesh_wf; [exact H | left; exact IH].
Qed.

(** ** readOBJ: reads of the temporary arrays *)

(** An outcome that is visibly no read fault. *)
Ltac not_load :=
  let a := fresh "a" in let E := fresh "E" in intros [a E]; discriminate E.

Section load_faults.
Context {A B : Type}.

Lemma no_fault_Ok (x : A) : ¬ load_fault (Ok x).
Proof. not_load. Qed.

Lemma no_fault_bind (m : outcome A) (k : A -> outcome B) :
  ¬ load_fault m -> (∀ x, m = Ok x -> ¬ load_fault (k x)) -> ¬ load_fault (m ≫= k).
Proof.
  intros Hm Hk. destruct m as [x|f|e]; cbn.
  - now apply Hk.
  - intros [a H]. apply Hm. exists a. injection H as ->. reflexivity.
  - not_load.
Qed.
End load_faults.

Section vector_load_faults.
Context {A : Type}.

Lemma no_fault_resize (v : list A) n d : ¬ load_fault n -> ¬ load_fault (vec_resize v n d).
Proof.
  intros Hn. unfold vec_resize. apply no_fault_bind; [assumption|].
  intros k _. case_decide; [not_load | apply no_fault_Ok].
Qed.

Lemma no_fault_store id (v : list A) i x : ¬ load_fault i -> ¬ load_fault (vec_store id v i x).
Proof.
  intros Hi. unfold vec_store. apply no_fault_bind; [assumption|].
  intros k _. case_decide; [apply no_fault_Ok | not_load].
Qed.

Lemma no_fault_addr id (v : list A) i : ¬ load_fault i -> ¬ load_fault (vec_addr id v i).
Proof.
  intros Hi. unfold vec_addr. apply no_fault_bind; [assumption|].
  intros k _. case_decide; [apply no_fault_Ok | not_load].
Qed.

(** A read within the array is no fault. *)
Lemma no_fault_load id (v : list A) i :
  ¬ load_fault i -> (∀ k, i = Ok k -> 0 <= k < len v) -> ¬ load_fault (vec_load id v i).
Proof.
  intros Hi Hk. unfold vec_load. apply no_fault_bind; [assumption|].
  intros k E. specialize (Hk k E).
  destruct (decide (0 <= k)); [|lia].
  destruct (lookup_lt_is_Some_2 v (Z.to_nat k)) as [x ->]; [unfold len in Hk; lia|].
  apply no_fault_Ok.
Qed.
End vector_load_faults.

Lemma no_fault_checked z : ¬ load_fault (checked z).
Proof. unfold checked. destruct (in_int z); not_load. Qed.

Lemma no_fault_iadd a b : ¬ load_fault a -> ¬ load_fault b -> ¬ load_fault (a +! b).
Proof.
  intros Ha Hb. unfold iadd. apply no_fault_bind; [assumption|]. intros x _.
  apply no_fault_bind; [assumption|]. intros y _. apply no_fault_checked.
Qed.

Lemma no_fault_isub a b : ¬ load_fault a -> ¬ load_fault b -> ¬ load_fault (a -! b).
Proof.
  intros Ha Hb. unfold isub. apply no_fault_bind; [assumption|]. intros x _.
  apply no_fault_bind; [assumption|]. intros y _. apply no_fault_checked.
Qed.

Lemma no_fault_imul a b : ¬ load_fault a -> ¬ load_fault b -> ¬ load_fault (a *! b).
Proof.
  intros Ha Hb. unfold imul. apply no_fault_bind; [assumption|]. intros x _.
  apply no_fault_bind; [assumption|]. intros y _. apply no_fault_checked.
Qed.

(** An int expression cannot end in a read fault. *)
Ltac no_int_fault :=
  lazymatch goal with
  | |- ¬ load_fault (_ +! _) => apply no_fault_iadd; no_int_fault
  | |- ¬ load_fault (_ -! _) => apply no_fault_isub; no_int_fault
  | |- ¬ load_fault (_ *! _) => apply no_fault_imul; no_int_fault
  | |- ¬ load_fault (Ok _) => apply no_fault_Ok
  | |- ¬ load_fault (int_ _) => apply no_fault_Ok
  end.

Lemma no_fault_store_index ia idx val :
  ¬ load_fault idx -> ¬ load_fault val -> ¬ load_fault (store_index ia idx val).
Proof.
  intros Hi Hv. unfold store_index. apply no_fault_bind; [assumption|].
  intros v _. now apply no_fault_store.
Qed.

Lemma no_fault_copy id src si va di :
  ¬ load_fault si -> ¬ load_fault di -> (∀ k, si = Ok k -> 0 <= k < len src) ->
  ¬ load_fault (copy_elem id src si va di).
Proof.
  intros Hs Hd Hk. unfold copy_elem. apply no_fault_bind.
  - now apply no_fault_load.
  - intros x _. now apply no_fault_store.
Qed.

Lemma temps_sized_same c r r' : same_sizes r r' -> temps_sized c r -> temps_sized c r'.
Proof. unfold same_sizes, temps_sized. intuition congruence. Qed.

(** The reads of a face whose indices are within the counts are all within
    the temporary arrays. *)
Lemma gather_face_reads c r v1 t1 n1 v2 t2 n2 v3 t3 n3 :
  temps_sized c r ->
  1 <= v1 <= numverts c -> 1 <= v2 <= numverts c -> 1 <= v3 <= numverts c ->
  1 <= t1 <= numtexcoords c -> 1 <= t2 <= numtexcoords c -> 1 <= t3 <= numtexcoords c ->
  1 <= n1 <= numnormals c -> 1 <= n2 <= numnormals c -> 1 <= n3 <= numnormals c ->
  ¬ load_fault (gather_face r v1 t1 n1 v2 t2 n2 v3 t3 n3).
Proof.
  intros (Hvs & Hns & Hts). intros. unfold gather_face, int_.
  do 10 (apply no_fault_bind; [no_int_fault|];
         let x := fresh "x" in let Hx := fresh "Hx" in intros x Hx; int_inv).
  do 24 (apply no_fault_bind;
         [ apply no_fault_copy;
           [ no_int_fault | no_int_fault
           | let k := fresh "k" in let Hk := fresh "Hk" in intros k Hk; int_inv; lia ]
         | let x := fresh "va" in intros x _ ]).
  do 3 (apply no_fault_bind;
        [ apply no_fault_store_index; no_int_fault | let x := fresh "ia" in intros x _ ]).
  apply no_fault_bind; [no_int_fault|]. intros n _. apply no_fault_Ok.
Qed.

Lemma no_fault_ints_of_scanned args : ¬ load_fault (ints_of_scanned args).
Proof.
  induction args as [|x args IH]; cbn [ints_of_scanned]; [apply no_fault_Ok|].
  apply no_fault_bind.
  - destruct x as [z| |]; cbn; [destruct (in_int z)|..];
      first [apply no_fault_Ok | not_load].
  - intros z _. apply no_fault_bind; [assumption|]. intros zs _. apply no_fault_Ok.
Qed.

Lemma ints_of_scanned_length args ints :
  ints_of_scanned args = Ok ints -> length ints = length args.
Proof.
  revert ints. induction args as [|x args IH]; intros ints H; cbn [ints_of_scanned] in H.
  - now injection H as <-.
  - bind_inv H as z Hz. bind_inv H as zs Hzs. injection H as <-.
    cbn. f_equal. now apply IH.
Qed.

Lemma ints_of_scanned_cons z args ints :
  ints_of_scanned (S_int z :: args) = Ok ints ->
  ∃ zs, ints = z :: zs ∧ ints_of_scanned args = Ok zs.
Proof.
  cbn [ints_of_scanned int_of_scanned]. intros H.
  destruct (in_int z); [|discriminate]. rewrite bind_Ok in H.
  bind_inv H as zs Hzs. injection H as <-. eauto.
Qed.

Lemma parse_f_reads c r line :
  temps_sized c r ->
  (numargs_of (sscanf line "f %d/%d/%d %d/%d/%d %d/%d/%d") = 9 ->
   face_in_range c (sscanf line "f %d/%d/%d %d/%d/%d %d/%d/%d")) ->
  ¬ load_fault (parse_f line r).
Proof.
  intros Hsz Hrange. unfold parse_f.
  apply no_fault_bind; [apply no_fault_ints_of_scanned|]. intros ints Hints.
  destruct (decide (length ints = 9%nat)) as [E|E].
  - pose proof (ints_of_scanned_length _ _ Hints) as L.
    assert (Hr : face_in_range c (sscanf line "f %d/%d/%d %d/%d/%d %d/%d/%d"))
      by (apply Hrange; unfold numargs_of, len; lia).
    clear Hrange L E.
    destruct (sscanf line "f %d/%d/%d %d/%d/%d %d/%d/%d") as [|a args];
      [contradiction|].
    do 8 (destruct a as [?| |]; try contradiction;
          destruct args as [|a args]; try contradiction).
    destruct a as [?| |]; try contradiction.
    destruct args; [|contradiction].
    destruct Hr as ((? & ? & ?) & (? & ? & ?) & (? & ? & ?)).
    do 9 (apply ints_of_scanned_cons in Hints as (? & -> & Hints)).
    injection Hints as <-.
    now apply (gather_face_reads c).
  - rewrite not_nine by assumption.
    apply no_fault_bind; [unfold int_; no_int_fault|]. intros n _. apply no_fault_Ok.
Qed.

Lemma parse_floats_reads (r : reader) id (v : list GLfloat) (i : Z) (k : Z -> outcome reader) :
  (∀ p, ¬ load_fault (k p)) -> ¬ load_fault (p ←int vec_addr id v (Ok i); k p).
Proof.
  intros Hk. apply no_fault_bind; [apply no_fault_addr, no_fault_Ok | intros p _; apply Hk].
Qed.

Lemma parse_v_reads line r : ¬ load_fault (parse_v line r).
Proof.
  unfold parse_v, int_.
  do 3 (apply no_fault_bind; [apply no_fault_addr; no_int_fault | intros ? _]).
  case_decide; (apply no_fault_bind; [no_int_fault | intros ? _; apply no_fault_Ok]).
Qed.

Lemma parse_vn_reads line r : ¬ load_fault (parse_vn line r).
Proof.
  unfold parse_vn, int_.
  do 3 (apply no_fault_bind; [apply no_fault_addr; no_int_fault | intros ? _]).
  case_decide; (apply no_fault_bind; [no_int_fault | intros ? _; apply no_fault_Ok]).
Qed.

Lemma parse_vt_reads line r : ¬ load_fault (parse_vt line r).
Proof.
  unfold parse_vt, int_.
  do 2 (apply no_fault_bind; [apply no_fault_addr; no_int_fault | intros ? _]).
  case_decide; (apply no_fault_bind; [no_int_fault | intros ? _; apply no_fault_Ok]).
Qed.

Lemma parse_line_reads c r line :
  temps_sized c r -> face_indices_in_range c line -> ¬ load_fault (parse_line line r).
Proof.
  intros Hsz Hface. unfold parse_line. rewrite scan_tag_tag_of.
  unfold face_indices_in_range in Hface.
  destruct (String.eqb (tag_of line) "v"); [apply parse_v_reads|].
  destruct (String.eqb (tag_of line) "vn"); [apply parse_vn_reads|].
  destruct (String.eqb (tag_of line) "vt"); [apply parse_vt_reads|].
  destruct (String.eqb_spec (tag_of line) "f") as [E|_]; [|apply no_fault_Ok].
  apply (parse_f_reads c); [assumption | now apply Hface].
Qed.

Lemma second_pass_reads c lines :
  Forall (face_indices_in_range c) lines ->
  ∀ r, temps_sized c r -> ¬ load_fault (second_pass lines r).
Proof.
  induction 1 as [|l ls Hl _ IH]; intros r Hsz; cbn [second_pass].
  - apply no_fault_Ok.
  - apply no_fault_bind; [now apply (parse_line_reads c)|].
    intros r1 H1. case_decide; [apply no_fault_Ok|].
    apply IH. eapply temps_sized_same; [|exact Hsz]. exact (parse_line_sizes l r r1 H1).
Qed.

(** C9.  [readOBJ] has no range check on face indices.  When every face
    line on which nine indices are converted has them within the counts of
    the first loop, no read of [verts], [normals] or [texcoords] is outside
    the array.  An index above the count is not rejected: in the file of
    one vertex whose face names vertex 2, the call reads [verts[3]] of a
    three-element array. *)
Theorem face_indices_unchecked :
  (∀ (fs : gmap string string) (filename text : string) (s : TriangleSoup) (c : counts),
     fs !! filename = Some text ->
     first_pass (file_lines text) (mkCounts None 0 0 0 0) = Ok c ->
     Forall (face_indices_in_range c) (file_lines text) ->
     ∀ a, readOBJ fs filename s ≠ Undefined (OutOfBounds a Load)) ∧
  (first_pass (file_lines obj_face_out_of_range) (mkCounts None 0 0 0 0)
   = Ok (mkCounts (Some "f"%string) 1 1 1 1) ∧
   sscanf "f 1/1/1 2/1/1 1/1/1" "f %d/%d/%d %d/%d/%d %d/%d/%d"
   = [S_int 1; S_int 1; S_int 1; S_int 2; S_int 1; S_int 1; S_int 1; S_int 1; S_int 1] ∧
   readOBJ {[ "one.obj"%string := obj_face_out_of_range ]} "one.obj" TriangleSoup_new
   = Undefined (OutOfBounds A_verts Load)).
Proof.
  split.
  - intros fs filename text s c Hfile Hfirst Hfaces a Hread.
    assert (Hfault : load_fault (readOBJ fs filename s)) by (now exists a).
    revert Hfault. clear a Hread. unfold readOBJ. rewrite Hfile, Hfirst, bind_Ok.
    unfold int_.
    apply no_fault_bind; [apply no_fault_resize; no_int_fault | intros vs Hvs].
    apply no_fault_bind; [apply no_fault_resize; no_int_fault | intros ns Hns].
    apply no_fault_bind; [apply no_fault_resize; no_int_fault | intros ts Hts].
    apply no_fault_bind; [apply no_fault_resize; no_int_fault | intros va _].
    apply no_fault_bind; [apply no_fault_resize; no_int_fault | intros ia _].
    apply no_fault_bind; [no_int_fault | intros nverts _].
    apply vec_resize_Ok in Hvs as (kv & Hkv & _ & Lv).
    apply vec_resize_Ok in Hns as (kn & Hkn & _ & Ln).
    apply vec_resize_Ok in Hts as (kt & Hkt & _ & Lt).
    int_inv.
    apply no_fault_bind.
    + apply (second_pass_reads c); [assumption|]. now repeat split.
    + intros r _. case_decide; apply no_fault_Ok.
  - repeat split; vm_compute; reflexivity.
Qed.

Lemma face_indices_unchecked_witness :
  readOBJ {[ "tri.obj"%string := obj_triangle ]} "tri.obj" TriangleSoup_new
  ≠ Undefined (OutOfBounds A_verts Load).
Proof.
  apply (proj1 face_indices_unchecked {[ "tri.obj"%string := obj_triangle ]}
           "tri.obj"%string obj_triangle TriangleSoup_new
           (mkCounts (Some "f"%string) 3 1 1 1)).
  - reflexivity.
  - vm_compute. reflexivity.
  - vm_compute file_lines.
    repeat (constructor; [intros Ht Hn; vm_compute in Ht; try discriminate Ht|]).
    + vm_compute. repeat split; discriminate.
    + constructor.
Defined.

(** ** readOBJ: malformed lines, extra fields and quads *)

(** The input item of [%f]: the longest prefix of the input that is, or
    is a prefix of, a subject sequence of [strtod] (decimal, hexadecimal,
    infinity and NaN forms); an item that is a proper prefix only, such as
    [0x], [1e] or [infi], is a matching failure and ends the call. *)
Section float_forms.
Local Open Scope string_scope.

Example scan_f_forms :
  scan_f "0x1.8p-2 rest" = Some (FScan "0x1.8p-2", " rest") ∧
  scan_f "-INFINITY!" = Some (FScan "-INFINITY", "!") ∧
  scan_f "inf" = Some (FScan "inf", "") ∧
  scan_f "NaN(ab_1)x" = Some (FScan "NaN(ab_1)", "x") ∧
  scan_f "  +.5e3f" = Some (FScan "+.5e3", "f") ∧
  scan_f "0x" = None ∧ scan_f "0x.p1" = None ∧ scan_f "1e" = None ∧ scan_f "1e+" = None ∧
  scan_f "infi" = None ∧ scan_f "nan(1.5)" = None ∧ scan_f "." = None ∧ scan_f "-" = None ∧
  sscanf "v 1 2 0x" "v %f %f %f" = [S_float (FScan "1"); S_float (FScan "2")] ∧
  sscanf "v 0x10 inf nan" "v %f %f %f"
  = [S_float (FScan "0x10"); S_float (FScan "inf"); S_float (FScan "nan")].
Proof. vm_compute. repeat split. Qed.

End float_forms.

(** [sscanf] converts at most as many fields as the format has conversions. *)
Lemma run_directives_at_most ds input :
  (length (run_directives ds input) <= conversion_count ds)%nat.
Proof.
  revert input. induction ds as [|d ds IH]; intros input; [reflexivity|].
  destruct d; cbn [run_directives conversion_count].
  - apply IH.
  - destruct input as [|c' r]; [cbn; lia|]. destruct (Ascii.eqb c c'); [apply IH | cbn; lia].
  - destruct (scan_d input) as [[z r]|]; cbn; [specialize (IH r)|]; lia.
  - destruct (scan_f input) as [[x r]|]; cbn; [specialize (IH r)|]; lia.
  - destruct (scan_s w input) as [[t r]|]; cbn; [specialize (IH r)|]; lia.
Qed.

Lemma sscanf_at_most line fmt :
  numargs_of (sscanf line fmt) <= Z.of_nat (conversion_count (parse_format fmt)).
Proof.
  unfold numargs_of, len, sscanf.
  pose proof (run_directives_at_most (parse_format fmt) (c_str line)). lia.
Qed.

(** On a recognized line the number of converted fields never exceeds the
    required one: a malformed line is a line with too few. *)
Lemma conversions_at_most line args need :
  conversions line = Some (args, need) -> numargs_of args <= need.
Proof.
  unfold conversions. intros H.
  destruct (String.eqb (tag_of line) "v").
  { injection H as <- <-. exact (sscanf_at_most line "v %f %f %f"). }
  destruct (String.eqb (tag_of line) "vn").
  { injection H as <- <-. exact (sscanf_at_most line "vn %f %f %f"). }
  destruct (String.eqb (tag_of line) "vt").
  { injection H as <- <-. exact (sscanf_at_most line "vt %f %f"). }
  destruct (String.eqb (tag_of line) "f").
  { injection H as <- <-. exact (sscanf_at_most line "f %d/%d/%d %d/%d/%d %d/%d/%d"). }
  discriminate.
Qed.

(** C6, as the code has it.  A recognized line on which fewer fields than
    required are converted aborts the import when the second loop reaches
    it: one diagnostic for the line and the read error are written to
    [std::cerr], after the counts of the first loop on [std::cout], and the
    mesh is empty, whatever the object held and whatever follows the line.
    A line whose tag is not recognized changes nothing in the second loop,
    and in the first loop it changes no counter. *)
Theorem malformed_line_aborts :
  (∀ (fs : gmap string string) (filename text : string) (s : TriangleSoup) (c : counts)
     (pre post : list string) (bad : string),
     fs !! filename = Some text ->
     file_lines text = pre ++ bad :: post ->
     first_pass (file_lines text) (mkCounts None 0 0 0 0) = Ok c ->
     counts_fit c ->
     Forall (well_formed c) pre ->
     malformed bad ->
     ∃ m d,
       readOBJ fs filename s
       = Ok (m, [d; Mesh_read_error],
             [Found filename (numverts c) (numnormals c) (numtexcoords c) (numfaces c)]) ∧
       mesh_empty m) ∧
  (∀ (line : string) (r : reader),
     ¬ recognized (tag_of line) -> parse_line line r = Ok r) ∧
  (∀ (line : string) (c : counts),
     tag_of line ≠ EmptyString -> ¬ recognized (tag_of line) ->
     count_line line c
     = Ok (mkCounts (Some (tag_of line))
             (numverts c) (numnormals c) (numtexcoords c) (numfaces c))).
Proof.
  split; [|split].
  - intros fs filename text s c pre post bad Hfile Hlines Hfirst Hfit Hpre Hbad.
    destruct (readOBJ_aborts fs filename text s c pre post bad) as [d Hd];
      try assumption.
    exists TriangleSoup_new, d. split; [exact Hd | now repeat split].
  - apply parse_line_unrecognized.
  - intros line c Htag Hn. unfold count_line.
    rewrite (scan_tag_fresh line (c_tag c) Htag).
    unfold recognized in Hn.
    destruct (String.eqb_spec (tag_of line) "v"); [tauto|].
    destruct (String.eqb_spec (tag_of line) "vn"); [tauto|].
    destruct (String.eqb_spec (tag_of line) "vt"); [tauto|].
    destruct (String.eqb_spec (tag_of line) "f"); [tauto|].
    reflexivity.
Qed.

Lemma malformed_line_aborts_witness :
  ∃ m d,
    readOBJ {[ "bad.obj"%string := obj_missing_coordinate ]} "bad.obj"
      (mkSoup 3 1 triangle_vertex_array_data triangle_index_array_data)
    = Ok (m, [d; Mesh_read_error], [Found "bad.obj" 3 1 1 1]) ∧ mesh_empty m.
Proof.
  apply (proj1 malformed_line_aborts _ _ obj_missing_coordinate _
           (mkCounts (Some "f"%string) 3 1 1 1)
           ["# a triangle
"; "v 0 0 0
"; "v 1 0 0
"]%string
           ["vn 0 0 1
"; "vt 0 0
"; "f 1/1/1 2/1/1 3/1/1
"]%string
           "v 0 1
"%string).
  - reflexivity.
  - vm_compute. reflexivity.
  - vm_compute. reflexivity.
  - vm_compute. repeat split; discriminate.
  - repeat (apply List.Forall_cons;
            [vm_compute; first [exact I | split; [reflexivity | discriminate]]|]).
    apply List.Forall_nil.
  - eexists _, _. split; [vm_compute; reflexivity|].
    split; [vm_compute; discriminate|]. repeat constructor.
Defined.

(** C6 as stated fails: the vertex line [v 0 0 0 1] has four fields where
    three are required; the import neither aborts nor writes to
    [std::cerr], and the mesh has its triangle. *)
Lemma extra_field_is_accepted :
  tag_of "v 0 0 0 1
" = "v"%string ∧
  field_count "v 0 0 0 1
" = 4 ∧
  file_lines obj_extra_coordinate !! 0%nat = Some "v 0 0 0 1
"%string ∧
  ∃ m,
    readOBJ {[ "w.obj"%string := obj_extra_coordinate ]} "w.obj" TriangleSoup_new
    = Ok (m, [], [Found "w.obj" 3 1 1 1]) ∧
    nverts_ m = 3 ∧ ntris_ m = 1 ∧ ¬ mesh_empty m.
Proof.
  split; [vm_compute; reflexivity|]. split; [vm_compute; reflexivity|].
  split; [vm_compute; reflexivity|].
  eexists. split; [vm_compute; reflexivity|].
  split; [reflexivity|]. split; [reflexivity|].
  intros (H & _). discriminate H.
Qed.

(** C2 on the code.  A face line with four index triples is not rejected:
    [sscanf] converts the first nine numbers and returns 9, the face is
    read as the triangle of its first three corners and nothing is written
    to [std::cerr]; the result is the one of the file that gives these
    three corners only. *)
Theorem quad_face_is_accepted :
  field_count "f 1/1/1 2/2/2 3/3/3 4/4/4
" = 4 ∧
  numargs_of (sscanf "f 1/1/1 2/2/2 3/3/3 4/4/4
" "f %d/%d/%d %d/%d/%d %d/%d/%d") = 9 ∧
  (∃ m,
     readOBJ {[ "quad.obj"%string := obj_quad ]} "quad.obj" TriangleSoup_new
     = Ok (m, [], [Found "quad.obj" 4 4 4 1]) ∧
     nverts_ m = 3 ∧ ntris_ m = 1 ∧ indexarray_ m = [0; 1; 2] ∧ ¬ mesh_empty m) ∧
  readOBJ {[ "quad.obj"%string := obj_quad ]} "quad.obj" TriangleSoup_new
  = readOBJ {[ "quad.obj"%string := obj_quad_as_triangle ]} "quad.obj" TriangleSoup_new.
Proof.
  split; [vm_compute; reflexivity|]. split; [vm_compute; reflexivity|]. split.
  - eexists. split; [vm_compute; reflexivity|].
    repeat split. intros (H & _). discriminate H.
  - vm_compute. reflexivity.
Qed.

(** The four generators one after the other. *)
Lemma generated_mesh_sizes_witness :
  ∃ s1 s2 s3 s4 log out,
    createTriangle TriangleSoup_new = Ok s1 ∧
    createBox f1 f1 f1 s1 = Ok s2 ∧
    createSphere f1 2 s2 = Ok s3 ∧
    readOBJ {[ "quad.obj"%string := obj_quad_as_triangle ]} "quad.obj" s3
    = Ok (s4, log, out) ∧
    len (indexarray_ s4) = 3 * ntris_ s4 ∧ len (vertexarray_ s4) = 8 * nverts_ s4.
Proof.
  eexists _, _, _, _, _, _.
  split; [vm_compute; reflexivity|]. split; [vm_compute; reflexivity|].
  split; [vm_compute; reflexivity|]. split; [vm_compute; reflexivity|].
  apply generated_mesh_sizes.
  eapply (reach_readOBJ {[ "quad.obj"%string := obj_quad_as_triangle ]} "quad.obj"%string);
    [ eapply (reach_createSphere f1 2);
        [ eapply (reach_createBox f1 f1 f1);
            [ eapply reach_createTriangle; [apply reach_new | vm_compute; reflexivity]
            | vm_compute; reflexivity ]
        | vm_compute; reflexivity ]
    | vm_compute; reflexivity ].
Defined.

(** ** loadUncompressedTGA *)

Section tga_facts.
Import Texture.

Lemma u8_range b : 0 <= u8 b <= 255.
Proof. unfold u8. pose proof (Byte.to_N_bounded b). lia. Qed.

End tga_facts.

(** ** The swap loop and the header *)

Lemma stride_loop_app {S : Type} (body : Z -> S -> outcome S) step n m c s :
  Texture.stride_loop (n + m) c step body s
  = s' ← Texture.stride_loop n c step body s;
    Texture.stride_loop m (c + step * Z.of_nat n) step body s'.
Proof.
  revert c s. induction n as [|n IH]; intros c s.
  - cbn. f_equal. lia.
  - cbn [Nat.add Texture.stride_loop]. destruct (body c s) as [t|f|e]; cbn; try reflexivity.
    rewrite IH. destruct (Texture.stride_loop n (c + step) step body t); cbn; try reflexivity.
    f_equal. lia.
Qed.

Lemma stride_loop_preserves {S : Type} (P : S -> Prop) (body : Z -> S -> outcome S) step :
  (∀ c t t', P t -> body c t = Ok t' -> P t') ->
  ∀ n c s r, P s -> Texture.stride_loop n c step body s = Ok r -> P r.
Proof.
  intros Hbody. induction n as [|n IH]; intros c s r Hs H; cbn in H.
  - now injection H as <-.
  - bind_inv H as t Ht. eapply IH; [|exact H]. eapply Hbody; eauto.
Qed.

Ltac len_solve :=
  unfold len in *; rewrite ?length_insert, ?length_app; cbn [length]; lia.

(** [std::swap] of two elements of a vector, read off the list. *)
Lemma swap_at (pre : list byte) (x y z : byte) (rest : list byte) :
  Texture.swap (pre ++ x :: y :: z :: rest) (len pre) (len pre + 2)
  = Ok (pre ++ z :: y :: x :: rest).
Proof.
  unfold Texture.swap, int_, len.
  assert (H0 : (pre ++ x :: y :: z :: rest) !! Z.to_nat (Z.of_nat (length pre)) = Some x).
  { rewrite Nat2Z.id, lookup_app_r, Nat.sub_diag by lia. reflexivity. }
  assert (H2 : (pre ++ x :: y :: z :: rest) !! Z.to_nat (Z.of_nat (length pre) + 2) = Some z).
  { replace (Z.to_nat (Z.of_nat (length pre) + 2)) with (length pre + 2)%nat by lia.
    rewrite lookup_app_r by lia.
    replace (length pre + 2 - length pre)%nat with 2%nat by lia. reflexivity. }
  rewrite (vec_load_int _ _ (Z.of_nat (length pre)) x), bind_Ok by (assumption || lia).
  rewrite (vec_load_int _ _ (Z.of_nat (length pre) + 2) z), bind_Ok by (assumption || lia).
  rewrite vec_store_int, bind_Ok by len_solve.
  rewrite vec_store_int by len_solve.
  f_equal.
  rewrite Nat2Z.id. replace (Z.to_nat (Z.of_nat (length pre) + 2)) with (length pre + 2)%nat by lia.
  rewrite insert_app_r_alt, Nat.sub_diag by lia. cbn [list_insert].
  rewrite insert_app_r_alt by lia.
  replace (length pre + 2 - length pre)%nat with 2%nat by lia. reflexivity.
Qed.

(** The swap loop over whole 3-byte pixels is [bgr_to_rgb]; what follows
    them is left as it is. *)
Lemma swap_loop_rgb_spec :
  ∀ (n : nat) (pre rest tail : list byte),
    length rest = (3 * n)%nat ->
    Texture.stride_loop n (len pre) 3
      (fun cswap d => Texture.swap d cswap (cswap + 2)) (pre ++ rest ++ tail)
    = Ok (pre ++ bgr_to_rgb rest ++ tail).
Proof.
  induction n as [|n IH]; intros pre rest tail Hlen.
  - destruct rest; [reflexivity | discriminate].
  - destruct rest as [|b [|g [|r rest]]]; try (cbn in Hlen; lia).
    cbn [Texture.stride_loop bgr_to_rgb app]. rewrite swap_at, bind_Ok.
    replace (len pre + 3) with (len (pre ++ [r; g; b]))
      by len_solve.
    replace (pre ++ r :: g :: b :: rest ++ tail) with ((pre ++ [r; g; b]) ++ rest ++ tail)
      by (now rewrite <- app_assoc).
    rewrite IH by (cbn in Hlen; lia).
    now rewrite <- app_assoc.
Qed.

(** The swap loop over whole 4-byte pixels is [bgra_to_rgba]. *)
Lemma swap_loop_rgba_spec :
  ∀ (n : nat) (pre rest : list byte),
    length rest = (4 * n)%nat ->
    Texture.stride_loop n (len pre) 4
      (fun cswap d => Texture.swap d cswap (cswap + 2)) (pre ++ rest)
    = Ok (pre ++ bgra_to_rgba rest).
Proof.
  induction n as [|n IH]; intros pre rest Hlen.
  - destruct rest; [reflexivity | discriminate].
  - destruct rest as [|b [|g [|r [|a rest]]]]; try (cbn in Hlen; lia).
    cbn [Texture.stride_loop bgra_to_rgba]. rewrite swap_at, bind_Ok.
    replace (len pre + 4) with (len (pre ++ [r; g; b; a]))
      by len_solve.
    replace (pre ++ r :: g :: b :: a :: rest) with ((pre ++ [r; g; b; a]) ++ rest)
      by (now rewrite <- app_assoc).
    rewrite IH by (cbn in Hlen; lia).
    now rewrite <- app_assoc.
Qed.

Lemma bgr_to_rgb_length d : length (bgr_to_rgb d) = length d.
Proof.
  assert (H : ∀ (n : nat) d, (length d <= n)%nat -> length (bgr_to_rgb d) = length d).
  { induction n as [|n IH]; intros [|b [|g [|r rest]]] Hn; try reflexivity.
    - cbn in Hn. lia.
    - cbn [bgr_to_rgb length]. rewrite IH by (cbn in Hn; lia). reflexivity. }
  now apply (H (length d)).
Qed.

Lemma swap_len d i j d' : Texture.swap d i j = Ok d' -> len d' = len d.
Proof.
  unfold Texture.swap. intros H.
  bind_inv H as a Ha. bind_inv H as b Hb. bind_inv H as d1 H1.
  apply vec_store_len in H1. apply vec_store_len in H. lia.
Qed.

(** A swap whose second element lies behind the end of the vector. *)
Lemma swap_past_end (d : list byte) i :
  0 <= i < len d -> len d <= i + 2 ->
  Texture.swap d i (i + 2) = Undefined (OutOfBounds A_image_data Load).
Proof.
  intros Hi Hj. unfold Texture.swap, int_.
  destruct (lookup_lt_is_Some_2 d (Z.to_nat i)) as [a Ha]; [unfold len in *; lia|].
  rewrite (vec_load_int _ d i a), bind_Ok by (assumption || lia).
  unfold vec_load. rewrite bind_Ok.
  rewrite (lookup_ge_None_2 d (Z.to_nat (i + 2))) by (unfold len in *; lia).
  now destruct (decide (0 <= i + 2)).
Qed.

(** The decoder on a file that starts with the signature of an
    uncompressed image and six more bytes: what the two header reads leave
    to do. *)
Lemma load_header fs filename (wl wh hl hh bb b5 : byte) (pixels : list byte) :
  fs !! filename = Some (Texture.uncompressedTGA ++ [wl; wh; hl; hh; bb; b5] ++ pixels) ->
  Texture.loadUncompressedTGA fs filename
  = let width := Texture.u8 wh * 256 + Texture.u8 wl in
    let height := Texture.u8 hh * 256 + Texture.u8 hl in
    if decide (width <= 0 ∨ height <= 0) then
      Ok (Texture.empty_image, [Texture.Invalid_dimensions filename], [])
    else
      let bpp := Texture.u8 bb in
      let bytesPerPixel := bpp / 8 in
      let imageSize := Texture.umul (Texture.umul bytesPerPixel width) height in
      if decide (bpp = 24 ∨ bpp = 32) then
        let type := if decide (bpp = 24) then Texture.GL_RGB else Texture.GL_RGBA in
        let got := take (Z.to_nat imageSize) pixels in
        let data := got ++ drop (length got) (replicate (Z.to_nat imageSize) x00) in
        if decide (len got ≠ imageSize) then
          Ok (Texture.empty_image, [Texture.Could_not_read_image_data filename],
              [Texture.Texture_type_is_GL_RGB filename])
        else
          data ← Texture.for_stride 0 imageSize bytesPerPixel
                   (fun cswap d => Texture.swap d cswap (cswap + 2)) data;
          Ok (Texture.mkImage width height type data, [],
              [Texture.Texture_type_is_GL_RGB filename])
      else
        Ok (Texture.empty_image, [Texture.Unsupported_bpp bpp filename], []).
Proof.
  intros Hfile.
  pose proof (u8_range wl). pose proof (u8_range wh).
  pose proof (u8_range hl). pose proof (u8_range hh).
  unfold Texture.loadUncompressedTGA. rewrite Hfile.
  change (Texture.read 12 (Texture.uncompressedTGA ++ [wl; wh; hl; hh; bb; b5] ++ pixels))
    with (Texture.uncompressedTGA, [wl; wh; hl; hh; bb; b5] ++ pixels).
  cbn iota. rewrite decide_False by (intros Hne; apply Hne; reflexivity).
  rewrite decide_False by discriminate.
  rewrite decide_False by (intros Hne; apply Hne; reflexivity).
  change (Texture.read 6 ([wl; wh; hl; hh; bb; b5] ++ pixels))
    with ([wl; wh; hl; hh; bb; b5], pixels).
  cbn iota. rewrite decide_False by (intros Hne; apply Hne; reflexivity).
  change ([wl; wh; hl; hh; bb; b5] !!! 1%nat) with wh.
  change ([wl; wh; hl; hh; bb; b5] !!! 0%nat) with wl.
  change ([wl; wh; hl; hh; bb; b5] !!! 3%nat) with hh.
  change ([wl; wh; hl; hh; bb; b5] !!! 2%nat) with hl.
  change ([wl; wh; hl; hh; bb; b5] !!! 4%nat) with bb.
  unfold to_GLuint. rewrite !Z.mod_small by lia.
  reflexivity.
Qed.

(** The buffer that the pixel read fills when the file holds the pixels. *)
Lemma pixels_read (pixels : list byte) n :
  0 <= n <= len pixels ->
  len (take (Z.to_nat n) pixels) = n ∧
  take (Z.to_nat n) pixels
    ++ drop (length (take (Z.to_nat n) pixels)) (replicate (Z.to_nat n) x00)
  = take (Z.to_nat n) pixels.
Proof.
  intros Hn.
  assert (Hgot : len (take (Z.to_nat n) pixels) = n).
  { unfold len in *. rewrite length_take. lia. }
  split; [exact Hgot|].
  rewrite drop_ge; [apply app_nil_r|]. rewrite length_replicate.
  unfold len in Hgot. lia.
Qed.


(** C7.  A file whose first 12 bytes are the run-length-compressed
    signature is never decoded: the result is the empty image, the
    diagnostic is on [std::cerr] and nothing is on [std::cout], whatever
    follows the signature. *)
Theorem compressed_signature_rejected
    (fs : gmap string (list byte)) (filename : string) (bytes : list byte) :
  fs !! filename = Some bytes ->
  take 12 bytes = Texture.compressedTGA ->
  Texture.loadUncompressedTGA fs filename
  = Ok (Texture.empty_image, [Texture.RLE_not_supported filename], []).
Proof.
  intros Hfile Hsig. unfold Texture.loadUncompressedTGA, Texture.read.
  rewrite Hfile. change (Z.to_nat 12) with 12%nat. rewrite Hsig.
  rewrite decide_False by (intros Hne; apply Hne; reflexivity).
  now rewrite decide_True by reflexivity.
Qed.

Lemma compressed_signature_rejected_witness :
  Texture.loadUncompressedTGA
    {[ "rle.tga"%string := Texture.compressedTGA ++ [x02; x00; x01; x00; x18; x00; xff] ]}
    "rle.tga"
  = Ok (Texture.empty_image, [Texture.RLE_not_supported "rle.tga"], []).
Proof.
  apply (compressed_signature_rejected _ _
           (Texture.compressedTGA ++ [x02; x00; x01; x00; x18; x00; xff])).
  - reflexivity.
  - reflexivity.
Defined.

(** C3.  A 2x1 image of 24 bits per pixel with its six bytes of pixel data
    decodes to three channels with bytes 0 and 2 of each pixel exchanged;
    with three bytes of pixel data only, the result is the empty image.
    Both times the line of the [switch] is on [std::cout]. *)
Theorem decode_2x1_rgb
    (fs : gmap string (list byte)) (filename : string) (b5 p0 p1 p2 p3 p4 p5 : byte) :
  let header := Texture.uncompressedTGA ++ [x02; x00; x01; x00; x18; b5] in
  (fs !! filename = Some (header ++ [p0; p1; p2; p3; p4; p5]) ->
   ∃ img,
     Texture.loadUncompressedTGA fs filename
     = Ok (img, [], [Texture.Texture_type_is_GL_RGB filename]) ∧
     Texture.type img = Texture.GL_RGB ∧ Texture.channels img = 3 ∧
     Texture.width img = 2 ∧ Texture.height img = 1 ∧
     Texture.data img = [p2; p1; p0; p5; p4; p3]) ∧
  (fs !! filename = Some (header ++ [p0; p1; p2]) ->
   Texture.loadUncompressedTGA fs filename
   = Ok (Texture.empty_image, [Texture.Could_not_read_image_data filename],
         [Texture.Texture_type_is_GL_RGB filename])).
Proof.
  cbn zeta. split; intros Hfile; unfold Texture.loadUncompressedTGA; rewrite Hfile.
  - eexists. split; [vm_compute; reflexivity|]. repeat split.
  - vm_compute. reflexivity.
Qed.

Lemma decode_2x1_rgb_witness :
  (∃ img,
     Texture.loadUncompressedTGA
       {[ "a.tga"%string :=
            Texture.uncompressedTGA ++ [x02; x00; x01; x00; x18; x00]
              ++ [x01; x02; x03; x04; x05; x06] ]} "a.tga"
     = Ok (img, [], [Texture.Texture_type_is_GL_RGB "a.tga"]) ∧
     Texture.type img = Texture.GL_RGB ∧ Texture.channels img = 3 ∧
     Texture.width img = 2 ∧ Texture.height img = 1 ∧
     Texture.data img = [x03; x02; x01; x06; x05; x04]) ∧
  Texture.loadUncompressedTGA
    {[ "t.tga"%string :=
         Texture.uncompressedTGA ++ [x02; x00; x01; x00; x18; x00] ++ [x01; x02; x03] ]}
    "t.tga"
  = Ok (Texture.empty_image, [Texture.Could_not_read_image_data "t.tga"],
        [Texture.Texture_type_is_GL_RGB "t.tga"]).
Proof.
  split.
  - apply (proj1 (decode_2x1_rgb _ "a.tga" x00 x01 x02 x03 x04 x05 x06)). reflexivity.
  - apply (proj2 (decode_2x1_rgb _ "t.tga" x00 x01 x02 x03 x04 x05 x06)). reflexivity.
Defined.

Lemma rgba_image_size_umul w h :
  0 <= w < 65536 ->
  Texture.umul (Texture.umul 4 w) h = rgba_image_size w h.
Proof.
  intros Hw. unfold Texture.umul, rgba_image_size.
  rewrite (Z.mod_small (4 * w)) by lia. reflexivity.
Qed.

Lemma rgba_image_size_whole w h : rgba_image_size w h mod 4 = 0.
Proof.
  unfold rgba_image_size.
  change (2 ^ 32) with (4 * 2 ^ 30).
  replace (4 * w * h) with (4 * (w * h)) by ring.
  rewrite Z.mul_mod_distr_l by lia.
  rewrite Z.mul_comm. apply Z.mod_mul. lia.
Qed.

Lemma bgra_to_rgba_length d : length (bgra_to_rgba d) = length d.
Proof.
  assert (H : ∀ (n : nat) d, (length d <= n)%nat -> length (bgra_to_rgba d) = length d).
  { induction n as [|n IH]; intros [|b [|g [|r [|a rest]]]] Hn; try reflexivity.
    - cbn in Hn. lia.
    - cbn [bgra_to_rgba length]. rewrite IH by (cbn in Hn; lia). reflexivity. }
  now apply (H (length d)).
Qed.

(** The decoder on a 32-bit image: the pixels that it reads and returns. *)
Lemma load_rgba
    (fs : gmap string (list byte)) (filename : string)
    (wl wh hl hh b5 : byte) (pixels : list byte) :
  let w := Texture.u8 wh * 256 + Texture.u8 wl in
  let h := Texture.u8 hh * 256 + Texture.u8 hl in
  fs !! filename
    = Some (Texture.uncompressedTGA ++ [wl; wh; hl; hh; x20; b5] ++ pixels) ->
  0 < w -> 0 < h -> rgba_image_size w h <= len pixels ->
  Texture.loadUncompressedTGA fs filename
  = Ok (Texture.mkImage w h Texture.GL_RGBA
          (bgra_to_rgba (take (Z.to_nat (rgba_image_size w h)) pixels)),
        [], [Texture.Texture_type_is_GL_RGB filename]).
Proof.
  intros w h Hfile Hw Hh Hpix.
  pose proof (u8_range wl). pose proof (u8_range wh).
  rewrite (load_header _ _ _ _ _ _ _ _ _ Hfile). fold w h. cbv zeta.
  change (Texture.u8 x20) with 32. change (32 / 8) with 4.
  rewrite decide_False by lia. rewrite decide_True by (right; reflexivity).
  rewrite (decide_False (P := 32 = 24)) by discriminate.
  rewrite rgba_image_size_umul by (unfold w; lia).
  pose proof (rgba_image_size_whole w h) as Hwhole.
  set (n := rgba_image_size w h) in *.
  assert (Hn : 0 <= n) by (apply Z.mod_pos_bound; lia).
  destruct (pixels_read pixels n) as [Hgot Hdata]; [lia|].
  rewrite Hdata. rewrite decide_False by (intros Hne; apply Hne; exact Hgot).
  unfold Texture.for_stride.
  pose proof (Z.div_mod n 4 ltac:(lia)) as Hdiv.
  replace (Z.to_nat ((n - 0 + 4 - 1) / 4)) with (Z.to_nat (n / 4)).
  2:{ f_equal. apply (Z.div_unique _ _ _ 3); lia. }
  pose proof (swap_loop_rgba_spec (Z.to_nat (n / 4)) [] (take (Z.to_nat n) pixels)) as Hloop.
  cbn [app] in Hloop. change (len []) with 0 in Hloop.
  rewrite Hloop by (unfold len in Hgot; lia).
  reflexivity.
Qed.

(** C10.  For a 32-bit image the size is the product 4 * width * height
    reduced modulo 2^32: the decoder reads that many bytes of the pixels
    in the file and returns them, each pixel turned from BGRA to RGBA, as
    a buffer of that length.  For the width 32768 and the height 32769 the
    product is 2^32 + 131072 and the size is 131072. *)
Theorem image_size_wraps :
  (∀ (fs : gmap string (list byte)) (filename : string)
     (wl wh hl hh b5 : byte) (pixels : list byte),
     let w := Texture.u8 wh * 256 + Texture.u8 wl in
     let h := Texture.u8 hh * 256 + Texture.u8 hl in
     fs !! filename
       = Some (Texture.uncompressedTGA ++ [wl; wh; hl; hh; x20; b5] ++ pixels) ->
     0 < w -> 0 < h ->
     rgba_image_size w h <= len pixels ->
     ∃ img,
       Texture.loadUncompressedTGA fs filename
       = Ok (img, [], [Texture.Texture_type_is_GL_RGB filename]) ∧
       Texture.width img = w ∧ Texture.height img = h ∧
       Texture.type img = Texture.GL_RGBA ∧
       len (Texture.data img) = rgba_image_size w h ∧
       Texture.data img
       = bgra_to_rgba (take (Z.to_nat (rgba_image_size w h)) pixels)) ∧
  (∃ w h, 0 < w <= 65535 ∧ 0 < h <= 65535 ∧
          0 < rgba_image_size w h ∧ rgba_image_size w h ≠ 4 * w * h).
Proof.
  split.
  - intros fs filename wl wh hl hh b5 pixels w h Hfile Hw Hh Hsize.
    eexists. split; [exact (load_rgba fs filename wl wh hl hh b5 pixels Hfile Hw Hh Hsize)|].
    cbn [Texture.width Texture.height Texture.type Texture.data].
    repeat split.
    assert (Hn : 0 <= rgba_image_size w h) by (apply Z.mod_pos_bound; lia).
    unfold len in *. rewrite bgra_to_rgba_length, length_take. fold w h. lia.
  - exists 32768, 32769. vm_compute. repeat split; discriminate.
Qed.

(** The image of 32768 x 32769 pixels: the 131072 bytes that follow the
    header are read and returned. *)
Lemma image_size_wraps_witness :
  ∃ img,
    Texture.loadUncompressedTGA
      {[ "big.tga"%string :=
           Texture.uncompressedTGA ++ [x00; x80; x01; x80; x20; x00] ++ wrapped_pixels ]}
      "big.tga" = Ok (img, [], [Texture.Texture_type_is_GL_RGB "big.tga"]) ∧
    Texture.width img = 32768 ∧ Texture.height img = 32769 ∧
    Texture.type img = Texture.GL_RGBA ∧
    len (Texture.data img) = 131072 ∧
    Texture.data img = bgra_to_rgba (take (Z.to_nat 131072) wrapped_pixels).
Proof.
  apply (proj1 image_size_wraps _ "big.tga" x00 x80 x01 x80 x00 wrapped_pixels).
  - reflexivity.
  - reflexivity.
  - reflexivity.
  - vm_compute. discriminate.
Defined.

(* ===================================================================== *)
(** * Decoding of whole images *)
(* ===================================================================== *)

(** The decoder on a 24-bit image of a size below 2^32. *)
Lemma load_rgb
    (fs : gmap string (list byte)) (filename : string)
    (wl wh hl hh b5 : byte) (pixels : list byte) :
  let w := Texture.u8 wh * 256 + Texture.u8 wl in
  let h := Texture.u8 hh * 256 + Texture.u8 hl in
  fs !! filename
    = Some (Texture.uncompressedTGA ++ [wl; wh; hl; hh; x18; b5] ++ pixels) ->
  0 < w -> 0 < h -> 3 * w * h < 2 ^ 32 -> 3 * w * h <= len pixels ->
  Texture.loadUncompressedTGA fs filename
  = Ok (Texture.mkImage w h Texture.GL_RGB
          (bgr_to_rgb (take (Z.to_nat (3 * w * h)) pixels)),
        [], [Texture.Texture_type_is_GL_RGB filename]).
Proof.
  intros w h Hfile Hw Hh Hsmall Hpix.
  rewrite (load_header _ _ _ _ _ _ _ _ _ Hfile). fold w h. cbv zeta.
  change (Texture.u8 x18) with 24. change (24 / 8) with 3.
  rewrite decide_False by lia. rewrite decide_True by (left; reflexivity).
  rewrite (decide_True (P := 24 = 24)) by reflexivity.
  assert (Hn : Texture.umul (Texture.umul 3 w) h = 3 * w * h).
  { unfold Texture.umul. rewrite (Z.mod_small (3 * w)) by nia.
    apply Z.mod_small. nia. }
  rewrite Hn. destruct (pixels_read pixels (3 * w * h)) as [Hgot Hdata]; [nia|].
  rewrite Hdata. rewrite decide_False by (intros Hne; apply Hne; exact Hgot).
  unfold Texture.for_stride.
  replace (Z.to_nat ((3 * w * h - 0 + 3 - 1) / 3)) with (Z.to_nat (w * h)).
  2:{ f_equal. apply (Z.div_unique _ _ _ 2); lia. }
  pose proof (swap_loop_rgb_spec (Z.to_nat (w * h)) [] (take (Z.to_nat (3 * w * h)) pixels) [])
    as Hloop.
  rewrite !app_nil_r in Hloop. cbn [app] in Hloop. change (len []) with 0 in Hloop.
  rewrite Hloop by (unfold len in Hgot; nia).
  reflexivity.
Qed.

(** X1.  A 24-bit image whose size 3 * width * height is below 2^32 and whose
    pixels the file holds decodes to those pixels, each turned from BGR to
    RGB; what follows the pixels in the file is not read.  Nothing is
    written to [std::cerr]; the line of the [switch] is on [std::cout]. *)
Theorem decode_rgb
    (fs : gmap string (list byte)) (filename : string)
    (wl wh hl hh b5 : byte) (pixels : list byte) :
  let w := Texture.u8 wh * 256 + Texture.u8 wl in
  let h := Texture.u8 hh * 256 + Texture.u8 hl in
  fs !! filename
    = Some (Texture.uncompressedTGA ++ [wl; wh; hl; hh; x18; b5] ++ pixels) ->
  0 < w -> 0 < h -> 3 * w * h < 2 ^ 32 -> 3 * w * h <= len pixels ->
  Texture.loadUncompressedTGA fs filename
  = Ok (Texture.mkImage w h Texture.GL_RGB
          (bgr_to_rgb (take (Z.to_nat (3 * w * h)) pixels)),
        [], [Texture.Texture_type_is_GL_RGB filename]).
Proof. apply load_rgb. Qed.

Lemma decode_rgb_witness :
  Texture.loadUncompressedTGA
    {[ "rgb.tga"%string :=
         Texture.uncompressedTGA ++ [x02; x00; x02; x00; x18; x00]
           ++ [x01; x02; x03; x04; x05; x06; x07; x08; x09; x0a; x0b; x0c; xff] ]}
    "rgb.tga"
  = Ok (Texture.mkImage 2 2 Texture.GL_RGB
          [x03; x02; x01; x06; x05; x04; x09; x08; x07; x0c; x0b; x0a],
        [], [Texture.Texture_type_is_GL_RGB "rgb.tga"]).
Proof.
  apply (decode_rgb _ "rgb.tga" x02 x00 x02 x00 x00
           [x01; x02; x03; x04; x05; x06; x07; x08; x09; x0a; x0b; x0c; xff]).
  - reflexivity.
  - reflexivity.
  - reflexivity.
  - reflexivity.
  - vm_compute. discriminate.
Defined.

(** X2.  A 32-bit image whose pixels the file holds decodes to those pixels,
    each turned from BGRA to RGBA, as many bytes as the size computed in
    32 bits says.  Nothing is written to [std::cerr]; the line on
    [std::cout] names GL_RGB, though the type of the image is GL_RGBA. *)
Theorem decode_rgba
    (fs : gmap string (list byte)) (filename : string)
    (wl wh hl hh b5 : byte) (pixels : list byte) :
  let w := Texture.u8 wh * 256 + Texture.u8 wl in
  let h := Texture.u8 hh * 256 + Texture.u8 hl in
  fs !! filename
    = Some (Texture.uncompressedTGA ++ [wl; wh; hl; hh; x20; b5] ++ pixels) ->
  0 < w -> 0 < h -> rgba_image_size w h <= len pixels ->
  Texture.loadUncompressedTGA fs filename
  = Ok (Texture.mkImage w h Texture.GL_RGBA
          (bgra_to_rgba (take (Z.to_nat (rgba_image_size w h)) pixels)),
        [], [Texture.Texture_type_is_GL_RGB filename]).
Proof. apply load_rgba. Qed.

Lemma decode_rgba_witness :
  Texture.loadUncompressedTGA
    {[ "rgba.tga"%string :=
         Texture.uncompressedTGA ++ [x01; x00; x02; x00; x20; x08]
           ++ [x01; x02; x03; x04; x05; x06; x07; x08] ]}
    "rgba.tga"
  = Ok (Texture.mkImage 1 2 Texture.GL_RGBA
          [x03; x02; x01; x04; x07; x06; x05; x08],
        [], [Texture.Texture_type_is_GL_RGB "rgba.tga"]).
Proof.
  apply (decode_rgba _ "rgba.tga" x01 x00 x02 x00 x08
           [x01; x02; x03; x04; x05; x06; x07; x08]).
  - reflexivity.
  - reflexivity.
  - reflexivity.
  - vm_compute. discriminate.
Defined.

(** The swap loop over a buffer that does not end with a whole 3-byte
    pixel: its last round reads behind the end. *)
Lemma swap_loop_rgb_overruns (d : list byte) :
  len d mod 3 ≠ 0 ->
  Texture.for_stride 0 (len d) 3 (fun cswap d => Texture.swap d cswap (cswap + 2)) d
  = Undefined (OutOfBounds A_image_data Load).
Proof.
  intros Hmod. unfold Texture.for_stride.
  pose proof (len_nonneg d) as Hpos.
  pose proof (Z.div_mod (len d) 3 ltac:(lia)) as Hdiv.
  pose proof (Z.mod_pos_bound (len d) 3 ltac:(lia)) as Hrem.
  set (q := Z.to_nat (len d / 3)).
  assert (Hq : Z.of_nat q = len d / 3) by (unfold q; lia).
  replace (Z.to_nat ((len d - 0 + 3 - 1) / 3)) with (q + 1)%nat.
  2:{ assert ((len d - 0 + 3 - 1) / 3 = len d / 3 + 1)
        by (symmetry; apply (Z.div_unique _ _ _ (len d mod 3 - 1)); lia).
      lia. }
  rewrite stride_loop_app.
  pose proof (swap_loop_rgb_spec q [] (take (3 * q) d) (drop (3 * q) d)) as Hloop.
  cbn [app] in Hloop. rewrite take_drop in Hloop. change (len []) with 0 in Hloop.
  rewrite Hloop by (rewrite length_take; unfold len in *; lia).
  rewrite bind_Ok. cbn [Texture.stride_loop].
  assert (Hlen : len (bgr_to_rgb (take (3 * q) d) ++ drop (3 * q) d) = len d).
  { unfold len. rewrite length_app, bgr_to_rgb_length, <- length_app, take_drop.
    reflexivity. }
  rewrite swap_past_end by lia. reflexivity.
Qed.

(** X3.  For a 24-bit image whose size 3 * width * height is 2^32 or more, the
    size computed in 32 bits is not a multiple of 3: when the file holds
    that many bytes, the last round of the swap loop reads behind the end
    of the pixel buffer. *)
Theorem decode_rgb_wrapped_size_overruns
    (fs : gmap string (list byte)) (filename : string)
    (wl wh hl hh b5 : byte) (pixels : list byte) :
  let w := Texture.u8 wh * 256 + Texture.u8 wl in
  let h := Texture.u8 hh * 256 + Texture.u8 hl in
  fs !! filename
    = Some (Texture.uncompressedTGA ++ [wl; wh; hl; hh; x18; b5] ++ pixels) ->
  2 ^ 32 <= 3 * w * h ->
  (3 * w * h) mod 2 ^ 32 <= len pixels ->
  Texture.loadUncompressedTGA fs filename = Undefined (OutOfBounds A_image_data Load).
Proof.
  intros w h Hfile Hbig Hpix.
  pose proof (u8_range wl). pose proof (u8_range wh).
  pose proof (u8_range hl). pose proof (u8_range hh).
  assert (Hw : 0 < w <= 65535) by (unfold w in *; nia).
  assert (Hh : 0 < h <= 65535) by (unfold h in *; nia).
  rewrite (load_header _ _ _ _ _ _ _ _ _ Hfile). fold w h. cbv zeta.
  change (Texture.u8 x18) with 24. change (24 / 8) with 3.
  rewrite decide_False by lia. rewrite decide_True by (left; reflexivity).
  rewrite (decide_True (P := 24 = 24)) by reflexivity.
  assert (Hn : Texture.umul (Texture.umul 3 w) h = (3 * w * h) mod 2 ^ 32).
  { unfold Texture.umul. rewrite (Z.mod_small (3 * w)) by lia. reflexivity. }
  rewrite Hn.
  pose proof (Z.div_mod (3 * w * h) (2 ^ 32) ltac:(lia)) as Hdiv.
  pose proof (Z.mod_pos_bound (3 * w * h) (2 ^ 32) ltac:(lia)) as Hrem.
  set (n := (3 * w * h) mod 2 ^ 32) in *.
  set (k := (3 * w * h) / 2 ^ 32) in *.
  assert (Hk : 1 <= k <= 2) by nia.
  assert (Hthird : n mod 3 ≠ 0).
  { intros Hz. pose proof (Z.div_mod n 3 ltac:(lia)) as Hn3. rewrite Hz in Hn3.
    assert (Hp : ∃ p, p = w * h) by eauto. destruct Hp as [p Hp].
    replace (3 * w * h) with (3 * p) in Hdiv by lia.
    change (2 ^ 32) with 4294967296 in Hdiv. lia. }
  destruct (pixels_read pixels n) as [Hgot Hdata]; [lia|].
  rewrite Hdata. rewrite decide_False by (intros Hne; apply Hne; exact Hgot).
  pose proof (swap_loop_rgb_overruns (take (Z.to_nat n) pixels)) as Hloop.
  rewrite Hgot in Hloop. rewrite Hloop by exact Hthird. reflexivity.
Qed.

(** The header of a 45761 x 62571 image of 24 bits per pixel, followed by
    one byte: the size computed in 32 bits is 1. *)
Lemma decode_rgb_wrapped_size_overruns_witness :
  Texture.loadUncompressedTGA
    {[ "wrap.tga"%string :=
         Texture.uncompressedTGA ++ [xc1; xb2; x6b; xf4; x18; x00] ++ [x00] ]}
    "wrap.tga"
  = Undefined (OutOfBounds A_image_data Load).
Proof.
  apply (decode_rgb_wrapped_size_overruns _ "wrap.tga" xc1 xb2 x6b xf4 x00 [x00]).
  - reflexivity.
  - vm_compute. discriminate.
  - vm_compute. discriminate.
Defined.

(* ===================================================================== *)
(** * Files that the decoder rejects *)
(* ===================================================================== *)

(** X4.  A file of 24 or 32 bits per pixel that holds fewer pixel bytes than
    the computed size is rejected. *)
Theorem truncated_pixels_rejected
    (fs : gmap string (list byte)) (filename : string)
    (wl wh hl hh bb b5 : byte) (pixels : list byte) :
  let w := Texture.u8 wh * 256 + Texture.u8 wl in
  let h := Texture.u8 hh * 256 + Texture.u8 hl in
  fs !! filename
    = Some (Texture.uncompressedTGA ++ [wl; wh; hl; hh; bb; b5] ++ pixels) ->
  0 < w -> 0 < h ->
  Texture.u8 bb = 24 ∨ Texture.u8 bb = 32 ->
  len pixels < Texture.umul (Texture.umul (Texture.u8 bb / 8) w) h ->
  Texture.loadUncompressedTGA fs filename
  = Ok (Texture.empty_image, [Texture.Could_not_read_image_data filename],
        [Texture.Texture_type_is_GL_RGB filename]).
Proof.
  intros w h Hfile Hw Hh Hbpp Hshort.
  rewrite (load_header _ _ _ _ _ _ _ _ _ Hfile). fold w h. cbv zeta.
  rewrite decide_False by lia. rewrite decide_True by exact Hbpp.
  apply decide_True. unfold len in *. rewrite length_take. lia.
Qed.

Lemma truncated_pixels_rejected_witness :
  Texture.loadUncompressedTGA
    {[ "cut.tga"%string :=
         Texture.uncompressedTGA ++ [x02; x00; x02; x00; x20; x08]
           ++ [x01; x02; x03; x04; x05; x06; x07; x08; x09; x0a; x0b; x0c; x0d; x0e; x0f] ]}
    "cut.tga"
  = Ok (Texture.empty_image, [Texture.Could_not_read_image_data "cut.tga"],
        [Texture.Texture_type_is_GL_RGB "cut.tga"]).
Proof.
  apply (truncated_pixels_rejected _ "cut.tga" x02 x00 x02 x00 x20 x08
           [x01; x02; x03; x04; x05; x06; x07; x08; x09; x0a; x0b; x0c; x0d; x0e; x0f]).
  - reflexivity.
  - reflexivity.
  - reflexivity.
  - right. reflexivity.
  - reflexivity.
Defined.

(** X5.  A header whose width or height is zero is rejected, whatever the
    depth and the rest of the file. *)
Theorem zero_dimension_rejected
    (fs : gmap string (list byte)) (filename : string)
    (wl wh hl hh bb b5 : byte) (pixels : list byte) :
  fs !! filename
    = Some (Texture.uncompressedTGA ++ [wl; wh; hl; hh; bb; b5] ++ pixels) ->
  Texture.u8 wh * 256 + Texture.u8 wl = 0 ∨ Texture.u8 hh * 256 + Texture.u8 hl = 0 ->
  Texture.loadUncompressedTGA fs filename
  = Ok (Texture.empty_image, [Texture.Invalid_dimensions filename], []).
Proof.
  intros Hfile Hzero.
  rewrite (load_header _ _ _ _ _ _ _ _ _ Hfile). cbv zeta.
  apply decide_True. lia.
Qed.

Lemma zero_dimension_rejected_witness :
  Texture.loadUncompressedTGA
    {[ "flat.tga"%string :=
         Texture.uncompressedTGA ++ [x10; x00; x00; x00; x18; x00] ++ [x01; x02; x03] ]}
    "flat.tga"
  = Ok (Texture.empty_image, [Texture.Invalid_dimensions "flat.tga"], []).
Proof.
  apply (zero_dimension_rejected _ "flat.tga" x10 x00 x00 x00 x18 x00 [x01; x02; x03]).
  - reflexivity.
  - right. reflexivity.
Defined.

(** X6.  A depth other than 24 or 32 bits per pixel is rejected, with the depth
    in the diagnostic, whatever the rest of the file. *)
Theorem unsupported_depth_rejected
    (fs : gmap string (list byte)) (filename : string)
    (wl wh hl hh bb b5 : byte) (pixels : list byte) :
  fs !! filename
    = Some (Texture.uncompressedTGA ++ [wl; wh; hl; hh; bb; b5] ++ pixels) ->
  0 < Texture.u8 wh * 256 + Texture.u8 wl ->
  0 < Texture.u8 hh * 256 + Texture.u8 hl ->
  Texture.u8 bb ≠ 24 -> Texture.u8 bb ≠ 32 ->
  Texture.loadUncompressedTGA fs filename
  = Ok (Texture.empty_image, [Texture.Unsupported_bpp (Texture.u8 bb) filename], []).
Proof.
  intros Hfile Hw Hh H24 H32.
  rewrite (load_header _ _ _ _ _ _ _ _ _ Hfile). cbv zeta.
  rewrite decide_False by lia. apply decide_False. lia.
Qed.

Lemma unsupported_depth_rejected_witness :
  Texture.loadUncompressedTGA
    {[ "grey.tga"%string :=
         Texture.uncompressedTGA ++ [x02; x00; x01; x00; x10; x00]
           ++ [x01; x02; x03; x04] ]}
    "grey.tga"
  = Ok (Texture.empty_image, [Texture.Unsupported_bpp 16 "grey.tga"], []).
Proof.
  apply (unsupported_depth_rejected _ "grey.tga" x02 x00 x01 x00 x10 x00
           [x01; x02; x03; x04]).
  - reflexivity.
  - reflexivity.
  - reflexivity.
  - discriminate.
  - discriminate.
Defined.

(** X7.  A file of fewer than 18 bytes is rejected with one diagnostic, whatever
    its bytes are. *)
Theorem short_file_rejected
    (fs : gmap string (list byte)) (filename : string) (bytes : list byte) :
  fs !! filename = Some bytes ->
  len bytes < 18 ->
  ∃ d, Texture.loadUncompressedTGA fs filename = Ok (Texture.empty_image, [d], []).
Proof.
  intros Hfile Hshort. unfold Texture.loadUncompressedTGA, Texture.read.
  rewrite Hfile. change (Z.to_nat 12) with 12%nat. change (Z.to_nat 6) with 6%nat.
  destruct (decide (len (take 12 bytes) ≠ 12)); [eauto|].
  destruct (decide (take 12 bytes = Texture.compressedTGA)); [eauto|].
  destruct (decide (take 12 bytes ≠ Texture.uncompressedTGA)); [eauto|].
  rewrite decide_True; [eauto|].
  unfold len in *. rewrite length_take, length_drop. lia.
Qed.

Lemma short_file_rejected_witness :
  ∃ d,
    Texture.loadUncompressedTGA
      {[ "stub.tga"%string := Texture.uncompressedTGA ++ [x02; x00; x01; x00; x18] ]}
      "stub.tga"
    = Ok (Texture.empty_image, [d], []).
Proof.
  apply (short_file_rejected _ "stub.tga"
           (Texture.uncompressedTGA ++ [x02; x00; x01; x00; x18])).
  - reflexivity.
  - reflexivity.
Defined.

(** X8.  A file of 12 bytes or more whose first 12 bytes are neither of the two
    signatures is rejected as an unsupported format. *)
Theorem unknown_signature_rejected
    (fs : gmap string (list byte)) (filename : string) (bytes : list byte) :
  fs !! filename = Some bytes ->
  12 <= len bytes ->
  take 12 bytes ≠ Texture.compressedTGA ->
  take 12 bytes ≠ Texture.uncompressedTGA ->
  Texture.loadUncompressedTGA fs filename
  = Ok (Texture.empty_image, [Texture.Unsupported_format filename], []).
Proof.
  intros Hfile Hlen Hc Hu. unfold Texture.loadUncompressedTGA, Texture.read.
  rewrite Hfile. change (Z.to_nat 12) with 12%nat.
  rewrite decide_False by (unfold len in *; rewrite length_take; lia).
  rewrite decide_False by exact Hc.
  now rewrite decide_True by exact Hu.
Qed.

(** An uncompressed true-colour image with an image origin of (0, 1). *)
Lemma unknown_signature_rejected_witness :
  Texture.loadUncompressedTGA
    {[ "origin.tga"%string :=
         [x00; x00; x02; x00; x00; x00; x00; x00; x00; x00; x01; x00;
          x01; x00; x01; x00; x18; x00; x01; x02; x03] ]}
    "origin.tga"
  = Ok (Texture.empty_image, [Texture.Unsupported_format "origin.tga"], []).
Proof.
  apply (unknown_signature_rejected _ "origin.tga"
           [x00; x00; x02; x00; x00; x00; x00; x00; x00; x00; x01; x00;
            x01; x00; x01; x00; x18; x00; x01; x02; x03]).
  - reflexivity.
  - vm_compute. discriminate.
  - discriminate.
  - discriminate.
Defined.

(** The two kinds of results of the decoder. *)
Lemma load_cases
    (fs : gmap string (list byte)) (filename : string)
    (img : Texture.ImageData) (cerr : list Texture.diagnostic)
    (cout : list Texture.status) :
  Texture.loadUncompressedTGA fs filename = Ok (img, cerr, cout) ->
  (img = Texture.empty_image ∧
   ∃ d, cerr = [d] ∧
        (cout = [] ∨
         d = Texture.Could_not_read_image_data filename ∧
         cout = [Texture.Texture_type_is_GL_RGB filename])) ∨
  (cerr = [] ∧ cout = [Texture.Texture_type_is_GL_RGB filename] ∧
   0 < Texture.width img <= 65535 ∧ 0 < Texture.height img <= 65535 ∧
   (Texture.type img = Texture.GL_RGB ∨ Texture.type img = Texture.GL_RGBA) ∧
   len (Texture.data img)
   = Texture.umul (Texture.umul (Texture.channels img) (Texture.width img))
       (Texture.height img)).
Proof.
  unfold Texture.loadUncompressedTGA, Texture.read.
  destruct (fs !! filename) as [bytes|];
    [|intros Hres; injection Hres as <- <- <-; left; eauto].
  repeat lazymatch goal with
  | |- (if ?c then Ok (Texture.empty_image, _, _) else _) = _ -> _ =>
      destruct c; [intros Hres; injection Hres as <- <- <-; left; eauto|]
  end.
  set (header := take (Z.to_nat 6) (drop (Z.to_nat 12) bytes)) in *.
  pose proof (u8_range (header !!! 0%nat)). pose proof (u8_range (header !!! 1%nat)).
  pose proof (u8_range (header !!! 2%nat)). pose proof (u8_range (header !!! 3%nat)).
  unfold to_GLuint in *. rewrite !Z.mod_small in * by lia.
  set (w := Texture.u8 (header !!! 1%nat) * 256 + Texture.u8 (header !!! 0%nat)) in *.
  set (h := Texture.u8 (header !!! 3%nat) * 256 + Texture.u8 (header !!! 2%nat)) in *.
  destruct (decide (Texture.u8 (header !!! 4%nat) = 24 ∨ Texture.u8 (header !!! 4%nat) = 32))
    as [Hbpp|]; [|intros Hres; injection Hres as <- <- <-; left; eauto].
  set (size := Texture.umul (Texture.umul (Texture.u8 (header !!! 4%nat) / 8) w) h) in *.
  set (got := take (Z.to_nat size) (drop (Z.to_nat 6) (drop (Z.to_nat 12) bytes))) in *.
  destruct (decide (len got ≠ size)) as [|Hgot];
    [intros Hres; injection Hres as <- <- <-; left; eauto 6|].
  intros Hres. bind_inv Hres as d Hd. injection Hres as <- <- <-. right.
  assert (Hlen : len d = size).
  { unfold Texture.for_stride in Hd.
    apply (stride_loop_preserves (fun t => len t = size)) in Hd.
    - exact Hd.
    - intros c t t' Ht Hswap. apply swap_len in Hswap. lia.
    - unfold len in *. rewrite length_app, length_drop, length_replicate. lia. }
  cbn [Texture.width Texture.height Texture.type Texture.data].
  split; [reflexivity|]. split; [reflexivity|]. split; [lia|]. split; [lia|].
  unfold Texture.channels. cbn [Texture.type].
  destruct (decide (Texture.u8 (header !!! 4%nat) = 24)) as [E|E].
  - split; [now left|]. rewrite decide_True by reflexivity.
    rewrite Hlen. unfold size. rewrite E. reflexivity.
  - assert (E32 : Texture.u8 (header !!! 4%nat) = 32) by (destruct Hbpp; [contradiction | assumption]).
    split; [now right|]. rewrite decide_False by discriminate.
    rewrite decide_True by reflexivity.
    rewrite Hlen. unfold size. rewrite E32. reflexivity.
Qed.

(** X9.  The decoder returns all or nothing.  Either there is one message
    on [std::cerr] and the image is the empty one; [std::cout] is then
    empty, unless the message is that of the pixel read, which comes after
    the line of the [switch].  Or there is nothing on [std::cerr] and that
    line on [std::cout]; width and height are then those of a 16-bit
    header, the type is one of the two formats and the pixel buffer has
    the length that goes with the type, computed in 32 bits. *)
Theorem load_all_or_nothing
    (fs : gmap string (list byte)) (filename : string)
    (img : Texture.ImageData) (cerr : list Texture.diagnostic)
    (cout : list Texture.status) :
  Texture.loadUncompressedTGA fs filename = Ok (img, cerr, cout) ->
  (img = Texture.empty_image ∧
   ∃ d, cerr = [d] ∧
        (cout = [] ∨
         d = Texture.Could_not_read_image_data filename ∧
         cout = [Texture.Texture_type_is_GL_RGB filename])) ∨
  (cerr = [] ∧ cout = [Texture.Texture_type_is_GL_RGB filename] ∧
   0 < Texture.width img <= 65535 ∧ 0 < Texture.height img <= 65535 ∧
   (Texture.type img = Texture.GL_RGB ∨ Texture.type img = Texture.GL_RGBA) ∧
   len (Texture.data img)
   = Texture.umul (Texture.umul (Texture.channels img) (Texture.width img))
       (Texture.height img)).
Proof. apply load_cases. Qed.

Lemma load_all_or_nothing_witness :
  (Texture.mkImage 1 2 Texture.GL_RGBA [x03; x02; x01; x04; x07; x06; x05; x08]
   = Texture.empty_image ∧
   ∃ d, @nil Texture.diagnostic = [d] ∧
        ([Texture.Texture_type_is_GL_RGB "rgba.tga"] = [] ∨
         d = Texture.Could_not_read_image_data "rgba.tga" ∧
         [Texture.Texture_type_is_GL_RGB "rgba.tga"]
         = [Texture.Texture_type_is_GL_RGB "rgba.tga"])) ∨
  (@nil Texture.diagnostic = [] ∧
   [Texture.Texture_type_is_GL_RGB "rgba.tga"]
   = [Texture.Texture_type_is_GL_RGB "rgba.tga"] ∧
   0 < 1 <= 65535 ∧ 0 < 2 <= 65535 ∧
   (Texture.GL_RGBA = Texture.GL_RGB ∨ Texture.GL_RGBA = Texture.GL_RGBA) ∧
   len [x03; x02; x01; x04; x07; x06; x05; x08]
   = Texture.umul (Texture.umul 4 1) 2).
Proof.
  apply (load_all_or_nothing
           {[ "rgba.tga"%string :=
                Texture.uncompressedTGA ++ [x01; x00; x02; x00; x20; x08]
                  ++ [x01; x02; x03; x04; x05; x06; x07; x08] ]}
           "rgba.tga"
           (Texture.mkImage 1 2 Texture.GL_RGBA [x03; x02; x01; x04; x07; x06; x05; x08])
           [] [Texture.Texture_type_is_GL_RGB "rgba.tga"]).
  vm_compute. reflexivity.
Defined.

(* ===================================================================== *)
(** * Further properties of the mesh generators and of the import *)
(* ===================================================================== *)

(** X12.  [createTriangle] replaces whatever the object held: the result is the
    one triangle of the constant arrays, the same for every prior state. *)
Theorem createTriangle_replaces (s : TriangleSoup) :
  ∃ m,
    createTriangle s = Ok m ∧
    nverts_ m = 3 ∧ ntris_ m = 1 ∧
    vertexarray_ m = triangle_vertex_array_data ∧
    indexarray_ m = [0; 1; 2] ∧
    mesh_wf m ∧
    ∀ s' : TriangleSoup, createTriangle s' = Ok m.
Proof.
  exists (mkSoup 3 1 triangle_vertex_array_data triangle_index_array_data).
  split; [apply createTriangle_spec|].
  repeat split; try reflexivity. intros s'. apply createTriangle_spec.
Qed.

Lemma readOBJ_well_formed_witness :
  ∃ m,
    readOBJ {[ "tri.obj"%string := obj_triangle ]} "tri.obj"
      (mkSoup 8 12 (box_vertex_array_data f1 f1 f1) box_index_array_data)
    = Ok (m, [], [Found "tri.obj" 3 1 1 1]) ∧
    ntris_ m = 1 ∧ nverts_ m = 3 * 1 ∧ mesh_wf m.
Proof.
  apply (readOBJ_well_formed _ "tri.obj" obj_triangle _
           (mkCounts (Some "f"%string) 3 1 1 1)).
  - reflexivity.
  - vm_compute. reflexivity.
  - vm_compute. repeat split; discriminate.
  - repeat (apply List.Forall_cons;
            [vm_compute;
             first [exact I
                   | split; [reflexivity | discriminate]
                   | split; [reflexivity | intros _; repeat split; discriminate]]|]).
    apply List.Forall_nil.
Defined.

(** ** Lines without a token *)

Lemma isspace_not_NUL c : isspace c = true -> Ascii.eqb c "000" = false.
Proof.
  destruct (Ascii.eqb_spec c "000") as [->|]; [|reflexivity]. vm_compute. discriminate.
Qed.

Lemma c_str_blank line : blank line = true -> c_str line = line.
Proof.
  induction line as [|c line IH]; [reflexivity|]. cbn [blank c_str].
  intros [Hc Hl]%andb_prop. rewrite (isspace_not_NUL c Hc), IH by assumption.
  reflexivity.
Qed.

Lemma skip_space_blank line : blank line = true -> skip_space line = EmptyString.
Proof.
  induction line as [|c line IH]; [reflexivity|]. cbn [blank skip_space].
  intros [Hc Hl]%andb_prop. rewrite Hc. now apply IH.
Qed.

Lemma sscanf_tag_blank line : blank line = true -> sscanf line "%2s " = [].
Proof.
  intros Hb. unfold sscanf. change (parse_format "%2s ") with [D_s 2; D_space].
  cbn [run_directives]. unfold scan_s.
  rewrite (c_str_blank line Hb), (skip_space_blank line Hb). reflexivity.
Qed.

(** On a line without a token [sscanf] converts nothing and [tag] keeps
    what it held. *)
Lemma scan_tag_blank line old : blank line = true -> scan_tag line old = old.
Proof. intros Hb. unfold scan_tag. now rewrite sscanf_tag_blank. Qed.

Lemma tag_of_blank line : blank line = true -> tag_of line = EmptyString.
Proof. intros Hb. unfold tag_of. now rewrite scan_tag_blank. Qed.

(** X17.  A model file whose first line has no token (an empty first line, say)
    makes the first loop compare the tag before anything was stored in
    it, whatever follows and whatever the object held. *)
Theorem leading_blank_line_undefined
    (fs : gmap string string) (filename text : string) (s : TriangleSoup)
    (line : string) (rest : list string) :
  fs !! filename = Some text ->
  file_lines text = line :: rest ->
  blank line = true ->
  readOBJ fs filename s = Undefined IndeterminateValue.
Proof.
  intros Hfile Hlines Hb. unfold readOBJ. rewrite Hfile, Hlines.
  cbn [first_pass]. unfold count_line. cbn [c_tag].
  rewrite (scan_tag_blank line None Hb). reflexivity.
Qed.

Lemma leading_blank_line_undefined_witness :
  readOBJ {[ "gap.obj"%string := String "010" obj_triangle ]} "gap.obj" TriangleSoup_new
  = Undefined IndeterminateValue.
Proof.
  apply (leading_blank_line_undefined _ "gap.obj" (String "010" obj_triangle) _
           (String "010" EmptyString) (file_lines obj_triangle)).
  - reflexivity.
  - vm_compute. reflexivity.
  - reflexivity.
Defined.

Lemma first_pass_app l1 l2 c :
  first_pass (l1 ++ l2) c = c' ← first_pass l1 c; first_pass l2 c'.
Proof.
  revert c. induction l1 as [|l l1 IH]; intros c; [reflexivity|].
  cbn [app first_pass]. destruct (count_line l c) as [c1| |]; cbn; [apply IH | reflexivity..].
Qed.

(** A face line is counted as a face, and leaves its tag behind. *)
Lemma count_line_face line c c' :
  tag_of line = "f"%string -> count_line line c = Ok c' ->
  c_tag c' = Some "f"%string ∧ numfaces c' = numfaces c + 1.
Proof.
  intros Ht H. unfold count_line in H.
  rewrite (scan_tag_fresh line (c_tag c)) in H by (rewrite Ht; discriminate).
  rewrite Ht in H. cbn in H. bind_inv H as n Hn. injection H as <-.
  apply checked_Ok in Hn as [-> _]. split; reflexivity.
Qed.

(** A line without a token after a face line is counted as one more face. *)
Lemma count_line_stale_face line c c' :
  blank line = true -> c_tag c = Some "f"%string -> count_line line c = Ok c' ->
  numfaces c' = numfaces c + 1.
Proof.
  intros Hb Ht H. unfold count_line in H. rewrite (scan_tag_blank line _ Hb), Ht in H.
  cbn in H. bind_inv H as n Hn. injection H as <-.
  apply checked_Ok in Hn as [-> _]. reflexivity.
Qed.

(** X18.  A line without a token that follows a face line (an empty line after
    the faces, say) is counted as one more face: an import that succeeds
    has more triangles than the file has face lines. *)
Theorem blank_line_after_face_adds_triangle
    (fs : gmap string string) (filename text : string) (s m : TriangleSoup)
    (out : list report) (pre post : list string) (face line : string) :
  fs !! filename = Some text ->
  file_lines text = pre ++ face :: line :: post ->
  tag_of face = "f"%string ->
  blank line = true ->
  readOBJ fs filename s = Ok (m, [], out) ->
  count_tag "f" (file_lines text) < ntris_ m.
Proof.
  intros Hfile Hlines Hface Hb H. unfold readOBJ in H. rewrite Hfile in H.
  bind_inv H as c Hc.
  bind_inv H as vs Hvs. bind_inv H as ns Hns. bind_inv H as ts Hts.
  bind_inv H as va Hva. bind_inv H as ia Hia. bind_inv H as nverts Hnv.
  bind_inv H as r Hr.
  assert (Hm : ntris_ m = numfaces c).
  { case_decide.
    - injection H as _ Hlog _. symmetry in Hlog. now apply app_cons_not_nil in Hlog.
    - injection H as <- _ _. reflexivity. }
  rewrite Hm, Hlines. rewrite Hlines, first_pass_app in Hc.
  bind_inv Hc as c1 Hc1. cbn [first_pass] in Hc.
  bind_inv Hc as c2 Hc2. bind_inv Hc as c3 Hc3.
  apply first_pass_counts in Hc1 as (_ & _ & _ & F1). cbn [numfaces] in F1.
  apply (count_line_face face) in Hc2 as [T2 F2]; [|exact Hface].
  apply (count_line_stale_face line) in Hc3 as F3; [|exact Hb | exact T2].
  apply first_pass_counts in Hc as (_ & _ & _ & F4).
  rewrite count_tag_app. cbn [count_tag]. unfold bump at 1 2.
  rewrite Hface, (tag_of_blank line Hb). cbn. lia.
Qed.

Lemma blank_line_after_face_adds_triangle_witness :
  ∃ m,
    readOBJ {[ "end.obj"%string := (obj_triangle ++ String "010" EmptyString)%string ]}
      "end.obj" TriangleSoup_new = Ok (m, [], [Found "end.obj" 3 1 1 2]) ∧
    count_tag "f" (file_lines (obj_triangle ++ String "010" EmptyString)) < ntris_ m.
Proof.
  eexists. split; [vm_compute; reflexivity|].
  apply (blank_line_after_face_adds_triangle
           {[ "end.obj"%string := (obj_triangle ++ String "010" EmptyString)%string ]}
           "end.obj" (obj_triangle ++ String "010" EmptyString) TriangleSoup_new _
           [Found "end.obj" 3 1 1 2]
           (firstn 5 (file_lines obj_triangle)) []
           "f 1/1/1 2/1/1 3/1/1
" (String "010" EmptyString)).
  - reflexivity.
  - vm_compute. reflexivity.
  - vm_compute. reflexivity.
  - reflexivity.
  - vm_compute. reflexivity.
Defined.

(** ** The buffers that fgets fills *)

Lemma fgets_spec (n : nat) (s : string) :
  (fst (fgets n s) ++ snd (fgets n s))%string = s ∧
  (String.length (fst (fgets n s)) <= n)%nat ∧
  (0 < n -> s ≠ EmptyString -> 0 < String.length (fst (fgets n s)))%nat.
Proof.
  revert s. induction n as [|n IH]; intros s.
  - cbn. repeat split; [lia | lia].
  - destruct s as [|c s]; [cbn; repeat split; [lia | congruence]|].
    cbn [fgets]. destruct (Ascii.eqb c "010").
    + cbn. repeat split; lia.
    + destruct (IH s) as (E & L & _). destruct (fgets n s) as [l r].
      cbn [fst snd String.length] in *. subst s.
      split; [reflexivity | split; lia].
Qed.

Lemma length_append (a b : string) :
  String.length (a ++ b) = (String.length a + String.length b)%nat.
Proof.
  induction a as [|c a IH]; [reflexivity|].
  change (String c a ++ b)%string with (String c (a ++ b)).
  cbn [String.length]. now rewrite IH.
Qed.

Lemma fgets_loop_spec (fuel : nat) :
  ∀ s, (String.length s <= fuel)%nat ->
       joined (fgets_loop fuel s) = s ∧
       Forall (fun l => 1 <= String.length l <= 255)%nat (fgets_loop fuel s).
Proof.
  induction fuel as [|fuel IH]; intros s Hlen.
  - destruct s; [split; [reflexivity | constructor] | cbn in Hlen; lia].
  - destruct s as [|c s]; [split; [reflexivity | constructor]|].
    cbn [fgets_loop].
    destruct (fgets_spec 255 (String c s)) as (E & L & P).
    destruct (fgets 255 (String c s)) as [l r] eqn:Hf. cbn [fst snd] in *.
    specialize (P ltac:(lia) ltac:(discriminate)).
    assert (Hr : (String.length r <= fuel)%nat).
    { apply (f_equal String.length) in E. rewrite length_append in E. cbn in E, Hlen. lia. }
    destruct (IH r Hr) as [J F]. cbn [joined]. rewrite J. split; [exact E|].
    constructor; [lia | exact F].
Qed.

(** X19.  The loop over [fgets] loses and repeats nothing: the buffers, one
    after the other, are the text of the file; each holds between 1 and
    255 characters, so that a longer line arrives in pieces. *)
Theorem file_lines_joined (text : string) :
  joined (file_lines text) = text ∧
  Forall (fun l => 1 <= String.length l <= 255)%nat (file_lines text).
Proof. apply fgets_loop_spec. reflexivity. Qed.

(* ===================================================================== *)
(** * Printing *)
(* ===================================================================== *)

Lemma createSphere_fits radius segments s m :
  createSphere radius segments s = Ok m -> mesh_fits m.
Proof.
  intros H. pose proof (createSphere_Ok _ _ _ _ H) as (Hnv & Hnt & Hva & Hia & _).
  pose proof (len_nonneg (vertexarray_ m)). pose proof (len_nonneg (indexarray_ m)).
  revert H. unfold createSphere, int_. unfold sphere_nverts in Hnv. unfold sphere_ntris in Hnt.
  set (vsegs := Z.max segments 2) in *. clearbody vsegs.
  cbn [clean vertexarray_ indexarray_]. intros H.
  bind_inv H as hsegs Hh. bind_inv H as nverts Hn. bind_inv H as ntris Ht.
  bind_inv H as va Hva'. apply vec_resize_nil_Ok in Hva' as (n8 & Hn8 & _ & _).
  bind_inv H as ia Hia'. apply vec_resize_nil_Ok in Hia' as (n3 & Hn3 & _ & _).
  clear H.
  apply imul_Ok in Hh as (? & ? & [= <-] & [= <-] & Hh & _).
  apply imul_Ok in Hn8 as (? & ? & [= <-] & [= <-] & -> & Hn8).
  apply imul_Ok in Hn3 as (? & ? & [= <-] & [= <-] & -> & Hn3).
  assert (Hnv' : nverts = 1 + (vsegs - 1) * (hsegs + 1) + 1) by (int_inv; reflexivity).
  assert (Hnt' : ntris = hsegs + (vsegs - 2) * hsegs * 2 + hsegs) by (int_inv; reflexivity).
  unfold mesh_fits. subst hsegs. 
  replace (nverts_ m) with nverts by (rewrite Hnv, Hnv'; ring).
  replace (ntris_ m) with ntris by (rewrite Hnt, Hnt'; ring).
  replace (nverts_ m) with nverts in Hva by (rewrite Hnv, Hnv'; ring).
  replace (ntris_ m) with ntris in Hia by (rewrite Hnt, Hnt'; ring).
  lia.
Qed.

Lemma readOBJ_fits fs filename s m log out :
  readOBJ fs filename s = Ok (m, log, out) -> mesh_fits s -> mesh_fits m.
Proof.
  unfold readOBJ. intros H Hpre.
  destruct (fs !! filename) as [text|] eqn:Hfile.
  - bind_inv H as c Hc.
    bind_inv H as vs Hvs. bind_inv H as ns Hns. bind_inv H as ts Hts.
    bind_inv H as va Hva. bind_inv H as ia Hia. bind_inv H as nverts Hnv.
    bind_inv H as r Hr.
    apply vec_resize_Ok in Hva as (n8 & Hn8 & P8 & _).
    apply vec_resize_Ok in Hia as (n3 & Hn3 & P3 & _).
    unfold int_ in *. int_inv.
    case_decide; injection H as <- <- <-; unfold mesh_fits; cbn; lia.
  - injection H as <- <- <-. exact Hpre.
Qed.

(** Every object of the public interface has counts that are not negative
    and array sizes that are [int] values, besides the two array lengths. *)
Lemma reachable_fits s : reachable s -> mesh_wf s ∧ mesh_fits s.
Proof.
  induction 1 as [ | s _ _ | s s' _ _ H | x y z s s' _ _ H
                 | radius segments s s' _ _ H | fs filename s s' log out _ [IHw IHf] H ].
  - split; [split; reflexivity | vm_compute; repeat split; discriminate].
  - split; [split; reflexivity | vm_compute; repeat split; discriminate].
  - rewrite createTriangle_spec in H. injection H as <-.
    split; [split; reflexivity | vm_compute; repeat split; discriminate].
  - rewrite createBox_spec in H. injection H as <-.
    split; [split; reflexivity | vm_compute; repeat split; discriminate].
  - split; [|eapply createSphere_fits; exact H].
    apply createSphere_Ok in H as (_ & _ & Hva & Hia & _). split; assumption.
  - split; [eapply readOBJ_mesh_wf; [exact H | left; exact IHw]|].
    eapply readOBJ_fits; [exact H | exact IHf].
Qed.

Lemma vec_load_nth {A : Type} id (v : list A) k d :
  0 <= k < len v -> vec_load id v (Ok k) = Ok (nth (Z.to_nat k) v d).
Proof.
  intros Hk.
  destruct (lookup_lt_is_Some_2 v (Z.to_nat k)) as [x Hx]; [unfold len in *; lia|].
  rewrite (vec_load_int id v k x) by (assumption || lia).
  now rewrite (nth_lookup_Some _ _ d _ Hx).
Qed.

(** A loop that appends one row for each index. *)
Lemma for_loop_collect {B : Type} (f : Z -> B) (body : Z -> list B -> outcome (list B)) :
  ∀ (n : nat) (i : Z) (out : list B),
    (∀ k o, i <= k < i + Z.of_nat n -> body k o = Ok (o ++ [f k])) ->
    for_loop n i body out = Ok (out ++ map f (seqZ i (Z.of_nat n))).
Proof.
  induction n as [|n IH]; intros i out Hbody.
  - cbn. now rewrite app_nil_r.
  - cbn [for_loop]. rewrite Hbody, bind_Ok by lia.
    rewrite IH by (intros k o Hk; apply Hbody; lia).
    rewrite (seqZ_cons i) by lia. cbn [map]. rewrite <- app_assoc. cbn [app].
    replace (Z.pred (Z.of_nat (S n))) with (Z.of_nat n) by lia.
    replace (Z.succ i) with (i + 1) by lia. reflexivity.
Qed.

(** X20.  [print] on an object of the public interface reads inside the arrays:
    after each of the two headings it writes one row for each vertex, with
    its three coordinates, and one row for each triangle, with its three
    indices. *)
Theorem print_rows (s : TriangleSoup) :
  reachable s ->
  print s
  = Ok (P_text "TriangleSoup vertex data:"
          :: map (vertex_row s) (seqZ 0 (nverts_ s))
          ++ P_text "TriangleSoup face index data:"
          :: map (face_row s) (seqZ 0 (ntris_ s))).
Proof.
  intros [[Hia Hva] (Hv0 & Hv8 & Ht0 & Ht3)]%reachable_fits.
  unfold print, for_range, int_. rewrite !Z.sub_0_r.
  rewrite (for_loop_collect (vertex_row s)).
  - rewrite bind_Ok. rewrite (for_loop_collect (face_row s)).
    + rewrite !Z2Nat.id by lia. cbn [app]. now rewrite <- app_assoc.
    + intros k o Hk. unfold INT_MAX, INT_MIN in *.
      rewrite !imul_int by (unfold INT_MAX, INT_MIN; lia).
      rewrite !iadd_int by (unfold INT_MAX, INT_MIN; lia).
      rewrite !(vec_load_nth _ _ _ 0) by lia. reflexivity.
  - intros k o Hk. unfold INT_MAX, INT_MIN in *.
    rewrite !imul_int by (unfold INT_MAX, INT_MIN; lia).
    rewrite !iadd_int by (unfold INT_MAX, INT_MIN; lia).
    rewrite !(vec_load_nth _ _ _ f0) by lia. reflexivity.
Qed.

Lemma print_rows_witness :
  print (mkSoup 3 1 triangle_vertex_array_data triangle_index_array_data)
  = Ok [ P_text "TriangleSoup vertex data:";
         P_vertex 0 (FNeg f1) (FNeg f1) f0;
         P_vertex 1 f1 (FNeg f1) f0;
         P_vertex 2 f0 f1 f0;
         P_text "TriangleSoup face index data:";
         P_face 0 0 1 2 ].
Proof.
  apply (print_rows (mkSoup 3 1 triangle_vertex_array_data triangle_index_array_data)).
  apply (reach_createTriangle TriangleSoup_new); [apply reach_new | reflexivity].
Defined.

(** X21.  [printInfo] reads the first vertex before it looks at the count: on an
    object of the public interface without vertices (a new one, a cleaned
    one, a failed import) it reads outside the empty vertex array; with
    vertices it reads inside the array and writes the two counts and six
    extents. *)
Theorem printInfo_needs_a_vertex
    (fmin fmax : GLfloat -> GLfloat -> GLfloat) (s : TriangleSoup) :
  reachable s ->
  (nverts_ s = 0 ->
   printInfo fmin fmax s = Undefined (OutOfBounds A_vertexarray Load)) ∧
  (nverts_ s ≠ 0 ->
   ∃ e, printInfo fmin fmax s
        = Ok [ P_text "TriangleSoup information:";
               P_count "vertices" (nverts_ s); P_count "triangles" (ntris_ s);
               P_extent "xmin" (xmin e); P_extent "xmax" (xmax e);
               P_extent "ymin" (ymin e); P_extent "ymax" (ymax e);
               P_extent "zmin" (zmin e); P_extent "zmax" (zmax e) ]).
Proof.
  intros [[Hia Hva] (Hv0 & Hv8 & Ht0 & Ht3)]%reachable_fits. split.
  - intros Hz. rewrite Hz in Hva. unfold printInfo.
    destruct (vertexarray_ s) as [|x va];
      [reflexivity | unfold len in Hva; cbn [length] in Hva; lia].
  - intros Hnz. unfold printInfo, int_.
    rewrite !(vec_load_nth _ _ _ f0), !bind_Ok by lia.
    match goal with |- context [for_range 1 ?hi ?body ?init] =>
      destruct (for_range_runs (fun _ => True) body 1 hi init) as (e & He & _)
    end.
    + intros k t Hk _. unfold INT_MAX, INT_MIN in *.
      rewrite !imul_int by (unfold INT_MAX, INT_MIN; lia).
      rewrite !iadd_int by (unfold INT_MAX, INT_MIN; lia).
      rewrite !(vec_load_nth _ _ _ f0), !bind_Ok by lia. eauto.
    + exact I.
    + rewrite He, bind_Ok. exists e. reflexivity.
Qed.

Lemma printInfo_needs_a_vertex_witness :
  (nverts_ TriangleSoup_new = 0 ->
   printInfo (fun a _ => a) (fun a _ => a) TriangleSoup_new
   = Undefined (OutOfBounds A_vertexarray Load)) ∧
  (nverts_ TriangleSoup_new ≠ 0 ->
   ∃ e, printInfo (fun a _ => a) (fun a _ => a) TriangleSoup_new
        = Ok [ P_text "TriangleSoup information:";
               P_count "vertices" (nverts_ TriangleSoup_new);
               P_count "triangles" (ntris_ TriangleSoup_new);
               P_extent "xmin" (xmin e); P_extent "xmax" (xmax e);
               P_extent "ymin" (ymin e); P_extent "ymax" (ymax e);
               P_extent "zmin" (zmin e); P_extent "zmax" (zmax e) ]).
Proof.
  apply (printInfo_needs_a_vertex (fun a _ => a) (fun a _ => a) TriangleSoup_new).
  apply reach_new.
Defined.

(* ===================================================================== *)
(** * What an import leaves of the object it is called on *)
(* ===================================================================== *)

Lemma take_S_insert {A : Type} (l : list A) (k : nat) (x : A) :
  (k < length l)%nat -> take (S k) (<[k := x]> l) = take k l ++ [x].
Proof.
  intros Hk. rewrite (take_S_r _ _ x) by (now apply list_lookup_insert_eq).
  now rewrite take_insert_ge by lia.
Qed.

Lemma same_upto_store {A : Type} (l1 l2 : list A) k x :
  0 <= k < len l1 -> k < len l2 -> same_upto k l1 l2 ->
  same_upto (k + 1) (<[Z.to_nat k := x]> l1) (<[Z.to_nat k := x]> l2).
Proof.
  unfold same_upto, len. intros H1 H2 E.
  replace (Z.to_nat (k + 1)) with (S (Z.to_nat k)) by lia.
  rewrite !take_S_insert by lia. now rewrite E.
Qed.

(** The same element copied to the same place of two vectors. *)
Lemma copy_elem_agree id src si va1 va2 di a1 a2 :
  copy_elem id src si va1 di = Ok a1 -> copy_elem id src si va2 di = Ok a2 ->
  ∃ k, di = Ok k ∧
       ∀ n, n = k -> same_upto n va1 va2 -> same_upto (k + 1) a1 a2.
Proof.
  unfold copy_elem. intros H1 H2. bind_inv H1 as x Hx. bind_inv H2 as y Hy.
  rewrite Hx in Hy. apply Ok_inj in Hy. subst y.
  apply vec_store_Ok in H1 as (k & Hk & Hr1 & ->).
  apply vec_store_Ok in H2 as (k' & Hk' & Hr2 & ->).
  rewrite Hk in Hk'. apply Ok_inj in Hk'. subst k'.
  exists k. split; [assumption|]. intros n -> E. apply same_upto_store; (lia || exact E).
Qed.

(** An index stored behind the indices that count up from 0. *)
Lemma store_index_seq ia idx val ia' :
  store_index ia idx val = Ok ia' ->
  ∃ k v, idx = Ok k ∧ val = Ok v ∧
         ∀ n, n = k -> v = k -> k <= INT_MAX ->
              take (Z.to_nat n) ia = seqZ 0 n ->
              take (Z.to_nat (k + 1)) ia' = seqZ 0 (k + 1).
Proof.
  intros (k & v & Hk & Hv & Hr & ->)%store_index_Ok.
  exists k, v. split; [assumption|]. split; [assumption|].
  intros n -> -> Hmax E.
  replace (Z.to_nat (k + 1)) with (S (Z.to_nat k)) by lia.
  rewrite take_S_insert by (unfold len in Hr; lia). rewrite E.
  rewrite to_GLuint_id by lia.
  rewrite seqZ_app by lia. do 2 f_equal.
Qed.

(** Both runs take the same step: the values are the same. *)
Ltac same_step H1 H2 :=
  let a := fresh "a" in let b := fresh "b" in
  let Ha := fresh "Ha" in let Hb := fresh "Hb" in
  bind_inv H1 as a Ha; bind_inv H2 as b Hb;
  rewrite Ha in Hb; apply Ok_inj in Hb; subst b.

Ltac agree_step H1 H2 Hup :=
  let a1 := fresh "va" in let a2 := fresh "vb" in
  let Ha1 := fresh "Ha" in let Ha2 := fresh "Hb" in
  let k := fresh "k" in let Hk := fresh "Hk" in let Hstep := fresh "Hstep" in
  bind_inv H1 as a1 Ha1; bind_inv H2 as a2 Ha2;
  destruct (copy_elem_agree _ _ _ _ _ _ _ _ Ha1 Ha2) as (k & Hk & Hstep);
  clear Ha1 Ha2; unfold int_ in Hk; int_inv;
  eapply Hstep in Hup; [|lia]; clear Hstep.

Lemma gather_face_agree r1 r2 v1 t1 n1 v2 t2 n2 v3 t3 n3 r1' r2' :
  agree r1 r2 ->
  gather_face r1 v1 t1 n1 v2 t2 n2 v3 t3 n3 = Ok r1' ->
  gather_face r2 v1 t1 n1 v2 t2 n2 v3 t3 n3 = Ok r2' ->
  agree r1' r2'.
Proof.
  intros [Av An At Aiv Ain Ait Aif Ae Ac Ava] H1 H2.
  destruct r1 as [vs1 ns1 ts1 va1 ia1 iv1 in1 it1 if1 e1 c1].
  destruct r2 as [vs2 ns2 ts2 va2 ia2 iv2 in2 it2 if2 e2 c2].
  cbn [verts normals texcoords r_vertexarray r_indexarray i_v i_n i_t i_f readerror cerr]
    in *.
  subst vs2 ns2 ts2 iv2 in2 it2 if2 e2 c2.
  unfold gather_face in H1, H2.
  cbn [verts normals texcoords r_vertexarray r_indexarray i_v i_n i_t i_f readerror cerr]
    in H1, H2.
  do 9 same_step H1 H2.
  bind_inv H1 as cv Hcv. bind_inv H2 as cv' Hcv'.
  rewrite Hcv in Hcv'. apply Ok_inj in Hcv'. subst cv'.
  unfold int_ in Hcv. int_inv.
  do 24 agree_step H1 H2 Ava.
  do 3 (let x := fresh "ia" in let Hx := fresh "Hx" in bind_inv H1 as x Hx; clear Hx).
  do 3 (let x := fresh "ib" in let Hx := fresh "Hx" in bind_inv H2 as x Hx; clear Hx).
  bind_inv H1 as n Hn. bind_inv H2 as n' Hn'. unfold int_ in Hn, Hn'. int_inv.
  constructor; cbn; try reflexivity.
  unfold same_upto in *.
  match type of Ava with
  | take (Z.to_nat ?b) _ = _ =>
      match goal with
      | |- take (Z.to_nat ?a) _ = _ => replace a with b by lia
      end
  end.
  exact Ava.
Qed.

Ltac index_step H Hseq :=
  let ia := fresh "ia" in let Hia := fresh "Hia" in
  let k := fresh "k" in let v := fresh "v" in
  let Hk := fresh "Hk" in let Hv := fresh "Hv" in let Hstep := fresh "Hstep" in
  bind_inv H as ia Hia;
  apply store_index_seq in Hia as (k & v & Hk & Hv & Hstep);
  unfold int_ in Hk, Hv; int_inv;
  eapply Hstep in Hseq; [|lia..]; clear Hstep.

Lemma gather_face_indexed r v1 t1 n1 v2 t2 n2 v3 t3 n3 r' :
  indexed r -> gather_face r v1 t1 n1 v2 t2 n2 v3 t3 n3 = Ok r' -> indexed r'.
Proof.
  intros [Hpos Hseq] H. unfold gather_face in H.
  do 10 (let x := fresh "x" in let Hx := fresh "Hx" in bind_inv H as x Hx; clear Hx).
  do 24 (let x := fresh "va" in let Hx := fresh "Hx" in bind_inv H as x Hx; clear Hx).
  do 3 index_step H Hseq.
  bind_inv H as n Hn. unfold int_ in Hn. int_inv.
  split; cbn [i_f r_indexarray]; [lia|].
  match type of Hseq with
  | take (Z.to_nat ?b) _ = _ =>
      match goal with
      | |- take (Z.to_nat ?a) _ = _ => replace a with b by lia
      end
  end.
  exact Hseq.
Qed.

Ltac split_readers A r1 r2 :=
  destruct A as [Av An At Aiv Ain Ait Aif Ae Ac Ava];
  destruct r1 as [vs1 ns1 ts1 va1 ia1 iv1 in1 it1 if1 e1 c1];
  destruct r2 as [vs2 ns2 ts2 va2 ia2 iv2 in2 it2 if2 e2 c2];
  cbn [verts normals texcoords r_vertexarray r_indexarray i_v i_n i_t i_f readerror cerr]
    in *;
  subst vs2 ns2 ts2 iv2 in2 it2 if2 e2 c2.

Ltac floats_agree H1 H2 :=
  repeat same_step H1 H2;
  case_decide; same_step H1 H2;
  apply Ok_inj in H1; apply Ok_inj in H2; subst;
  constructor; cbn; first [reflexivity | assumption].

Lemma parse_v_agree line r1 r2 r1' r2' :
  agree r1 r2 -> parse_v line r1 = Ok r1' -> parse_v line r2 = Ok r2' -> agree r1' r2'.
Proof.
  unfold parse_v. generalize (sscanf line "v %f %f %f"). intros args A H1 H2.
  split_readers A r1 r2. floats_agree H1 H2.
Qed.

Lemma parse_vn_agree line r1 r2 r1' r2' :
  agree r1 r2 -> parse_vn line r1 = Ok r1' -> parse_vn line r2 = Ok r2' -> agree r1' r2'.
Proof.
  unfold parse_vn. generalize (sscanf line "vn %f %f %f"). intros args A H1 H2.
  split_readers A r1 r2. floats_agree H1 H2.
Qed.

Lemma parse_vt_agree line r1 r2 r1' r2' :
  agree r1 r2 -> parse_vt line r1 = Ok r1' -> parse_vt line r2 = Ok r2' -> agree r1' r2'.
Proof.
  unfold parse_vt. generalize (sscanf line "vt %f %f"). intros args A H1 H2.
  split_readers A r1 r2. floats_agree H1 H2.
Qed.

Lemma parse_f_agree line r1 r2 r1' r2' :
  agree r1 r2 -> parse_f line r1 = Ok r1' -> parse_f line r2 = Ok r2' -> agree r1' r2'.
Proof.
  unfold parse_f. generalize (sscanf line "f %d/%d/%d %d/%d/%d %d/%d/%d").
  intros args A H1 H2. same_step H1 H2.
  destruct (decide (length a = 9%nat)) as [E|E].
  - do 9 (destruct a as [|? a]; [discriminate E|]).
    destruct a; [|discriminate E].
    exact (gather_face_agree _ _ _ _ _ _ _ _ _ _ _ _ _ A H1 H2).
  - rewrite not_nine in H1, H2 by assumption.
    split_readers A r1 r2. same_step H1 H2.
    apply Ok_inj in H1. apply Ok_inj in H2. subst.
    constructor; cbn; first [reflexivity | assumption].
Qed.

Lemma parse_line_agree line r1 r2 r1' r2' :
  agree r1 r2 -> parse_line line r1 = Ok r1' -> parse_line line r2 = Ok r2' ->
  agree r1' r2'.
Proof.
  unfold parse_line. rewrite scan_tag_tag_of. intros A H1 H2.
  destruct (String.eqb (tag_of line) "v"); [exact (parse_v_agree _ _ _ _ _ A H1 H2)|].
  destruct (String.eqb (tag_of line) "vn"); [exact (parse_vn_agree _ _ _ _ _ A H1 H2)|].
  destruct (String.eqb (tag_of line) "vt"); [exact (parse_vt_agree _ _ _ _ _ A H1 H2)|].
  destruct (String.eqb (tag_of line) "f"); [exact (parse_f_agree _ _ _ _ _ A H1 H2)|].
  apply Ok_inj in H1. apply Ok_inj in H2. now subst.
Qed.

Lemma second_pass_agree lines :
  ∀ r1 r2 r1' r2',
    agree r1 r2 -> second_pass lines r1 = Ok r1' -> second_pass lines r2 = Ok r2' ->
    agree r1' r2'.
Proof.
  induction lines as [|l ls IH]; intros r1 r2 r1' r2' A H1 H2; cbn [second_pass] in H1, H2.
  - apply Ok_inj in H1. apply Ok_inj in H2. now subst.
  - bind_inv H1 as x1 Hx1. bind_inv H2 as x2 Hx2.
    pose proof (parse_line_agree _ _ _ _ _ A Hx1 Hx2) as A'.
    pose proof (ag_readerror _ _ A') as Ee.
    destruct (decide (readerror x1 ≠ 0)), (decide (readerror x2 ≠ 0)); try lia.
    + apply Ok_inj in H1. apply Ok_inj in H2. now subst.
    + eapply IH; eassumption.
Qed.

(** The three kinds of lines with floats leave the indices alone. *)
Lemma parse_v_keeps line r r' :
  parse_v line r = Ok r' -> i_f r' = i_f r ∧ r_indexarray r' = r_indexarray r.
Proof.
  unfold parse_v. generalize (sscanf line "v %f %f %f"). intros args H. do 3 bind_inv H.
  case_decide; bind_inv H; apply Ok_inj in H; subst r'; split; reflexivity.
Qed.

Lemma parse_vn_keeps line r r' :
  parse_vn line r = Ok r' -> i_f r' = i_f r ∧ r_indexarray r' = r_indexarray r.
Proof.
  unfold parse_vn. generalize (sscanf line "vn %f %f %f"). intros args H. do 3 bind_inv H.
  case_decide; bind_inv H; apply Ok_inj in H; subst r'; split; reflexivity.
Qed.

Lemma parse_vt_keeps line r r' :
  parse_vt line r = Ok r' -> i_f r' = i_f r ∧ r_indexarray r' = r_indexarray r.
Proof.
  unfold parse_vt. generalize (sscanf line "vt %f %f"). intros args H. do 2 bind_inv H.
  case_decide; bind_inv H; apply Ok_inj in H; subst r'; split; reflexivity.
Qed.

Lemma indexed_kept r r' :
  i_f r' = i_f r ∧ r_indexarray r' = r_indexarray r -> indexed r -> indexed r'.
Proof. unfold indexed. intros [-> ->]. tauto. Qed.

Lemma parse_f_indexed line r r' : indexed r -> parse_f line r = Ok r' -> indexed r'.
Proof.
  unfold parse_f. generalize (sscanf line "f %d/%d/%d %d/%d/%d %d/%d/%d").
  intros args I H. bind_inv H as ints Hints.
  destruct (decide (length ints = 9%nat)) as [E|E].
  - do 9 (destruct ints as [|? ints]; [discriminate E|]).
    destruct ints; [|discriminate E].
    exact (gather_face_indexed _ _ _ _ _ _ _ _ _ _ _ I H).
  - rewrite not_nine in H by assumption. bind_inv H. apply Ok_inj in H. subst r'.
    exact I.
Qed.

Lemma parse_line_indexed line r r' : indexed r -> parse_line line r = Ok r' -> indexed r'.
Proof.
  unfold parse_line. rewrite scan_tag_tag_of. intros I H.
  destruct (String.eqb (tag_of line) "v");
    [exact (indexed_kept _ _ (parse_v_keeps _ _ _ H) I)|].
  destruct (String.eqb (tag_of line) "vn");
    [exact (indexed_kept _ _ (parse_vn_keeps _ _ _ H) I)|].
  destruct (String.eqb (tag_of line) "vt");
    [exact (indexed_kept _ _ (parse_vt_keeps _ _ _ H) I)|].
  destruct (String.eqb (tag_of line) "f"); [exact (parse_f_indexed _ _ _ I H)|].
  apply Ok_inj in H. now subst.
Qed.

Lemma second_pass_indexed lines :
  ∀ r r', indexed r -> second_pass lines r = Ok r' -> indexed r'.
Proof.
  induction lines as [|l ls IH]; intros r r' I H; cbn [second_pass] in H.
  - apply Ok_inj in H. now subst.
  - bind_inv H as x Hx. pose proof (parse_line_indexed _ _ _ I Hx) as I'.
    case_decide; [apply Ok_inj in H; now subst | eapply IH; eassumption].
Qed.

(** On a line with a token the first loop counts what the line is. *)
Lemma count_line_exact line c c' :
  tag_of line ≠ EmptyString -> count_line line c = Ok c' ->
  numfaces c' = numfaces c + bump "f" line.
Proof.
  intros Ht H. unfold count_line in H. rewrite (scan_tag_fresh line (c_tag c) Ht) in H.
  unfold bump.
  destruct (String.eqb_spec (tag_of line) "v") as [E|_];
    [rewrite E; bind_inv H; apply Ok_inj in H; subst c'; cbn; lia|].
  destruct (String.eqb_spec (tag_of line) "vn") as [E|_];
    [rewrite E; bind_inv H; apply Ok_inj in H; subst c'; cbn; lia|].
  destruct (String.eqb_spec (tag_of line) "vt") as [E|_];
    [rewrite E; bind_inv H; apply Ok_inj in H; subst c'; cbn; lia|].
  destruct (String.eqb_spec (tag_of line) "f") as [E|_].
  - bind_inv H as n Hn. apply Ok_inj in H. subst c'. unfold int_ in Hn. int_inv.
    cbn. lia.
  - apply Ok_inj in H. subst c'. cbn. lia.
Qed.

Lemma first_pass_exact lines :
  ∀ c c', Forall (fun l => tag_of l ≠ EmptyString) lines ->
          first_pass lines c = Ok c' ->
          numfaces c' = numfaces c + count_tag "f" lines.
Proof.
  induction lines as [|l ls IH]; intros c c' Ht H; cbn [first_pass count_tag] in *.
  - apply Ok_inj in H. subst. lia.
  - bind_inv H as c1 Hc1. apply Forall_cons in Ht as [Hl Hls].
    apply count_line_exact in Hc1; [|exact Hl].
    apply IH in H; [|exact Hls]. lia.
Qed.

(** The import of a file of well-formed lines, with the state in which
    the second loop ends. *)
Lemma import_run
    (fs : gmap string string) (filename text : string) (s : TriangleSoup) (c : counts) :
  fs !! filename = Some text ->
  first_pass (file_lines text) counts0 = Ok c ->
  counts_fit c ->
  Forall (well_formed c) (file_lines text) ->
  ∃ vs ns ts va ia r',
    vec_resize [] (3 *! numverts c) f0 = Ok vs ∧
    vec_resize [] (3 *! numnormals c) f0 = Ok ns ∧
    vec_resize [] (2 *! numtexcoords c) f0 = Ok ts ∧
    second_pass (file_lines text) (mkReader vs ns ts va ia 0 0 0 0 0 []) = Ok r' ∧
    reader_inv c r' ∧
    i_f r' = count_tag "f" (file_lines text) ∧
    readOBJ fs filename s
    = Ok (mkSoup (3 * numfaces c) (numfaces c) (r_vertexarray r') (r_indexarray r'), [],
          [Found filename (numverts c) (numnormals c) (numtexcoords c) (numfaces c)]).
Proof.
  intros Hfile Hfirst Hfit Hwf. unfold readOBJ. rewrite Hfile.
  fold counts0. rewrite Hfirst, bind_Ok.
  destruct (readOBJ_allocates c (file_lines text) s Hfirst Hfit)
    as (vs & ns & ts & va & ia & Hvs & Hns & Hts & -> & -> & -> & Hinv & Hslack).
  rewrite Hvs, Hns, Hts, !bind_Ok.
  destruct (second_pass_well_formed c _ Hfit Hwf _ Hinv Hslack eq_refl)
    as (r' & Hrun & Hinv' & He & Hc & Hf).
  exists vs, ns, ts, va, ia, r'. rewrite Hrun, bind_Ok.
  rewrite decide_False by lia. cbn [i_f cerr] in Hc, Hf. rewrite Hc.
  split_and!; first [reflexivity | assumption | lia].
Qed.

(** X16.  A model file in which every line has a token and is well formed is
    imported to the same object whatever the object held before: one
    triangle for each face line, three vertices of its own for each
    triangle, and the indices 0, 1, 2, ... in this order. *)
Theorem readOBJ_exact
    (fs : gmap string string) (filename text : string) (c : counts) :
  fs !! filename = Some text ->
  first_pass (file_lines text) (mkCounts None 0 0 0 0) = Ok c ->
  counts_fit c ->
  Forall (well_formed c) (file_lines text) ->
  Forall (fun l => tag_of l ≠ EmptyString) (file_lines text) ->
  ∃ m,
    (∀ s : TriangleSoup,
       readOBJ fs filename s
       = Ok (m, [],
             [Found filename (numverts c) (numnormals c) (numtexcoords c) (numfaces c)])) ∧
    ntris_ m = count_tag "f" (file_lines text) ∧
    nverts_ m = 3 * ntris_ m ∧
    indexarray_ m = seqZ 0 (3 * ntris_ m).
Proof.
  intros Hfile Hfirst Hfit Hwf Htok. fold counts0 in Hfirst.
  pose proof (first_pass_exact _ _ _ Htok Hfirst) as Hfaces. cbn [numfaces counts0] in Hfaces.
  rewrite Z.add_0_l in Hfaces.
  assert (Hindex : ∀ vs ns ts va ia r',
            second_pass (file_lines text) (mkReader vs ns ts va ia 0 0 0 0 0 []) = Ok r' ->
            reader_inv c r' -> i_f r' = count_tag "f" (file_lines text) ->
            r_indexarray r' = seqZ 0 (3 * numfaces c)).
  { intros vs ns ts va ia r' Hrun Hinv Hf.
    assert (I0 : indexed (mkReader vs ns ts va ia 0 0 0 0 0 [])) by (split; [cbn; lia | reflexivity]).
    destruct (second_pass_indexed _ _ _ I0 Hrun) as [_ Hseq].
    rewrite Hf, <- Hfaces in Hseq. rewrite <- Hseq. symmetry. apply take_ge.
    pose proof (inv_indexarray _ _ Hinv) as L. unfold len in L. lia. }
  destruct (import_run fs filename text TriangleSoup_new c Hfile Hfirst Hfit Hwf)
    as (vs & ns & ts & va & ia & r0 & Hvs & Hns & Hts & Hrun0 & Hinv0 & Hf0 & Hread0).
  exists (mkSoup (3 * numfaces c) (numfaces c) (r_vertexarray r0) (r_indexarray r0)).
  cbn [ntris_ nverts_ indexarray_].
  split; [|split; [exact Hfaces | split; [reflexivity | eapply Hindex; eassumption]]].
  intros s.
  destruct (import_run fs filename text s c Hfile Hfirst Hfit Hwf)
    as (vs' & ns' & ts' & va' & ia' & r1 & Hvs' & Hns' & Hts' & Hrun1 & Hinv1 & Hf1 & Hread1).
  rewrite Hvs in Hvs'. rewrite Hns in Hns'. rewrite Hts in Hts'.
  apply Ok_inj in Hvs'. apply Ok_inj in Hns'. apply Ok_inj in Hts'. subst vs' ns' ts'.
  assert (A0 : agree (mkReader vs ns ts va' ia' 0 0 0 0 0 [])
                     (mkReader vs ns ts va ia 0 0 0 0 0 []))
    by (constructor; reflexivity).
  pose proof (second_pass_agree _ _ _ _ _ A0 Hrun1 Hrun0) as A.
  rewrite Hread1. do 4 f_equal.
  - pose proof (ag_vertexarray _ _ A) as Hva. unfold same_upto in Hva.
    pose proof (inv_vertexarray _ _ Hinv0) as L0.
    pose proof (inv_vertexarray _ _ Hinv1) as L1.
    rewrite Hf1, <- Hfaces in Hva.
    rewrite !take_ge in Hva by (unfold len in *; lia). exact Hva.
  - rewrite (Hindex _ _ _ _ _ _ Hrun1 Hinv1 Hf1).
    now rewrite (Hindex _ _ _ _ _ _ Hrun0 Hinv0 Hf0).
Qed.

Lemma readOBJ_exact_witness :
  ∃ m,
    (∀ s : TriangleSoup,
       readOBJ {[ "tri.obj"%string := obj_triangle ]} "tri.obj" s
       = Ok (m, [], [Found "tri.obj" 3 1 1 1])) ∧
    ntris_ m = count_tag "f" (file_lines obj_triangle) ∧
    nverts_ m = 3 * ntris_ m ∧
    indexarray_ m = seqZ 0 (3 * ntris_ m).
Proof.
  apply (readOBJ_exact _ "tri.obj" obj_triangle (mkCounts (Some "f"%string) 3 1 1 1)).
  - reflexivity.
  - vm_compute. reflexivity.
  - vm_compute. repeat split; discriminate.
  - repeat (apply List.Forall_cons;
            [vm_compute;
             first [exact I
                   | split; [reflexivity | discriminate]
                   | split; [reflexivity | intros _; repeat split; discriminate]]|]).
    apply List.Forall_nil.
  - repeat (apply List.Forall_cons; [vm_compute; discriminate|]).
    apply List.Forall_nil.
Defined.

(* ===================================================================== *)
(** * The texture object *)
(* ===================================================================== *)

Lemma bgr_to_rgb_nonempty (d : list byte) : d ≠ [] -> bgr_to_rgb d ≠ [].
Proof.
  intros Hd E. apply (f_equal length) in E. rewrite bgr_to_rgb_length in E.
  destruct d; [contradiction | discriminate].
Qed.

(** X10.  From the file to the texture: for a 24-bit image whose pixels the file
    holds, [createTexture] hands the decoded RGB pixels to [glTexImage2D]
    with the width, the height and the format of the header, after it has
    generated a texture name if the object had none; the object keeps the
    three header values and releases the pixels.  The only output is the
    decoder's line on [std::cout]. *)
Theorem createTexture_uploads_rgb
    (fs : gmap string (list byte)) (name : Z) (filename : string)
    (t : TextureObject.Texture) (wl wh hl hh b5 : byte) (pixels : list byte) :
  let w := Texture.u8 wh * 256 + Texture.u8 wl in
  let h := Texture.u8 hh * 256 + Texture.u8 hl in
  let texture :=
    if decide (TextureObject.textureID_ t = 0) then name else TextureObject.textureID_ t in
  fs !! filename
    = Some (Texture.uncompressedTGA ++ [wl; wh; hl; hh; x18; b5] ++ pixels) ->
  0 < w -> 0 < h -> 3 * w * h < 2 ^ 32 -> 3 * w * h <= len pixels ->
  TextureObject.createTexture fs name filename t
  = Ok (TextureObject.mkTexture texture (Texture.mkImage w h Texture.GL_RGB []),
        (if decide (TextureObject.textureID_ t = 0)
         then [TextureObject.glGenTextures name] else [])
          ++ TextureObject.upload texture w h Texture.GL_RGB
               (bgr_to_rgb (take (Z.to_nat (3 * w * h)) pixels)),
        [], [Texture.Texture_type_is_GL_RGB filename]).
Proof.
  intros w h texture Hfile Hw Hh Hsmall Hpix. unfold TextureObject.createTexture.
  rewrite (load_rgb fs filename wl wh hl hh b5 pixels Hfile Hw Hh Hsmall Hpix), bind_Ok.
  fold w h. cbn [fst snd Texture.data Texture.width Texture.height Texture.type].
  rewrite decide_False; [reflexivity|].
  apply bgr_to_rgb_nonempty. intros E. apply (f_equal length) in E.
  rewrite length_take in E. unfold len in Hpix. cbn [length] in E. nia.
Qed.

Lemma createTexture_uploads_rgb_witness :
  TextureObject.createTexture
    {[ "rgb.tga"%string :=
         Texture.uncompressedTGA ++ [x01; x00; x02; x00; x18; x00]
           ++ [x01; x02; x03; x04; x05; x06] ]}
    5 "rgb.tga" (TextureObject.mkTexture 0 Texture.empty_image)
  = Ok (TextureObject.mkTexture 5 (Texture.mkImage 1 2 Texture.GL_RGB []),
        TextureObject.glGenTextures 5
          :: TextureObject.upload 5 1 2 Texture.GL_RGB [x03; x02; x01; x06; x05; x04],
        [], [Texture.Texture_type_is_GL_RGB "rgb.tga"]).
Proof.
  apply (createTexture_uploads_rgb _ 5 "rgb.tga"
           (TextureObject.mkTexture 0 Texture.empty_image)
           x01 x00 x02 x00 x00 [x01; x02; x03; x04; x05; x06]).
  - reflexivity.
  - reflexivity.
  - reflexivity.
  - reflexivity.
  - vm_compute. discriminate.
Defined.

(** X11.  Whatever the file: after [createTexture] the object holds no pixels; a
    load with a message on [std::cerr] makes no call to OpenGL and keeps
    the texture name, while width, height and type are reset to 0; and an
    object that has a texture name keeps it, no second name being
    generated. *)
Theorem createTexture_result
    (fs : gmap string (list byte)) (name : Z) (filename : string)
    (t t' : TextureObject.Texture) (calls : list TextureObject.gl_call)
    (log : list Texture.diagnostic) (out : list Texture.status) :
  TextureObject.createTexture fs name filename t = Ok (t', calls, log, out) ->
  Texture.data (TextureObject.image_ t') = [] ∧
  (log ≠ [] ->
   calls = [] ∧ TextureObject.id t' = TextureObject.id t ∧
   TextureObject.width t' = 0 ∧ TextureObject.height t' = 0 ∧ TextureObject.type t' = 0) ∧
  (TextureObject.id t ≠ 0 ->
   TextureObject.id t' = TextureObject.id t ∧
   ∀ n, ¬ In (TextureObject.glGenTextures n) calls).
Proof.
  unfold TextureObject.createTexture, TextureObject.id, TextureObject.width,
    TextureObject.height, TextureObject.type.
  intros H. bind_inv H as r Hr. destruct r as [[img dlog] dout]. cbn [fst snd] in H.
  apply load_cases in Hr.
  destruct (decide (Texture.data img = [])) as [Hempty|Hdata].
  - apply Ok_inj in H. injection H as <- <- <- <-.
    cbn [TextureObject.image_ TextureObject.textureID_].
    split; [exact Hempty|]. split.
    + intros Hlog. destruct Hr as [[-> _] | [-> _]]; [|contradiction].
      repeat split.
    + intros _. split; [reflexivity|]. intros n [].
  - apply Ok_inj in H. injection H as <- <- <- <-.
    cbn [TextureObject.image_ TextureObject.textureID_ Texture.data].
    split; [reflexivity|]. split.
    + intros Hlog. destruct Hr as [[-> _] | [-> _]]; [|contradiction].
      now contradiction Hdata.
    + intros Hid. rewrite !decide_False by exact Hid. split; [reflexivity|].
      intros n Hin. cbn in Hin. intuition discriminate.
Qed.

Lemma createTexture_result_witness :
  ∃ t' calls log out,
    TextureObject.createTexture ∅ 9 "none.tga"
      (TextureObject.mkTexture 7 (Texture.mkImage 2 2 Texture.GL_RGB []))
    = Ok (t', calls, log, out) ∧
    Texture.data (TextureObject.image_ t') = [] ∧
    (log ≠ [] ->
     calls = [] ∧ TextureObject.id t' = 7 ∧
     TextureObject.width t' = 0 ∧ TextureObject.height t' = 0 ∧ TextureObject.type t' = 0) ∧
    (7 ≠ 0 ->
     TextureObject.id t' = 7 ∧ ∀ n, ¬ In (TextureObject.glGenTextures n) calls).
Proof.
  eexists _, _, _, _. split; [vm_compute; reflexivity|].
  apply (createTexture_result ∅ 9 "none.tga"
           (TextureObject.mkTexture 7 (Texture.mkImage 2 2 Texture.GL_RGB []))
           _ _ _ []).
  vm_compute. reflexivity.
Defined.

(* ===================================================================== *)
(** * The range of createSphere *)
(* ===================================================================== *)

Lemma imul_checked a b : Ok a *! Ok b = checked (a * b).
Proof. reflexivity. Qed.

Lemma iadd_checked a b : Ok a +! Ok b = checked (a + b).
Proof. reflexivity. Qed.

Lemma isub_checked a b : Ok a -! Ok b = checked (a - b).
Proof. reflexivity. Qed.

Lemma checked_cases z : checked z = Ok z ∨ checked z = Undefined SignedOverflow.
Proof. unfold checked. destruct (in_int z); auto. Qed.

Lemma checked_out z : INT_MAX < z -> checked z = Undefined SignedOverflow.
Proof.
  intros Hz. unfold checked. destruct (in_int z) eqn:E; [|reflexivity].
  apply in_int_spec in E. lia.
Qed.

(** The value of an [int] operation, or the overflow that ends the call. *)
Ltac step_checked z :=
  let E := fresh "E" in
  destruct (checked_cases z) as [E|E]; rewrite E; clear E; [|reflexivity].

(** X13.  From 11586 segments on, the number of floats of the vertex array is
    not an [int]: the call ends in a signed overflow, whatever the radius
    and the object. *)
Theorem createSphere_overflows (radius : GLfloat) (segments : Z) (s : TriangleSoup) :
  11586 <= segments ->
  createSphere radius segments s = Undefined SignedOverflow.
Proof.
  intros Hseg. unfold createSphere, int_.
  set (vsegs := Z.max segments 2). assert (Hv : 11586 <= vsegs) by (subst vsegs; lia).
  clearbody vsegs. cbn [clean vertexarray_ indexarray_].
  assert (Hq : 11585 * 23173 <= (vsegs - 1) * (vsegs * 2 + 1))
    by (apply Z.mul_le_mono_nonneg; lia).
  (* hsegs *)
  rewrite (imul_checked vsegs 2). step_checked (vsegs * 2). rewrite bind_Ok.
  (* nverts *)
  rewrite (isub_checked vsegs 1). step_checked (vsegs - 1).
  rewrite (iadd_checked (vsegs * 2) 1). step_checked (vsegs * 2 + 1).
  rewrite (imul_checked (vsegs - 1) (vsegs * 2 + 1)).
  step_checked ((vsegs - 1) * (vsegs * 2 + 1)).
  rewrite (iadd_checked 1 ((vsegs - 1) * (vsegs * 2 + 1))).
  step_checked (1 + (vsegs - 1) * (vsegs * 2 + 1)).
  rewrite (iadd_checked (1 + (vsegs - 1) * (vsegs * 2 + 1)) 1).
  step_checked (1 + (vsegs - 1) * (vsegs * 2 + 1) + 1). rewrite bind_Ok.
  (* ntris *)
  rewrite (isub_checked vsegs 2). step_checked (vsegs - 2).
  rewrite (imul_checked (vsegs - 2) (vsegs * 2)). step_checked ((vsegs - 2) * (vsegs * 2)).
  rewrite (imul_checked ((vsegs - 2) * (vsegs * 2)) 2).
  step_checked ((vsegs - 2) * (vsegs * 2) * 2).
  rewrite (iadd_checked (vsegs * 2) ((vsegs - 2) * (vsegs * 2) * 2)).
  step_checked (vsegs * 2 + (vsegs - 2) * (vsegs * 2) * 2).
  rewrite (iadd_checked (vsegs * 2 + (vsegs - 2) * (vsegs * 2) * 2) (vsegs * 2)).
  step_checked (vsegs * 2 + (vsegs - 2) * (vsegs * 2) * 2 + vsegs * 2). rewrite bind_Ok.
  (* nverts * 8 *)
  rewrite (imul_checked _ 8), checked_out by (unfold INT_MAX; lia).
  reflexivity.
Qed.

Lemma createSphere_overflows_witness :
  createSphere f1 20000 TriangleSoup_new = Undefined SignedOverflow.
Proof.
  apply (createSphere_overflows f1 20000 TriangleSoup_new). vm_compute. discriminate.
Defined.

(* ===================================================================== *)
(** * The poles of the sphere *)
(* ===================================================================== *)

(** What a store changes of the elements before and behind it. *)
Lemma vec_store_takes {A : Type} id (v : list A) i x v' :
  vec_store id v i x = Ok v' ->
  ∃ k, i = Ok k ∧ 0 <= k ∧ len v' = len v ∧
       (∀ n p, n = k -> take (Z.to_nat n) v = p ->
               take (Z.to_nat (k + 1)) v' = p ++ [x]) ∧
       (∀ n : nat, (n <= Z.to_nat k)%nat -> take n v' = take n v) ∧
       (∀ n : nat, (Z.to_nat k < n)%nat -> drop n v' = drop n v).
Proof.
  intros (k & Hk & Hr & ->)%vec_store_Ok. exists k.
  split; [assumption|]. split; [lia|]. split; [apply len_insert|]. split; [|split].
  - intros n p -> <-. replace (Z.to_nat (k + 1)) with (S (Z.to_nat k)) by lia.
    apply take_S_insert. unfold len in Hr. lia.
  - intros n Hn. now apply take_insert_ge.
  - intros n Hn. now apply drop_insert_lt.
Qed.

(** The value of an index expression [a] or [a + b]. *)
Ltac index_value Hk k :=
  first [ apply Ok_inj in Hk
        | apply iadd_Ok in Hk as (? & ? & [= <-] & [= <-] & Hk & _) ];
  subst k.

(** A store that extends the known prefix [Hpre] by one element. *)
Ltac top_step H Hpre Hlen :=
  let v := fresh "va" in let Hv := fresh "Hv" in
  let k := fresh "k" in let Hk := fresh "Hk" in let Hl := fresh "Hl" in
  let Hext := fresh "Hext" in
  bind_inv H as v Hv;
  apply vec_store_takes in Hv as (k & Hk & _ & Hl & Hext & _ & _);
  unfold int_ in Hk; index_value Hk k;
  eapply Hext in Hpre; [|lia]; clear Hext;
  rewrite <- Hl in Hlen; clear Hl.

(** The same behind the first eight elements [Htop], which it keeps. *)
Ltac bottom_step H Htop Hpre Hlen :=
  let v := fresh "va" in let Hv := fresh "Hv" in
  let k := fresh "k" in let Hk := fresh "Hk" in let Hl := fresh "Hl" in
  let Hext := fresh "Hext" in let Hkeep := fresh "Hkeep" in
  bind_inv H as v Hv;
  apply vec_store_takes in Hv as (k & Hk & _ & Hl & Hext & Hkeep & _);
  unfold int_ in Hk; index_value Hk k;
  rewrite <- (Hkeep 8%nat) in Htop by lia;
  eapply Hext in Hpre; [|lia]; clear Hext Hkeep;
  rewrite <- Hl in Hlen; clear Hl.

(** A store between the poles. *)
Ltac ring_store Hv Htop Hbot Hlen :=
  let k := fresh "k" in let Hk := fresh "Hk" in let Hl := fresh "Hl" in
  let Hkeep := fresh "Hkeep" in let Hdrop := fresh "Hdrop" in
  apply vec_store_takes in Hv as (k & Hk & _ & Hl & _ & Hkeep & Hdrop);
  unfold int_ in Hk; index_value Hk k;
  rewrite <- (Hkeep 8%nat) in Htop by lia;
  match type of Hbot with
  | drop ?n _ = _ => rewrite <- (Hdrop n) in Hbot by lia
  end;
  clear Hkeep Hdrop;
  rewrite <- Hl in Hlen; clear Hl.

Ltac ring_step H Htop Hbot Hlen :=
  let v := fresh "va" in let Hv := fresh "Hv" in
  bind_inv H as v Hv; ring_store Hv Htop Hbot Hlen.

(** X14.  Whenever [createSphere] returns, the first vertex is the top pole
    (0, 0, radius) with the normal (0, 0, 1) and the last vertex is the
    bottom pole (0, 0, -radius) with the normal (0, 0, -1): the rings
    between them leave both as they were written. *)
Theorem createSphere_poles (radius : GLfloat) (segments : Z) (s m : TriangleSoup) :
  createSphere radius segments s = Ok m ->
  take 8 (vertexarray_ m) = sphere_top radius ∧
  drop (Z.to_nat ((nverts_ m - 1) * 8)) (vertexarray_ m) = sphere_bottom radius.
Proof.
  unfold createSphere, int_.
  set (vsegs := Z.max segments 2). assert (Hv : 2 <= vsegs) by (subst vsegs; lia).
  clearbody vsegs. cbn [clean vertexarray_ indexarray_]. intros H.
  bind_inv H as hsegs Hh. bind_inv H as nverts Hnv. bind_inv H as ntris Hnt.
  bind_inv H as va Hva. apply vec_resize_nil_Ok in Hva as (n8 & Hn8 & Hn8pos & ->).
  bind_inv H as ia Hia. clear Hia Hnt.
  apply imul_Ok in Hh as (? & ? & [= <-] & [= <-] & Hh & _).
  apply imul_Ok in Hn8 as (? & ? & [= <-] & [= <-] & -> & Hn8).
  assert (Hnv' : nverts = 1 + (vsegs - 1) * (hsegs + 1) + 1) by (int_inv; reflexivity).
  clear Hnv.
  assert (Hmid : 1 <= (vsegs - 1) * (hsegs + 1)) by nia.
  assert (Hlen : len (replicate (Z.to_nat (nverts * 8)) f0) = nverts * 8)
    by (rewrite len_replicate; lia).
  (* top pole *)
  assert (Htop : take (Z.to_nat 0) (replicate (Z.to_nat (nverts * 8)) f0) = [])
    by reflexivity.
  do 8 top_step H Htop Hlen.
  change (Z.to_nat (7 + 1)) with 8%nat in Htop. cbn [app] in Htop.
  (* bottom pole *)
  bind_inv H as base Hbase.
  assert (base = (nverts - 1) * 8) as -> by (int_inv; reflexivity). clear Hbase.
  pose proof Hlen as Hlen8.
  match type of Htop with
  | take _ ?v = _ =>
      assert (Hbot : take (Z.to_nat ((nverts - 1) * 8)) v
                     = take (Z.to_nat ((nverts - 1) * 8)) v) by reflexivity;
      set (v8 := v) in Hlen8, Hbot at 2
  end.
  do 8 bottom_step H Htop Hbot Hlen.
  match type of Hbot with
  | take _ ?v = _ => assert (Hpoles : has_poles radius nverts v)
  end.
  { split; [exact Htop|]. split; [|exact Hlen].
    rewrite take_ge in Hbot by (unfold len in Hlen; lia).
    rewrite Hbot, <- !app_assoc. cbn [app].
    apply drop_app_length'. rewrite length_take. unfold len in Hlen8. lia. }
  clear Htop Hbot Hlen Hlen8 v8.
  (* the rings *)
  bind_inv H as rings Hrings.
  assert (rings = vsegs - 1) as -> by (int_inv; reflexivity). clear Hrings.
  bind_inv H as va' Hloop.
  assert (Hpoles' : has_poles radius nverts va').
  { eapply (for_range_preserves (has_poles radius nverts)); [|exact Hpoles|exact Hloop].
    clear Hloop Hpoles H. intros j t t' Hj Ht Hb.
    bind_inv Hb as j1 Hj1. clear Hj1. bind_inv Hb as ring Hring.
    assert (ring = hsegs + 1) as -> by (int_inv; reflexivity). clear Hring.
    eapply (for_range_preserves (has_poles radius nverts)); [|exact Ht|exact Hb].
    clear Hb Ht. intros i u u' Hi (Htop & Hbot & Hlen) Hb.
    bind_inv Hb as base Hbase.
    assert (base = (1 + j * (hsegs + 1) + i) * 8) as -> by (int_inv; reflexivity).
    clear Hbase.
    assert (Hrow : 0 <= j * (hsegs + 1) <= (vsegs - 2) * (hsegs + 1)) by nia.
    assert (Hlast : (vsegs - 2) * (hsegs + 1) + (hsegs + 1) = (vsegs - 1) * (hsegs + 1))
      by ring.
    do 7 ring_step Hb Htop Hbot Hlen.
    bind_inv Hb as j2 Hj2. clear Hj2.
    ring_store Hb Htop Hbot Hlen.
    split; [exact Htop|]. split; [exact Hbot | exact Hlen]. }
  destruct Hpoles' as (Htop & Hbot & _).
  bind_inv H as ia1 H1. clear H1.
  bind_inv H as bands H2. clear H2.
  bind_inv H as ia2 H3. clear H3.
  bind_inv H as base' H4. clear H4.
  bind_inv H as ia3 H5. clear H5.
  injection H as <-. cbn [nverts_ vertexarray_]. split; assumption.
Qed.

Lemma createSphere_poles_witness :
  ∃ m,
    createSphere (FLit "2.0f") 2 TriangleSoup_new = Ok m ∧
    take 8 (vertexarray_ m) = sphere_top (FLit "2.0f") ∧
    drop (Z.to_nat ((nverts_ m - 1) * 8)) (vertexarray_ m) = sphere_bottom (FLit "2.0f").
Proof.
  eexists. split; [vm_compute; reflexivity|].
  apply (createSphere_poles (FLit "2.0f") 2 TriangleSoup_new). vm_compute. reflexivity.
Defined.
